(** * Ontario gauge sub-basin extractor: a shallow embedding

  The script [ontario_gauge_subbasins.py] is glue code over Earth Engine,
  pandas, geopandas, [zipfile] and [os].  The embedding keeps the script's
  own control flow (the per-row loop, the mode branch, the early returns)
  and models what it drives:

  - Python strings as [string], with [str.replace], [os.path.join],
    [os.path.basename] and [os.path.relpath] written out;
  - the file system as a tree of directories and files, with [os.mkdir],
    [os.walk], [os.remove], [os.rmdir] and their failure cases, and
    [os.makedirs] as the standard library writes it on top of them; the
    order in which a directory is listed is the file system's, not the
    script's;
  - paths as the strings the script builds, followed from the working
    directory, which is the root of the tree.  There are no symbolic links,
    and a path through [".."] is outside the model: every call on such a
    path raises, and the statements about paths say in their hypotheses
    that the path resolves;
  - a zip archive as the ordered list of its entries;
  - Earth Engine client objects as the expression trees they are;
  - exceptions and effects through a state-and-exception monad: the state
    (file system, event trace) survives a raised exception;
  - the answers of the outside world (Earth Engine, pandas, geopandas,
    Python's [float] and [str]) as the fields of a [Host] record. *)

From Stdlib Require Import List String Ascii ZArith Bool Arith Lia PrimFloat Floats Permutation.
Import ListNotations.
Local Open Scope list_scope.
Local Open Scope string_scope.

Set Warnings "-register-all".

(* ------------------------------------------------------------------ *)
(** * Python strings *)

Module PyStr.

(** [s.startswith(p)] *)
Fixpoint startswith (p s : string) : bool :=
  match p, s with
  | EmptyString, _ => true
  | String a p', String b s' => Ascii.eqb a b && startswith p' s'
  | String _ _, EmptyString => false
  end.

(** The scan of [s.replace(old, new)] for a non-empty [old]: left to right,
    non-overlapping.  [skip] counts the characters of a match that are
    still to be dropped. *)
Fixpoint replace_from (old new : string) (skip : nat) (s : string) : string :=
  match s with
  | EmptyString => EmptyString
  | String a s' =>
      match skip with
      | S k => replace_from old new k s'
      | O =>
          if startswith old s
          then new ++ replace_from old new (String.length old - 1) s'
          else String a (replace_from old new 0 s')
      end
  end.

(** [s.replace(old, new)], for a non-empty [old] *)
Definition replace (old new s : string) : string := replace_from old new 0 s.

(** [s.split(sep)] for a one-character separator: never empty, [""] splits
    to [[""]]. *)
Fixpoint split (sep : ascii) (s : string) : list string :=
  match s with
  | EmptyString => [EmptyString]
  | String a s' =>
      if Ascii.eqb a sep then EmptyString :: split sep s'
      else match split sep s' with
           | h :: t => String a h :: t
           | [] => [String a EmptyString]
           end
  end.

(** [sep.join(parts)] *)
Fixpoint join (sep : string) (parts : list string) : string :=
  match parts with
  | [] => EmptyString
  | [p] => p
  | p :: rest => p ++ sep ++ join sep rest
  end.

(** the last character, if any *)
Fixpoint last_char (s : string) : option ascii :=
  match s with
  | EmptyString => None
  | String a EmptyString => Some a
  | String _ s' => last_char s'
  end.

End PyStr.

(* ------------------------------------------------------------------ *)
(** * [posixpath] *)

Module PosixPath.

Definition sep : ascii := "/"%char.

(** [os.path.join(a, b)] *)
Definition join (a b : string) : string :=
  if PyStr.startswith "/" b then b
  else match PyStr.last_char a with
       | None => b
       | Some c => if Ascii.eqb c sep then a ++ b else a ++ "/" ++ b
       end.

(** what follows the last slash of [s] *)
Definition basename (p : string) : string := last (PyStr.split sep p) EmptyString.

(** [(p[:i], p[i:])] for [i = p.rfind("/") + 1]: the cut after the last
    slash *)
Fixpoint cut (p : string) : string * string :=
  match p with
  | EmptyString => (EmptyString, EmptyString)
  | String a s =>
      let '(h, t) := cut s in
      match h with
      | EmptyString =>
          if Ascii.eqb a sep then (String a EmptyString, s) else (EmptyString, String a s)
      | _ => (String a h, t)
      end
  end.

(** [s.rstrip("/")] *)
Fixpoint rstrip_sep (s : string) : string :=
  match s with
  | EmptyString => EmptyString
  | String a s' =>
      match rstrip_sep s' with
      | EmptyString => if Ascii.eqb a sep then EmptyString else String a EmptyString
      | r => String a r
      end
  end.

(** [os.path.split(p)]: the head loses its trailing slashes unless it is
    made of slashes only *)
Definition split (p : string) : string * string :=
  let '(head, tail) := cut p in
  match rstrip_sep head with
  | EmptyString => (head, tail)
  | stripped => (stripped, tail)
  end.

(** The components [os.path.normpath] keeps: empty and ["."] components
    are dropped, [".."] cancels the component before it. *)
Fixpoint norm_push (acc : list string) (cs : list string) : list string :=
  match cs with
  | [] => rev acc
  | c :: cs' =>
      if String.eqb c "" || String.eqb c "." then norm_push acc cs'
      else if String.eqb c ".."
           then match acc with
                | [] => norm_push [] cs'
                | _ :: acc' => norm_push acc' cs'
                end
           else norm_push (c :: acc) cs'
  end.

Definition normcomps (p : string) : list string :=
  norm_push [] (PyStr.split sep p).

(** the common prefix of two component lists is stripped from both *)
Fixpoint strip_common (a b : list string) : list string * list string :=
  match a, b with
  | x :: a', y :: b' => if String.eqb x y then strip_common a' b' else (a, b)
  | _, _ => (a, b)
  end.

(** [os.path.relpath(path, start)], both taken from the working directory *)
Definition relpath (path start : string) : string :=
  let '(up, down) := strip_common (normcomps start) (normcomps path) in
  match (map (fun _ => "..") up ++ down)%list with
  | [] => "."
  | rel => PyStr.join "/" rel
  end.

End PosixPath.


(* ------------------------------------------------------------------ *)
(** * Exceptions and outcomes *)

(** The Python exceptions the script can meet.  [HostException] stands for
    any other subclass of [Exception] raised inside a library (an Earth
    Engine error, a pandas parser error, ...); [HostBaseException] for an
    exception that is not an [Exception] ([KeyboardInterrupt],
    [SystemExit]), which [except Exception] lets through. *)
Inductive exn : Type :=
| KeyError (arg : string)
| ValueError (arg : string)
| FileNotFoundError (path : string)
| FileExistsError (path : string)
| NotADirectoryError (path : string)
| IsADirectoryError (path : string)
| OSError (arg : string)
| HostException (name : string)
| HostBaseException (name : string).

(** [isinstance(e, Exception)] *)
Definition is_Exception (e : exn) : bool :=
  match e with
  | HostBaseException _ => false
  | _ => true
  end.

(** How a call ends: it returns a value or raises. *)
Inductive outcome (A : Type) : Type :=
| Returned (a : A)
| Raised (e : exn).

Arguments Returned {A} a.
Arguments Raised {A} e.

(* ------------------------------------------------------------------ *)
(** * The file system *)

Module FS.

(** What a regular file holds: opaque bytes, or a zip archive seen as the
    ordered list of its entries (name, content).  [zipfile] does not merge
    entries of the same name, so the list may repeat a name. *)
Inductive content : Type :=
| Blob (bytes : string)
| Archive (entries : list (string * content)).

(** A directory holds its entries in the order they were made; the order in
    which [os.scandir] reports them is another matter, see [walk].  There are
    no symbolic links. *)
Inductive node : Type :=
| File (c : content)
| Dir (kids : list (string * node)).

Fixpoint kids_get (name : string) (kids : list (string * node)) : option node :=
  match kids with
  | [] => None
  | (k, n) :: rest => if String.eqb k name then Some n else kids_get name rest
  end.

(** replace the entry called [name], or add it after the others *)
Fixpoint kids_set (name : string) (n : node) (kids : list (string * node))
  : list (string * node) :=
  match kids with
  | [] => [(name, n)]
  | (k, m) :: rest =>
      if String.eqb k name then (k, n) :: rest
      else (k, m) :: kids_set name n rest
  end.

Definition kids_del (name : string) (kids : list (string * node))
  : list (string * node) :=
  filter (fun e => negb (String.eqb (fst e) name)) kids.

(** the node a list of components leads to *)
Fixpoint get (cs : list string) (n : node) : option node :=
  match cs with
  | [] => Some n
  | c :: cs' =>
      match n with
      | Dir kids =>
          match kids_get c kids with
          | Some k => get cs' k
          | None => None
          end
      | File _ => None
      end
  end.

(** Change the listing of the directory at [cs]; [p] is the path as the
    caller spelled it, for the exception. *)
Fixpoint alter_dir (p : string) (cs : list string)
    (f : list (string * node) -> outcome (list (string * node))) (n : node)
  : outcome node :=
  match n with
  | File _ => Raised (NotADirectoryError p)
  | Dir kids =>
      match cs with
      | [] =>
          match f kids with
          | Returned kids' => Returned (Dir kids')
          | Raised e => Raised e
          end
      | c :: cs' =>
          match kids_get c kids with
          | None => Raised (FileNotFoundError p)
          | Some k =>
              match alter_dir p cs' f k with
              | Returned k' => Returned (Dir (kids_set c k' kids))
              | Raised e => Raised e
              end
          end
      end
  end.

(** [open(p, "wb")] followed by writing [c]: the parent must be a directory,
    the target must not be one. *)
Definition write_file (p : string) (cs : list string) (c : content) (root : node)
  : outcome node :=
  match cs with
  | [] => Raised (IsADirectoryError p)
  | _ =>
      let name := last cs "" in
      alter_dir p (removelast cs)
        (fun kids =>
           match kids_get name kids with
           | Some (Dir _) => Raised (IsADirectoryError p)
           | _ => Returned (kids_set name (File c) kids)
           end) root
  end.

(** [os.remove(p)] *)
Definition remove (p : string) (cs : list string) (root : node) : outcome node :=
  match cs with
  | [] => Raised (IsADirectoryError p)
  | _ =>
      let name := last cs "" in
      alter_dir p (removelast cs)
        (fun kids =>
           match kids_get name kids with
           | Some (File _) => Returned (kids_del name kids)
           | Some (Dir _) => Raised (IsADirectoryError p)
           | None => Raised (FileNotFoundError p)
           end) root
  end.

(** [os.rmdir(p)]: only an empty directory goes. *)
Definition rmdir (p : string) (cs : list string) (root : node) : outcome node :=
  match cs with
  | [] => Raised (OSError "Device or resource busy")
  | _ =>
      let name := last cs "" in
      alter_dir p (removelast cs)
        (fun kids =>
           match kids_get name kids with
           | Some (Dir []) => Returned (kids_del name kids)
           | Some (Dir (_ :: _)) => Raised (OSError "Directory not empty")
           | Some (File _) => Raised (NotADirectoryError p)
           | None => Raised (FileNotFoundError p)
           end) root
  end.

(** [mkdir(p)]: one new, empty directory; the parent must be a directory
    and the name must be free. *)
Definition mkdir (p : string) (cs : list string) (root : node) : outcome node :=
  match cs with
  | [] => Raised (FileExistsError p)
  | _ =>
      let name := last cs "" in
      alter_dir p (removelast cs)
        (fun kids =>
           match kids_get name kids with
           | Some _ => Raised (FileExistsError p)
           | None => Returned (kids_set name (Dir []) kids)
           end) root
  end.

Definition is_dir (e : string * node) : bool :=
  match snd e with Dir _ => true | File _ => false end.

(** [entry.is_dir()] and its negation, for the entry of a listing called
    [name] *)
Definition names_dir (kids : list (string * node)) (name : string) : bool :=
  match kids_get name kids with Some (Dir _) => true | _ => false end.

Definition names_file (kids : list (string * node)) (name : string) : bool :=
  match kids_get name kids with Some (File _) => true | _ => false end.

(** [os.walk] lists a directory with [os.scandir]: the names come in the
    order [order] puts them, and are then told apart. *)
Definition dirnames (order : list string -> list string) (kids : list (string * node))
  : list string :=
  filter (names_dir kids) (order (map fst kids)).

Definition filenames (order : list string -> list string) (kids : list (string * node))
  : list string :=
  filter (names_file kids) (order (map fst kids)).

(** the walk of the sub-directory called [d], among the walks of the entries *)
Definition sub_walk {T} (d : string) (subs : list (string * list T)) : list T :=
  match find (fun s => String.eqb (fst s) d) subs with
  | Some s => snd s
  | None => []
  end.

(** The triples [(root, dirs, files)] of [os.walk(top, topdown)] for the
    directory [n] reached as [root]; sub-directories are reached as
    [os.path.join(root, name)], in the order of [dirs]. *)
Fixpoint walk (order : list string -> list string) (topdown : bool) (root : string)
    (n : node) : list (string * list string * list string) :=
  match n with
  | File _ => []
  | Dir kids =>
      let here := (root, dirnames order kids, filenames order kids) in
      let subs :=
        map (fun e => (fst e, walk order topdown (PosixPath.join root (fst e)) (snd e)))
            kids in
      let below := flat_map (fun d => sub_walk d subs) (dirnames order kids) in
      if topdown then here :: below else (below ++ [here])%list
  end.

End FS.

(* ------------------------------------------------------------------ *)
(** * Earth Engine objects, tables and the command line *)

(** Client-side Earth Engine objects are unevaluated expressions: nothing is
    sent to the service before [getInfo] or the start of an export task. *)
Inductive ee_geometry : Type :=
| Point (lon lat : float)
| Buffer (g : ee_geometry) (distance : float).

Inductive ee_collection : Type :=
| FeatureCollection (id : string)
| FilterBounds (c : ee_collection) (g : ee_geometry).

Definition DATASET_ID : string := "WWF/HydroATLAS/v1/Basins/level12".

Definition geojson := string.
Definition geometry := string.
Definition properties := list (string * string).

(** One element of [info["features"]]: each key may be missing. *)
Record ee_feature : Type := {
  f_geometry : option geojson;
  f_properties : option properties
}.

(** The dictionary [fc.getInfo()] returns, reduced to its ["features"] key. *)
Record ee_info : Type := { info_features : option (list ee_feature) }.

(** A [GeoDataFrame] in [crs]: the attribute columns, and for each row its
    value in each column ([None] for the [NaN] of a missing value) and its
    geometry. *)
Record geodataframe : Type := {
  gdf_columns : list string;
  gdf_rows : list (list (option string) * geometry);
  gdf_crs : string
}.

(** [d.get(key)] on a dictionary given by its items *)
Fixpoint dict_get (key : string) (d : properties) : option string :=
  match d with
  | [] => None
  | (k, v) :: rest => if String.eqb k key then Some v else dict_get key rest
  end.

(** the keys of [keys] not seen so far are added, in their order *)
Fixpoint add_keys (seen keys : list string) : list string :=
  match keys with
  | [] => seen
  | k :: rest =>
      if existsb (String.eqb k) seen then add_keys seen rest
      else add_keys (seen ++ [k]) rest
  end.

(** the columns pandas gives a list of dictionaries: every key, in the order
    of its first appearance *)
Definition union_keys (dicts : list properties) : list string :=
  fold_left (fun seen d => add_keys seen (map fst d)) dicts [].

(** [gpd.GeoDataFrame(props, geometry=geoms, crs=crs)], for the two lists
    zipped: every row gets every column; the column called ["geometry"] is
    the one [geometry=] sets, so a property of that name is not kept. *)
Definition GeoDataFrame (rows : list (properties * geometry)) (crs : string)
  : geodataframe :=
  let columns :=
    filter (fun k => negb (String.eqb k "geometry")) (union_keys (map fst rows)) in
  {| gdf_columns := columns;
     gdf_rows := map (fun r => (map (fun c => dict_get c (fst r)) columns, snd r)) rows;
     gdf_crs := crs |}.

(** [gdf.empty]: the frame always has its geometry column, so it is empty
    exactly when it has no row. *)
Definition gdf_empty (gdf : geodataframe) : bool :=
  match gdf_rows gdf with [] => true | _ :: _ => false end.

(** The arguments of [ee.batch.Export.table.toDrive]. *)
Record export_task : Type := {
  task_collection : ee_collection;
  task_description : string;
  task_fileFormat : string;
  task_folder : option string
}.

(** A cell of the table pandas parsed. *)
Inductive cell : Type :=
| CStr (s : string)
| CInt (z : Z)
| CFloat (f : float)
| CBool (b : bool).

Record dataframe : Type := {
  df_columns : list string;
  df_rows : list (list cell)
}.

(** [--export_mode]: argparse admits these two choices only. *)
Inductive export_mode_t : Type := client | ee_drive.

Record args_t : Type := {
  gauges_csv : string;
  lat_col : string;
  lon_col : string;
  id_col : string;
  buffer_km : float;
  export_mode : export_mode_t;
  out_dir : string;
  drive_folder : option string;
  ee_project : option string;
  limit : option Z;
  sleep_sec : float
}.

(* ------------------------------------------------------------------ *)
(** * The world: file system and trace *)

(** The lines the script prints, one constructor per [print] statement. *)
Inductive message : Type :=
| MsgEeNotInitialized
    (* "Earth Engine not initialized. Starting authentication flow..." *)
| MsgStarted (description task_id : string)
    (* "Started EE export task for '{description}'. Task ID: {task.id}" *)
| MsgProcessing (gid : string) (lat lon : float)
    (* "Processing gauge {gid} at ({lat:.5f}, {lon:.5f}) ..." *)
| MsgNoSubbasins (gid : string)
    (* "  No sub-basins found for gauge {gid}. Skipping." *)
| MsgWrote (out_zip : string)
    (* "  Wrote: {out_zip}" *)
| MsgNoZips
    (* "No per-gauge ZIPs to combine." *)
| MsgCombined (combined : string)
    (* "Combined ZIP written: {combined}" *)
| MsgReachedLimit (limit : Z)
    (* "Reached limit={args.limit}. Stopping." *)
| MsgAllStarted.
    (* "All EE export tasks have been started. Monitor the Earth Engine Tasks panel." *)

(** What the process does to the outside other than to the file system, in
    the order it does it. *)
Inductive event : Type :=
| EvPrint (m : message)
| EvInitialize (project : option string)
| EvAuthenticate
| EvReadCsv (path : string)
| EvGetInfo (fc : ee_collection)
| EvExportStart (task : export_task)
| EvSleep (seconds : float).

Record world : Type := {
  w_fs : FS.node;
  w_trace : list event
}.

(** What the libraries and the services answer.  The script cannot tell how
    the answers are computed; the theorems hold for every host. *)
Record Host : Type := {
  (** [float(x)] on a cell: a [ValueError] on text that is no number *)
  py_float : cell -> outcome float;
  (** [str(x)] on a cell *)
  py_str : cell -> string;
  (** the field names of the named tuples [df.itertuples(index=False)]
      yields for these columns (pandas renames a column that is no
      identifier), or [None] where it yields plain tuples *)
  itertuples_fields : list string -> option (list string);
  (** [pd.read_csv(path)] on the current file system *)
  read_csv : FS.node -> string -> outcome dataframe;
  (** [ee.Initialize(project=...)]; [true] on the attempt that follows
      [ee.Authenticate()] *)
  ee_initialize : bool -> option string -> option exn;
  ee_authenticate : option exn;
  (** [fc.getInfo()] *)
  ee_getInfo : ee_collection -> outcome ee_info;
  (** [task.start()] on a new task; answers [task.id] *)
  ee_start : export_task -> outcome string;
  (** [shapely.geometry.shape] *)
  shp_shape : geojson -> outcome geometry;
  (** the files the ESRI Shapefile driver writes for a frame, in the order
      it writes them: the extension of each (after the stem of the [.shp]
      path) and its bytes; and the exception it ends with, when it fails
      after these *)
  shapefile_parts : geodataframe -> list (string * string) * option exn;
  (** the exception of the driver when the system refuses it a file *)
  driver_error : exn -> exn;
  (** the order in which [os.scandir] reports the names of a directory:
      the file system's own, some rearrangement of the names *)
  scandir : forall names : list string, {l : list string | Permutation l names}
}.

(** the names of a directory as [os.scandir] lists them *)
Definition listing (host : Host) (names : list string) : list string :=
  proj1_sig (scandir host names).

(** A computation: the world goes on whether the call returns or raises. *)
Definition M (A : Type) : Type := world -> world * outcome A.

Definition ret {A} (a : A) : M A := fun w => (w, Returned a).

Definition raise {A} (e : exn) : M A := fun w => (w, Raised e).

Definition bind {A B} (m : M A) (k : A -> M B) : M B :=
  fun w =>
    match m w with
    | (w', Returned a) => k a w'
    | (w', Raised e) => (w', Raised e)
    end.

Notation "x <- m ;; k" := (bind m (fun x => k))
  (at level 61, m at next level, right associativity).
Notation "m ;;; k" := (bind m (fun _ => k))
  (at level 61, right associativity).

(** [for x in xs: body(x)] *)
Fixpoint for_each {A} (xs : list A) (body : A -> M unit) : M unit :=
  match xs with
  | [] => ret tt
  | x :: xs' => body x ;;; for_each xs' body
  end.

Definition of_outcome {A} (o : outcome A) : M A := fun w => (w, o).

Definition emit (e : event) : M unit :=
  fun w => ({| w_fs := w_fs w; w_trace := (w_trace w ++ [e])%list |}, Returned tt).

Definition print (m : message) : M unit := emit (EvPrint m).

(** a change of the file system that may raise *)
Definition on_fs (f : FS.node -> outcome FS.node) : M unit :=
  fun w =>
    match f (w_fs w) with
    | Returned fs' => ({| w_fs := fs'; w_trace := w_trace w |}, Returned tt)
    | Raised e => (w, Raised e)
    end.

(* ------------------------------------------------------------------ *)
(** * [os], [zipfile] and [geopandas] on the world *)

Module Os.

(** The components the kernel walks for a path.  The working directory is the
    root of the tree; empty and ["."] components lead nowhere new.  The empty
    path names nothing, and a path through [".."] is outside the model: both
    resolve to nothing, and every call on them raises.  What a slash or a
    ["."] at the end of the path asks for is said by [stat] and [mkdir]. *)
Definition resolve (p : string) : option (list string) :=
  if String.eqb p "" then None
  else
    let cs := filter (fun c => negb (String.eqb c "" || String.eqb c "."))
                     (PyStr.split PosixPath.sep p) in
    if existsb (String.eqb "..") cs then None else Some cs.

Definition lookup (p : string) (root : FS.node) : option FS.node :=
  match resolve p with
  | Some cs => FS.get cs root
  | None => None
  end.

(** The last component of [p] that is not empty is ["."]: the kernel then
    looks for the directory itself. *)
Definition final_dot (p : string) : bool :=
  String.eqb
    (last (filter (fun c => negb (String.eqb c "")) (PyStr.split PosixPath.sep p)) "")
    ".".

(** A path that ends in a slash or in ["."] names a directory or nothing. *)
Definition wants_dir (p : string) : bool :=
  String.eqb (last (PyStr.split PosixPath.sep p) "") "" || final_dot p.

(** [os.stat(p)], as far as the kind of the node goes *)
Definition stat (p : string) (root : FS.node) : option FS.node :=
  match lookup p root with
  | Some (FS.File c) => if wants_dir p then None else Some (FS.File c)
  | r => r
  end.

(** [os.path.exists(p)] *)
Definition path_exists (p : string) : M bool :=
  fun w => (w, Returned (match stat p (w_fs w) with Some _ => true | None => false end)).

(** [os.path.isdir(p)] *)
Definition path_isdir (p : string) : M bool :=
  fun w => (w, Returned (match stat p (w_fs w) with Some (FS.Dir _) => true | _ => false end)).

Definition at_path (op : string -> list string -> FS.node -> outcome FS.node)
    (p : string) : M unit :=
  match resolve p with
  | Some cs => on_fs (op p cs)
  | None => raise (FileNotFoundError p)
  end.

(** [os.mkdir(p)].  The kernel makes no directory under the name ["."]:
    once the directory before it is found, the name is taken. *)
Definition mkdir (p : string) : M unit :=
  at_path (fun p cs =>
             if final_dot p
             then FS.alter_dir p cs (fun _ => Raised (FileExistsError p))
             else FS.mkdir p cs) p.

(** [os.makedirs(name, exist_ok=True)], as the standard library writes it:
    the missing head of the path is made first, by a call on the head; then
    the directory itself, and an [OSError] of [mkdir] is let through unless
    the path is a directory by then.  Each call is on a shorter string, so
    [depth] calls are enough for a name shorter than [depth]; the limit of
    the interpreter on the depth of calls is not modelled. *)
Fixpoint makedirs_from (depth : nat) (name : string) : M unit :=
  match depth with
  | O => raise (OSError "maximum recursion depth exceeded")
  | S depth' =>
      let '(head, tail) := PosixPath.split name in
      let '(head, tail) :=
        if String.eqb tail "" then PosixPath.split head else (head, tail) in
      done <-
        (if negb (String.eqb head "") && negb (String.eqb tail "") then
           found <- path_exists head ;;
           if negb found then
             (fun w => match makedirs_from depth' head w with
                       | (w', Raised (FileExistsError _)) => (w', Returned tt)
                       | r => r
                       end) ;;;
             ret (String.eqb tail ".")
           else ret false
         else ret false) ;;
      if (done : bool) then ret tt
      else
        fun w => match mkdir name w with
                 | (w', Raised e) =>
                     match path_isdir name w' with
                     | (w'', Returned true) => (w'', Returned tt)
                     | (w'', _) => (w'', Raised e)
                     end
                 | r => r
                 end
  end.

Definition makedirs (name : string) : M unit :=
  makedirs_from (S (String.length name)) name.

(** [os.remove(p)] *)
Definition remove (p : string) : M unit := at_path FS.remove p.

(** [os.rmdir(p)] *)
Definition rmdir (p : string) : M unit := at_path FS.rmdir p.

(** writing a whole file at [p] *)
Definition write_file (p : string) (c : FS.content) : M unit :=
  at_path (fun p cs => FS.write_file p cs c) p.

(** [list(os.walk(top, topdown=...))].  A top that cannot be listed yields
    nothing ([onerror] is unset).  The triples are taken at once: the loops
    of the script change, below [top], only what an earlier triple named. *)
Definition walk (order : list string -> list string) (top : string) (topdown : bool)
  : M (list (string * list string * list string)) :=
  fun w =>
    (w, Returned (match lookup top (w_fs w) with
                  | Some n => FS.walk order topdown top n
                  | None => []
                  end)).

End Os.

Module Zip.

(** An open [zipfile.ZipFile(path, "w")] is known by its path: what has been
    written to it so far is what the file holds. *)
Definition handle := string.

(** [zipfile.ZipFile(path, "w", ...)]: the file is created, or truncated. *)
Definition open (path : string) : M handle :=
  Os.write_file path (FS.Archive []) ;;;
  ret path.

(** One more entry at the end of the archive.  Were the file no longer there
    (unlinked, or replaced by something else), the bytes would go to the open
    descriptor and never be seen again. *)
Definition append_entry (zf : handle) (e : string * FS.content) : M unit :=
  fun w =>
    match Os.lookup zf (w_fs w) with
    | Some (FS.File (FS.Archive es)) =>
        Os.write_file zf (FS.Archive (es ++ [e])%list) w
    | _ => (w, Returned tt)
    end.

(** [zf.write(filename, arcname)].  Both call sites pass a normalised
    relative name, which [zipfile] keeps as it is.  A directory is stored as
    an entry of its own. *)
Definition write (zf : handle) (filename arcname : string) : M unit :=
  fun w =>
    match Os.lookup filename (w_fs w) with
    | Some (FS.File c) => append_entry zf (arcname, c) w
    | Some (FS.Dir _) => append_entry zf (arcname ++ "/", FS.Blob "") w
    | None => (w, Raised (FileNotFoundError filename))
    end.

End Zip.

(* ------------------------------------------------------------------ *)
(** * The script *)

Section Script.

Variable host : Host.

(** [if project:] -- [None] and the empty string are false *)
Definition truthy_str (s : option string) : bool :=
  match s with
  | Some x => negb (String.eqb x "")
  | None => false
  end.

(** [ee.Initialize(project=project)] if [project] is true, else
    [ee.Initialize()] *)
Definition initialize (after_auth : bool) (project : option string) : M unit :=
  let p := if truthy_str project then project else None in
  emit (EvInitialize p) ;;;
  match ee_initialize host after_auth p with
  | None => ret tt
  | Some e => raise e
  end.

Definition authenticate : M unit :=
  emit EvAuthenticate ;;;
  match ee_authenticate host with
  | None => ret tt
  | Some e => raise e
  end.

Definition init_ee (project : option string) : M unit :=
  fun w =>
    match initialize false project w with
    | (w', Returned _) => (w', Returned tt)
    | (w', Raised e) =>
        if is_Exception e
        then (print MsgEeNotInitialized ;;;
              authenticate ;;;
              initialize true project) w'
        else (w', Raised e)
    end.

Definition ensure_dir (p : string) : M unit :=
  found <- Os.path_exists p ;;
  if negb found then Os.makedirs p else ret tt.

Definition get_subbasins_fc (lon lat buffer_km : float) : ee_collection :=
  let pt := Point lon lat in
  let roi := Buffer pt (buffer_km * 1000)%float in
  let fc := FilterBounds (FeatureCollection DATASET_ID) roi in
  fc.

(** the loop over [feats]: the geometry of each feature, then its
    properties (none when the key is missing) *)
Fixpoint shapes_of (feats : list ee_feature) : outcome (list (properties * geometry)) :=
  match feats with
  | [] => Returned []
  | f :: rest =>
      match f_geometry f with
      | None => Raised (KeyError "geometry")
      | Some g =>
          match shp_shape host g with
          | Raised e => Raised e
          | Returned geom =>
              let props := match f_properties f with Some p => p | None => [] end in
              match shapes_of rest with
              | Raised e => Raised e
              | Returned rows => Returned ((props, geom) :: rows)
              end
          end
      end
  end.

Definition fc_to_geodataframe (fc : ee_collection) : M geodataframe :=
  emit (EvGetInfo fc) ;;;
  info <- of_outcome (ee_getInfo host fc) ;;
  let feats := match info_features info with Some l => l | None => [] end in
  match feats with
  | [] => ret (GeoDataFrame [] "EPSG:4326")
  | _ :: _ =>
      rows <- of_outcome (shapes_of feats) ;;
      ret (GeoDataFrame rows "EPSG:4326")
  end.

(** one file of the driver: a refusal of the system is reported as the
    driver reports it *)
Definition driver_write (p : string) (c : FS.content) : M unit :=
  fun w =>
    match Os.write_file p c w with
    | (w', Raised e) => (w', Raised (driver_error host e))
    | r => r
    end.

(** [gdf.to_file(shp_path, driver="ESRI Shapefile")]: one file per part, next
    to each other, named by the stem of [shp_path], written one after the
    other; a driver that fails leaves the files it had written.  The layer is
    taken to be new: what the driver does with the files of an older layer
    of the same name is not modelled. *)
Definition to_file (gdf : geodataframe) (shp_path : string) : M unit :=
  let stem := substring 0 (String.length shp_path - 4) shp_path in
  for_each (fst (shapefile_parts host gdf))
    (fun part => driver_write (stem ++ fst part) (FS.Blob (snd part))) ;;;
  match snd (shapefile_parts host gdf) with
  | None => ret tt
  | Some e => raise e
  end.

Definition write_shapefile_zip (gdf : geodataframe) (out_zip_path layer_name : string)
  : M unit :=
  let tmp_dir := PyStr.replace ".zip" "" out_zip_path in
  ensure_dir tmp_dir ;;;
  let shp_path := PosixPath.join tmp_dir (layer_name ++ ".shp") in
  to_file gdf shp_path ;;;
  (* Zip the folder *)
  (zf <- Zip.open out_zip_path ;;
   triples <- Os.walk (listing host) tmp_dir true ;;
   for_each triples (fun '(root, _, files) =>
     for_each files (fun fn =>
       let full := PosixPath.join root fn in
       let arcname := PosixPath.relpath full tmp_dir in
       Zip.write zf full arcname))) ;;;
  (* Cleanup *)
  (triples <- Os.walk (listing host) tmp_dir false ;;
   for_each triples (fun '(root, dirs, files) =>
     for_each files (fun fn => Os.remove (PosixPath.join root fn)) ;;;
     for_each dirs (fun d => Os.rmdir (PosixPath.join root d)))) ;;;
  Os.rmdir tmp_dir.

Definition queue_ee_drive_export (fc : ee_collection) (description : string)
    (folder : option string) : M unit :=
  let task := {| task_collection := fc;
                 task_description := description;
                 task_fileFormat := "SHP";
                 task_folder := folder |} in
  emit (EvExportStart task) ;;;
  task_id <- of_outcome (ee_start host task) ;;
  print (MsgStarted description task_id).

(** [row[key]] on the dictionary of a row *)
Fixpoint row_get (row : list (string * cell)) (key : string) : outcome cell :=
  match row with
  | [] => Raised (KeyError key)
  | (k, v) :: rest => if String.eqb k key then Returned v else row_get rest key
  end.

(** The body of [process_gauge_row].  [combined_paths] is the list the
    caller shares; the list as the call leaves it is returned. *)
Definition process_gauge_row (row : list (string * cell)) (args : args_t)
    (combined_paths : list string) : M (list string) :=
  lat_cell <- of_outcome (row_get row (lat_col args)) ;;
  lat <- of_outcome (py_float host lat_cell) ;;
  lon_cell <- of_outcome (row_get row (lon_col args)) ;;
  lon <- of_outcome (py_float host lon_cell) ;;
  gid_cell <- of_outcome (row_get row (id_col args)) ;;
  let gid := py_str host gid_cell in
  print (MsgProcessing gid lat lon) ;;;
  let fc := get_subbasins_fc lon lat (buffer_km args) in
  match export_mode args with
  | client =>
      gdf <- fc_to_geodataframe fc ;;
      if gdf_empty gdf then
        print (MsgNoSubbasins gid) ;;;
        ret combined_paths
      else
        let out_zip := PosixPath.join (out_dir args) ("gauge_" ++ gid ++ "_subbasins.zip") in
        write_shapefile_zip gdf out_zip ("gauge_" ++ gid ++ "_subbasins") ;;;
        print (MsgWrote out_zip) ;;;
        ret (combined_paths ++ [out_zip])%list
  | ee_drive =>
      (* Earth Engine Drive export *)
      let desc := "gauge_" ++ gid ++ "_subbasins" in
      queue_ee_drive_export fc desc (drive_folder args) ;;;
      ret combined_paths
  end.

Definition build_combined_zip (zip_paths : list string) (out_dir : string) : M unit :=
  match zip_paths with
  | [] => print MsgNoZips
  | _ :: _ =>
      let combined := PosixPath.join out_dir "all_gauge_subbasins.zip" in
      (zf <- Zip.open combined ;;
       for_each zip_paths (fun p => Zip.write zf p (PosixPath.basename p))) ;;;
      print (MsgCombined combined)
  end.

(** [row._asdict()], or [dict(zip(df.columns, row))] for a plain tuple.
    Later duplicates of a key win in a [dict]; [row_get] reads the first
    match, so the pairs are listed last first. *)
Definition row_dict (columns : list string) (row : list cell) : list (string * cell) :=
  match itertuples_fields host columns with
  | Some fields => rev (combine fields row)
  | None => rev (combine columns row)
  end.

(** [if args.limit and count >= args.limit] *)
Definition limit_reached (l : option Z) (count : Z) : bool :=
  match l with
  | None => false
  | Some n => negb (Z.eqb n 0) && (n <=? count)%Z
  end.

(** The loop of [main] over the rows still to come; it ends with the list
    of archive paths and the value of [count]. *)
Fixpoint main_loop (args : args_t) (columns : list string) (rows : list (list cell))
    (combined_paths : list string) (count : Z) : M (list string * Z) :=
  match rows with
  | [] => ret (combined_paths, count)
  | row :: rest =>
      combined_paths <- process_gauge_row (row_dict columns row) args combined_paths ;;
      let count := (count + 1)%Z in
      if limit_reached (limit args) count then
        print (MsgReachedLimit (match limit args with Some n => n | None => 0%Z end)) ;;;
        ret (combined_paths, count)
      else
        (if (0 <? sleep_sec args)%float then emit (EvSleep (sleep_sec args)) else ret tt) ;;;
        main_loop args columns rest combined_paths count
  end.

(** the three checks [if col not in df.columns: raise KeyError(...)] *)
Fixpoint check_columns (cols : list string) (columns : list string) : M unit :=
  match cols with
  | [] => ret tt
  | col :: rest =>
      if existsb (String.eqb col) columns then check_columns rest columns
      else raise (KeyError ("Column '" ++ col ++ "' not found in CSV."))
  end.

(** [pd.read_csv(args.gauges_csv)] *)
Definition load_csv (path : string) : M dataframe :=
  emit (EvReadCsv path) ;;;
  fun w => (w, read_csv host (w_fs w) path).

(** everything [main] does before the loop: directory, Earth Engine, table *)
Definition main_load (args : args_t) : M dataframe :=
  ensure_dir (out_dir args) ;;;
  init_ee (ee_project args) ;;;
  (* Load gauges *)
  load_csv (gauges_csv args).

Definition main (args : args_t) : M unit :=
  df <- main_load args ;;
  check_columns [lat_col args; lon_col args; id_col args] (df_columns df) ;;;
  (* Iterate *)
  r <- main_loop args (df_columns df) (df_rows df) [] 0%Z ;;
  (* Build combined zip (client mode only) *)
  match export_mode args with
  | client => build_combined_zip (fst r) (out_dir args)
  | ee_drive => print MsgAllStarted
  end.

End Script.

(* ------------------------------------------------------------------ *)
(** * What a run shows *)

(** the gauges announced by "Processing gauge ..." lines, in order *)
Fixpoint announced (t : list event) : list (string * float * float) :=
  match t with
  | [] => []
  | EvPrint (MsgProcessing gid lat lon) :: t' => (gid, lat, lon) :: announced t'
  | _ :: t' => announced t'
  end.

(** the collections sent to Earth Engine, for download or for export *)
Fixpoint requested (t : list event) : list ee_collection :=
  match t with
  | [] => []
  | EvGetInfo fc :: t' => fc :: requested t'
  | EvExportStart task :: t' => task_collection task :: requested t'
  | _ :: t' => requested t'
  end.

(** the distance of the buffer a request filters by *)
Definition buffer_distance (fc : ee_collection) : option float :=
  match fc with
  | FilterBounds _ (Buffer _ d) => Some d
  | _ => None
  end.

(** an event that reaches Earth Engine data or announces a gauge *)
Definition touches_gauges (e : event) : bool :=
  match e with
  | EvGetInfo _ | EvExportStart _ | EvPrint (MsgProcessing _ _ _) => true
  | _ => false
  end.

(** [(gid, lat, lon)] as [process_gauge_row] reads them, when all three
    conversions return *)
Definition gauge_of (host : Host) (args : args_t) (row : list (string * cell))
  : option (string * float * float) :=
  match row_get row (lat_col args) with
  | Returned lat_cell =>
      match py_float host lat_cell with
      | Returned lat =>
          match row_get row (lon_col args) with
          | Returned lon_cell =>
              match py_float host lon_cell with
              | Returned lon =>
                  match row_get row (id_col args) with
                  | Returned gid_cell => Some (py_str host gid_cell, lat, lon)
                  | Raised _ => None
                  end
              | Raised _ => None
              end
          | Raised _ => None
          end
      | Raised _ => None
      end
  | Raised _ => None
  end.

(** the per-gauge archive path of a gauge id *)
Definition out_zip_of (args : args_t) (gid : string) : string :=
  PosixPath.join (out_dir args) ("gauge_" ++ gid ++ "_subbasins.zip").

(** the features Earth Engine answers for a gauge; nothing when it raises *)
Definition features_of (host : Host) (args : args_t) (g : string * float * float)
  : list ee_feature :=
  let '(_, lat, lon) := g in
  match ee_getInfo host (get_subbasins_fc lon lat (buffer_km args)) with
  | Returned info => match info_features info with Some l => l | None => [] end
  | Raised _ => []
  end.

Definition has_features (host : Host) (args : args_t) (g : string * float * float) : bool :=
  match features_of host args g with [] => false | _ :: _ => true end.

(** the rows the loop of [main] reaches when no call raises *)
Fixpoint rows_reached {A} (l : option Z) (count : Z) (rows : list A) : list A :=
  match rows with
  | [] => []
  | row :: rest =>
      row :: (if limit_reached l (count + 1) then [] else rows_reached l (count + 1)%Z rest)
  end.

(** keep the values that are there *)
Fixpoint somes {A} (l : list (option A)) : list A :=
  match l with
  | [] => []
  | Some a :: l' => a :: somes l'
  | None :: l' => somes l'
  end.

(** the world after some more events *)
Definition log (w : world) (evs : list event) : world :=
  {| w_fs := w_fs w; w_trace := (w_trace w ++ evs)%list |}.

(** [process_gauge_row] from its first [print] on, with the three values
    read from the row *)
Definition process_known (host : Host) (args : args_t) (combined_paths : list string)
    (gid : string) (lat lon : float) : M (list string) :=
  print (MsgProcessing gid lat lon) ;;;
  let fc := get_subbasins_fc lon lat (buffer_km args) in
  match export_mode args with
  | client =>
      gdf <- fc_to_geodataframe host fc ;;
      if gdf_empty gdf then
        print (MsgNoSubbasins gid) ;;;
        ret combined_paths
      else
        let out_zip := PosixPath.join (out_dir args) ("gauge_" ++ gid ++ "_subbasins.zip") in
        write_shapefile_zip host gdf out_zip ("gauge_" ++ gid ++ "_subbasins") ;;;
        print (MsgWrote out_zip) ;;;
        ret (combined_paths ++ [out_zip])%list
  | ee_drive =>
      let desc := "gauge_" ++ gid ++ "_subbasins" in
      queue_ee_drive_export host fc desc (drive_folder args) ;;;
      ret combined_paths
  end.

(** the gauges of the rows the loop reaches *)
Definition gauges_reached (host : Host) (args : args_t) (columns : list string)
    (count : Z) (rows : list (list cell)) : list (string * float * float) :=
  somes (map (fun row => gauge_of host args (row_dict host columns row))
             (rows_reached (limit args) count rows)).

(* ------------------------------------------------------------------ *)
(** * A small world to run the script in *)

Module Demo.

Definition feat (g : string) : ee_feature :=
  {| f_geometry := Some g; f_properties := Some [("HYBAS_ID", g)] |}.

Definition table : dataframe :=
  {| df_columns := ["STATION_NUMBER"; "LATITUDE"; "LONGITUDE"];
     df_rows := [ [CStr "02HA003"; CFloat 43.5; CFloat (-79.5)];
                  [CStr "02HB001"; CFloat 10; CFloat 10];
                  [CStr "02HC002"; CFloat 44; CFloat (-80)] ] |}.

(** Gauges west of Greenwich intersect three polygons, the others none. *)
Definition host : Host := {|
  py_float := fun c =>
    match c with
    | CFloat f => Returned f
    | _ => Raised (ValueError "could not convert string to float")
    end;
  py_str := fun c => match c with CStr s => s | _ => "nan" end;
  itertuples_fields := fun cols => Some cols;
  read_csv := fun _ p =>
    if String.eqb p "gauges.csv" then Returned table
    else Raised (FileNotFoundError p);
  ee_initialize := fun _ _ => None;
  ee_authenticate := None;
  ee_getInfo := fun fc =>
    match fc with
    | FilterBounds _ (Buffer (Point lon _) _) =>
        if (lon <? 0)%float
        then Returned {| info_features := Some [feat "a"; feat "b"; feat "c"] |}
        else Returned {| info_features := Some [] |}
    | _ => Raised (HostException "EEException")
    end;
  ee_start := fun t => Returned "TASK";
  shp_shape := fun g => Returned g;
  shapefile_parts := fun _ =>
    ([(".shp", "shp"); (".shx", "shx"); (".dbf", "dbf")], None);
  driver_error := fun e => HostException "DataSourceError";
  scandir := fun names => exist _ names (Permutation_refl names)
|}.

Definition args : args_t := {|
  gauges_csv := "gauges.csv";
  lat_col := "LATITUDE";
  lon_col := "LONGITUDE";
  id_col := "STATION_NUMBER";
  buffer_km := 25;
  export_mode := client;
  out_dir := "outputs";
  drive_folder := None;
  ee_project := None;
  limit := None;
  sleep_sec := 0
|}.

Definition with_limit (n : Z) (a : args_t) : args_t := {|
  gauges_csv := gauges_csv a; lat_col := lat_col a; lon_col := lon_col a;
  id_col := id_col a; buffer_km := buffer_km a; export_mode := export_mode a;
  out_dir := out_dir a; drive_folder := drive_folder a; ee_project := ee_project a;
  limit := Some n; sleep_sec := sleep_sec a
|}.

Definition with_sleep_sec (s : float) (a : args_t) : args_t := {|
  gauges_csv := gauges_csv a; lat_col := lat_col a; lon_col := lon_col a;
  id_col := id_col a; buffer_km := buffer_km a; export_mode := export_mode a;
  out_dir := out_dir a; drive_folder := drive_folder a; ee_project := ee_project a;
  limit := limit a; sleep_sec := s
|}.

Definition with_mode (m : export_mode_t) (a : args_t) : args_t := {|
  gauges_csv := gauges_csv a; lat_col := lat_col a; lon_col := lon_col a;
  id_col := id_col a; buffer_km := buffer_km a; export_mode := m;
  out_dir := out_dir a; drive_folder := drive_folder a; ee_project := ee_project a;
  limit := limit a; sleep_sec := sleep_sec a
|}.

Definition with_lat_col (c : string) (a : args_t) : args_t := {|
  gauges_csv := gauges_csv a; lat_col := c; lon_col := lon_col a;
  id_col := id_col a; buffer_km := buffer_km a; export_mode := export_mode a;
  out_dir := out_dir a; drive_folder := drive_folder a; ee_project := ee_project a;
  limit := limit a; sleep_sec := sleep_sec a
|}.



(** a host that answers [ee.Initialize] as [f] says *)
Definition with_initialize (f : bool -> option string -> option exn) (h : Host) : Host := {|
  py_float := py_float h;
  py_str := py_str h;
  itertuples_fields := itertuples_fields h;
  read_csv := read_csv h;
  ee_initialize := f;
  ee_authenticate := ee_authenticate h;
  ee_getInfo := ee_getInfo h;
  ee_start := ee_start h;
  shp_shape := shp_shape h;
  shapefile_parts := shapefile_parts h;
  driver_error := driver_error h;
  scandir := scandir h
|}.

(** a host whose Earth Engine answers [getInfo] as [f] says *)
Definition with_getInfo (f : ee_collection -> outcome ee_info) (h : Host) : Host := {|
  py_float := py_float h;
  py_str := py_str h;
  itertuples_fields := itertuples_fields h;
  read_csv := read_csv h;
  ee_initialize := ee_initialize h;
  ee_authenticate := ee_authenticate h;
  ee_getInfo := f;
  ee_start := ee_start h;
  shp_shape := shp_shape h;
  shapefile_parts := shapefile_parts h;
  driver_error := driver_error h;
  scandir := scandir h
|}.

(** Earth Engine answers three features, the second without a geometry *)
Definition host_no_geometry : Host :=
  with_getInfo (fun _ => Returned {| info_features :=
                            Some [feat "a";
                                  {| f_geometry := None; f_properties := None |};
                                  feat "c"] |})
               host.

(** Earth Engine answers three features whose properties differ: the
    second has none, the third one more than the first *)
Definition host_mixed : Host :=
  with_getInfo (fun _ => Returned {| info_features :=
                            Some [feat "a";
                                  {| f_geometry := Some "b"; f_properties := None |};
                                  {| f_geometry := Some "c";
                                     f_properties := Some [("UP_AREA", "7");
                                                           ("HYBAS_ID", "c")] |}] |})
               host.

(** Earth Engine answers without a ["features"] key, for every gauge *)
Definition host_barren : Host :=
  with_getInfo (fun _ => Returned {| info_features := None |}) host.

(** the disk is full once the driver has written its first file *)
Definition host_disk_full : Host := {|
  py_float := py_float host;
  py_str := py_str host;
  itertuples_fields := itertuples_fields host;
  read_csv := read_csv host;
  ee_initialize := ee_initialize host;
  ee_authenticate := ee_authenticate host;
  ee_getInfo := ee_getInfo host;
  ee_start := ee_start host;
  shp_shape := shp_shape host;
  shapefile_parts := fun _ => ([(".shp", "shp")], Some (OSError "No space left on device"));
  driver_error := driver_error host;
  scandir := scandir host
|}.


(** no credentials yet: [ee.Initialize] fails until [ee.Authenticate] ran *)
Definition host_signed_out : Host :=
  with_initialize (fun after_auth _ =>
                     if after_auth then None
                     else Some (HostException "EEException: Please authorize access."))
                  host.

(** the user presses Ctrl-C while [ee.Initialize] runs *)
Definition host_interrupted : Host :=
  with_initialize (fun _ _ => Some (HostBaseException "KeyboardInterrupt")) host.

(** two different records that carry the same station number *)
Definition rows_same_id : list (list cell) :=
  [ [CStr "02HA003"; CFloat 43.5; CFloat (-79.5)];
    [CStr "02HA003"; CFloat 44; CFloat (-80)] ].

(** a working directory that holds the table and nothing else *)
Definition world0 : world :=
  {| w_fs := FS.Dir [("gauges.csv", FS.File (FS.Blob "csv"))]; w_trace := [] |}.

(** the same directory once [main] has made the output directory *)
Definition world1 : world :=
  {| w_fs := FS.Dir [("gauges.csv", FS.File (FS.Blob "csv")); ("outputs", FS.Dir [])];
     w_trace := [] |}.

(** an output directory that holds two archives and an outdated combined one *)
Definition world2 : world :=
  {| w_fs := FS.Dir [("outputs",
                      FS.Dir [("a.zip", FS.File (FS.Archive [("a.shp", FS.Blob "a")]));
                              ("b.zip", FS.File (FS.Archive []));
                              ("all_gauge_subbasins.zip",
                               FS.File (FS.Archive [("old.zip", FS.Blob "old")]))])];
     w_trace := [] |}.

(** an output directory that holds the archive of gauge [a] only *)
Definition world3 : world :=
  {| w_fs := FS.Dir [("outputs",
                      FS.Dir [("gauge_a_subbasins.zip", FS.File (FS.Archive []))])];
     w_trace := [] |}.


(** a frame of one polygon *)
Definition frame : geodataframe :=
  GeoDataFrame [([("HYBAS_ID", "a")], "a")] "EPSG:4326".

Definition row1 : list (string * cell) :=
  row_dict host (df_columns table) [CStr "02HA003"; CFloat 43.5; CFloat (-79.5)].

Definition row2 : list (string * cell) :=
  row_dict host (df_columns table) [CStr "02HB001"; CFloat 10; CFloat 10].

End Demo.

(* ------------------------------------------------------------------ *)
(** * Notions the statements use *)

Local Open Scope list_scope.

Definition keeps_trace {A} (m : M A) : Prop :=
  forall w, w_trace (fst (m w)) = w_trace w.

Definition keeps_fs {A} (m : M A) : Prop :=
  forall w, w_fs (fst (m w)) = w_fs w.

(** what [fc_to_geodataframe] answers once [getInfo] has returned [feats] *)
Definition frame_of (host : Host) (feats : list ee_feature) : outcome geodataframe :=
  match feats with
  | [] => Returned (GeoDataFrame [] "EPSG:4326")
  | _ :: _ =>
      match shapes_of host feats with
      | Returned rows => Returned (GeoDataFrame rows "EPSG:4326")
      | Raised e => Raised e
      end
  end.

Definition layer_of (gid : string) : string := ("gauge_" ++ gid ++ "_subbasins")%string.

Definition task_of (args : args_t) (gid : string) (lat lon : float) : export_task :=
  {| task_collection := get_subbasins_fc lon lat (buffer_km args);
     task_description := layer_of gid;
     task_fileFormat := "SHP";
     task_folder := drive_folder args |}.

(** the world in which the loop goes on after a record *)
Definition after_sleep (args : args_t) (w : world) : world :=
  if (0 <? sleep_sec args)%float then log w [EvSleep (sleep_sec args)] else w.

Definition limit_value (args : args_t) : Z :=
  match limit args with Some n => n | None => 0%Z end.

(** the archive paths of the gauges that had features *)
Definition archived (host : Host) (args : args_t) (gs : list (string * float * float))
  : list string :=
  map (fun g => out_zip_of args (fst (fst g))) (filter (has_features host args) gs).

(** the gauges of some rows, as [process_gauge_row] reads them *)
Definition gauges_of_rows (host : Host) (args : args_t) (columns : list string)
    (rows : list (list cell)) : list (option (string * float * float)) :=
  map (fun row => gauge_of host args (row_dict host columns row)) rows.

Definition emits (P : event -> Prop) {A} (m : M A) : Prop :=
  forall w, exists new, w_trace (fst (m w)) = w_trace w ++ new /\ Forall P new.

(** an event that downloads features to the client *)
Definition is_download (e : event) : bool :=
  match e with EvGetInfo _ => true | _ => false end.

(** [ch in s] *)
Fixpoint has_char (ch : ascii) (s : string) : bool :=
  match s with
  | EmptyString => false
  | String a s' => Ascii.eqb a ch || has_char ch s'
  end.

(** [s] ends with [suffix] *)
Fixpoint has_suffix (suffix s : string) : bool :=
  String.eqb s suffix
  || match s with
     | EmptyString => false
     | String _ s' => has_suffix suffix s'
     end.

(** [s.replace(".zip", "")] *)
Definition unzip (s : string) : string := PyStr.replace ".zip" "" s.

(** a string no match of [".zip"] can run into: it is empty, or starts with
    a character other than [z], [i] and [p] *)
Definition soft_start (s : string) : bool :=
  match s with
  | EmptyString => true
  | String c _ => negb (Ascii.eqb c "z" || Ascii.eqb c "i" || Ascii.eqb c "p")
  end.

(** the components [Os.resolve] keeps *)
Definition kept (c : string) : bool := negb (String.eqb c "" || String.eqb c ".").

(** a name a directory can list *)
Definition valid_name (c : string) : bool :=
  kept c && negb (String.eqb c "..") && negb (has_char "/" c).

(** [a] is an initial segment of [b] *)
Definition is_prefix (a b : list string) : Prop := exists r, b = a ++ r.

(** a component that ends like the temporary directory of a gauge *)
Definition good (c : string) : bool := has_suffix "_subbasins" c.

Definition count_good (l : list string) : nat := List.length (filter good l).

(** the file name of the archive of a gauge *)
Definition zip_name (gid : string) : string := ("gauge_" ++ gid ++ "_subbasins.zip")%string.

(** no string occurs twice *)
Fixpoint distinct (l : list string) : bool :=
  match l with
  | [] => true
  | x :: l' => negb (existsb (String.eqb x) l') && distinct l'
  end.

(** every directory of the tree lists valid file names, each once *)
Fixpoint wf_node (n : FS.node) : bool :=
  match n with
  | FS.File _ => true
  | FS.Dir kids =>
      distinct (map fst kids)
      && forallb (fun e => valid_name (fst e) && wf_node (snd e)) kids
  end.

(** what a triple of the walk of [top] is: a root below [top], and valid names *)
Definition below_top (tcs : list string) (t : string * list string * list string) : Prop :=
  let '(root, dirs, files) := t in
  exists rel, Os.resolve root = Some (tcs ++ rel)
              /\ forallb valid_name dirs = true /\ forallb valid_name files = true.

Definition file_at (q : list string) (c : FS.content) (w : world) : Prop :=
  FS.get q (w_fs w) = Some (FS.File c).

Definition cleanup_body (t : string * list string * list string) : M unit :=
  let '(root, dirs, files) := t in
  for_each files (fun fn => Os.remove (PosixPath.join root fn)) ;;;
  for_each dirs (fun d => Os.rmdir (PosixPath.join root d)).

Definition keeps_wf {A} (m : M A) : Prop :=
  forall w w' a, wf_node (w_fs w) = true -> m w = (w', Returned a) -> wf_node (w_fs w') = true.

Definition archive_at (p : string) (w : world) : Prop :=
  exists es, Os.lookup p (w_fs w) = Some (FS.File (FS.Archive es)).

(** the body of the loop that zips the temporary directory *)
Definition zip_body (zf tmp_dir : string) (t : string * list string * list string) : M unit :=
  let '(root, _, files) := t in
  for_each files (fun fn =>
    let full := PosixPath.join root fn in
    let arcname := PosixPath.relpath full tmp_dir in
    Zip.write zf full arcname).

(** the path names a regular file *)
Definition is_file (p : string) (w : world) : Prop :=
  exists cs c, Os.resolve p = Some cs /\ FS.get cs (w_fs w) = Some (FS.File c).

(** a computation that returns leaves a regular file where one was *)
Definition keeps_files {A} (m : M A) : Prop :=
  forall w w' a q c, m w = (w', Returned a) -> FS.get q (w_fs w) = Some (FS.File c) ->
                     exists c', FS.get q (w_fs w') = Some (FS.File c').

(** every collected path is the archive path of a plain id and names a file *)
Definition collected (args : args_t) (cp : list string) (w : world) : Prop :=
  wf_node (w_fs w) = true
  /\ Forall (fun p => exists gid, p = out_zip_of args gid /\ has_char "/" gid = false
                                  /\ is_file p w) cp.

(** the ids of the rows that can be read hold no slash *)
Definition plain_ids (host : Host) (args : args_t) (columns : list string)
    (rows : list (list cell)) : bool :=
  forallb (fun row =>
             match gauge_of host args (row_dict host columns row) with
             | Some (gid, _, _) => negb (has_char "/" gid)
             | None => true
             end) rows.

Definition combined_path (out_dir : string) : string :=
  PosixPath.join out_dir "all_gauge_subbasins.zip".

(** the gauges the run reached whose query answered at least one feature *)
Definition gauges_with_features (host : Host) (args : args_t) (df : dataframe)
  : list (string * float * float) :=
  filter (has_features host args) (gauges_reached host args (df_columns df) 0 (df_rows df)).

Definition plain_ext (part : string * string) : bool := negb (has_char "/" (fst part)).

(** the project [init_ee] passes on: [ee.Initialize()] has none *)
Definition project_arg (project : option string) : option string :=
  if truthy_str project then project else None.

(** the properties of a feature: [f.get("properties", {})] *)
Definition props_of (f : ee_feature) : properties :=
  match f_properties f with Some p => p | None => [] end.

(** the pair of lists entry a feature becomes in the loop *)
Definition shape_of (host : Host) (f : ee_feature) (row : properties * geometry) : Prop :=
  exists g, f_geometry f = Some g
            /\ shp_shape host g = Returned (snd row)
            /\ fst row = props_of f.

(** the row of a frame with these columns a feature becomes: its shape, and
    in each column its property of that name, if it has one *)
Definition row_of (host : Host) (columns : list string) (f : ee_feature)
    (row : list (option string) * geometry) : Prop :=
  exists g, f_geometry f = Some g
            /\ shp_shape host g = Returned (snd row)
            /\ fst row = map (fun c => dict_get c (props_of f)) columns.

(** a feature [shapes_of] gets past *)
Definition converts (host : Host) (f : ee_feature) : Prop :=
  exists g geom, f_geometry f = Some g /\ shp_shape host g = Returned geom.

(** the features of an answer of [getInfo] *)
Definition features (info : ee_info) : list ee_feature :=
  match info_features info with Some l => l | None => [] end.

(** the names the dictionary of a row is keyed by *)
Definition fields_of (host : Host) (columns : list string) : list string :=
  match itertuples_fields host columns with
  | Some fields => fields
  | None => columns
  end.

(** what a call of [process_gauge_row] that returns prints and asks for a
    gauge *)
Definition row_events (host : Host) (args : args_t) (g : string * float * float)
  : list event :=
  let '(gid, lat, lon) := g in
  let fc := get_subbasins_fc lon lat (buffer_km args) in
  EvPrint (MsgProcessing gid lat lon)
  :: match export_mode args with
     | client =>
         [EvGetInfo fc;
          EvPrint (if has_features host args g then MsgWrote (out_zip_of args gid)
                   else MsgNoSubbasins gid)]
     | ee_drive =>
         EvExportStart (task_of args gid lat lon)
         :: match ee_start host (task_of args gid lat lon) with
            | Returned task_id => [EvPrint (MsgStarted (layer_of gid) task_id)]
            | Raised _ => []
            end
     end.

(** what follows a record in the loop: the notice of the limit, or the pause *)
Definition step_events (args : args_t) (count : Z) : list event :=
  if limit_reached (limit args) count then [EvPrint (MsgReachedLimit (limit_value args))]
  else if (0 <? sleep_sec args)%float then [EvSleep (sleep_sec args)] else [].

(** what the loop prints and asks for the gauges it reaches, [count] records
    having been processed before *)
Fixpoint loop_events (host : Host) (args : args_t) (count : Z)
    (gs : list (string * float * float)) : list event :=
  match gs with
  | [] => []
  | g :: rest =>
      row_events host args g ++ step_events args (count + 1)
      ++ loop_events host args (count + 1) rest
  end.

(** the events of one kind, in order *)
Definition pick {X} (f : event -> option X) (t : list event) : list X :=
  flat_map (fun e => match f e with Some x => [x] | None => [] end) t.

(** the export tasks started *)
Definition started : list event -> list export_task :=
  pick (fun e => match e with EvExportStart task => Some task | _ => None end).

(** the pauses made, in seconds *)
Definition slept : list event -> list float :=
  pick (fun e => match e with EvSleep s => Some s | _ => None end).

(** the limits announced by "Reached limit=..." lines *)
Definition notices : list event -> list Z :=
  pick (fun e => match e with EvPrint (MsgReachedLimit n) => Some n | _ => None end).

(** the collection asked for a gauge: the level-12 basins that meet the
    buffer around the point, longitude first *)
Definition collection_of (args : args_t) (g : string * float * float) : ee_collection :=
  let '(_, lat, lon) := g in
  FilterBounds (FeatureCollection "WWF/HydroATLAS/v1/Basins/level12")
               (Buffer (Point lon lat) (buffer_km args * 1000)).

(** the export task of a gauge *)
Definition export_of (args : args_t) (g : string * float * float) : export_task :=
  let '(gid, _, _) := g in
  {| task_collection := collection_of args g;
     task_description := "gauge_" ++ gid ++ "_subbasins";
     task_fileFormat := "SHP";
     task_folder := drive_folder args |}.

(** the pauses of a run that makes [k] of them *)
Definition pauses (args : args_t) (k : nat) : list float :=
  if (0 <? sleep_sec args)%float then repeat (sleep_sec args) k else [].

(** the line a run that returns ends with *)
Definition summary (host : Host) (args : args_t) (df : dataframe) : message :=
  match export_mode args with
  | ee_drive => MsgAllStarted
  | client =>
      match gauges_with_features host args df with
      | [] => MsgNoZips
      | _ :: _ => MsgCombined (PosixPath.join (out_dir args) "all_gauge_subbasins.zip")
      end
  end.

(** the path names a regular file other than the one at [ccs] *)
Definition other_file (ccs : list string) (w : world) (p : string) : Prop :=
  exists cs c, Os.resolve p = Some cs /\ cs <> ccs /\ FS.get cs (w_fs w) = Some (FS.File c).

(** the entry is the file at [p], under its base name *)
Definition stored (w : world) (p : string) (e : string * FS.content) : Prop :=
  fst e = PosixPath.basename p /\ Os.lookup p (w_fs w) = Some (FS.File (snd e)).

(** the tree with the node at [cs] replaced by [n]; a tree without such a
    node is left as it is *)
Fixpoint put_at (cs : list string) (n : FS.node) (root : FS.node) : FS.node :=
  match cs with
  | [] => n
  | c :: cs' =>
      match root with
      | FS.Dir kids =>
          match FS.kids_get c kids with
          | Some k => FS.Dir (FS.kids_set c (put_at cs' n k) kids)
          | None => root
          end
      | FS.File _ => root
      end
  end.

Definition nonempty (c : string) : bool := negb (String.eqb c "").

(** the components of a path that are not empty *)
Definition parts_of (p : string) : list string := filter nonempty (PyStr.split "/" p).

Definition not_dot (c : string) : bool := negb (String.eqb c ".").

(** the head and the tail [makedirs] works with: those of the path, or of
    its head when the path ends in a slash *)
Definition heads (name : string) : string * string :=
  let '(head, tail) := PosixPath.split name in
  if String.eqb tail "" then PosixPath.split head else (head, tail).

(** [mkdir] as [makedirs] calls it: an [OSError] is let through unless the
    path is a directory *)
Definition mkdir_ok (name : string) : M unit :=
  fun w => match Os.mkdir name w with
           | (w', Raised e) =>
               match Os.path_isdir name w' with
               | (w'', Returned true) => (w'', Returned tt)
               | (w'', _) => (w'', Raised e)
               end
           | r => r
           end.

(** the tree with the directories of [cs] made where they were missing *)
Fixpoint with_dirs (cs : list string) (n : FS.node) : FS.node :=
  match cs, n with
  | c :: cs', FS.Dir kids =>
      FS.Dir (FS.kids_set c
                (with_dirs cs' (match FS.kids_get c kids with
                                | Some k => k
                                | None => FS.Dir []
                                end)) kids)
  | _, _ => n
  end.

(** no regular file stands where [cs] goes: what there is of [cs], and the
    node it starts from, are directories *)
Fixpoint clear_way (cs : list string) (n : FS.node) : bool :=
  match n with
  | FS.File _ => false
  | FS.Dir kids =>
      match cs with
      | [] => true
      | c :: cs' =>
          match FS.kids_get c kids with
          | Some k => clear_way cs' k
          | None => true
          end
      end
  end.

(** The directory at [ocs] lists a directory [t] that lists [ks]; without
    [t] its listing is [A]. *)
Definition tmp_holds (ocs : list string) (t : string) (ks A : list (string * FS.node))
    (w : world) : Prop :=
  exists L, FS.get ocs (w_fs w) = Some (FS.Dir L)
            /\ FS.kids_get t L = Some (FS.Dir ks)
            /\ FS.kids_del t L = A.

(** a listing of regular files only *)
Definition all_files (ks : list (string * FS.node)) : bool :=
  forallb (fun e => negb (FS.is_dir e)) ks.

(** what the regular file called [x] in a listing holds *)
Definition content_at (L : list (string * FS.node)) (x : string) : FS.content :=
  match FS.kids_get x L with
  | Some (FS.File c) => c
  | _ => FS.Blob ""
  end.


(** the file system of [w'] is that of [w] but for what the directory at
    [ocs] lists *)
Definition only_below (ocs : list string) (w w' : world) : Prop :=
  exists L, w_fs w' = put_at ocs (FS.Dir L) (w_fs w).

(** the directory at [ocs] is there *)
Definition lists (ocs : list string) (w : world) : Prop :=
  exists ka, FS.get ocs (w_fs w) = Some (FS.Dir ka).

(** a computation that, when it returns, has changed nothing but what the
    directory at [ocs] lists *)
Definition keeps_below (ocs : list string) {A} (m : M A) : Prop :=
  forall w w' a, lists ocs w -> m w = (w', Returned a) -> only_below ocs w w'.

(** the listing of a directory after the parts of the layer of [gid] have
    been written into it, one after the other *)
Definition put_parts (gid : string) (parts : list (string * string))
    (ks : list (string * FS.node)) : list (string * FS.node) :=
  fold_left (fun ks part =>
               FS.kids_set (layer_of gid ++ fst part)%string (FS.File (FS.Blob (snd part))) ks)
            parts ks.

(** the files the shapefile driver leaves in an empty directory *)
Definition files_written (gid : string) (parts : list (string * string))
  : list (string * FS.node) :=
  put_parts gid parts [].





(** the entry of the combined archive for a gauge whose archive is listed *)
Definition entry_in (L : list (string * FS.node)) (g : string * float * float)
  : string * FS.content :=
  (zip_name (fst (fst g)), content_at L (zip_name (fst (fst g)))).


(* ------------------------------------------------------------------ *)
(** * Floats *)

Lemma SFmul_comm prec emax x y :
  SpecFloat.SFmul prec emax x y = SpecFloat.SFmul prec emax y x.
Proof.
  destruct x as [sx|sx| |sx mx ex], y as [sy|sy| |sy my ey]; simpl; try reflexivity;
    try (rewrite (xorb_comm sx sy); reflexivity).
  rewrite (xorb_comm sx sy), (Pos.mul_comm mx my), (Z.add_comm ex ey). reflexivity.
Qed.

Lemma float_mul_comm (x y : float) : (x * y = y * x)%float.
Proof. apply Prim2SF_inj. rewrite !mul_spec. apply SFmul_comm. Qed.

(* ------------------------------------------------------------------ *)
(** * The monad *)

Lemma bind_returned {A B} (m : M A) (k : A -> M B) w w1 a :
  m w = (w1, Returned a) -> bind m k w = k a w1.
Proof. intros H. unfold bind. rewrite H. reflexivity. Qed.

Lemma bind_raised {A B} (m : M A) (k : A -> M B) w w1 e :
  m w = (w1, Raised e) -> bind m k w = (w1, Raised e).
Proof. intros H. unfold bind. rewrite H. reflexivity. Qed.

Lemma bind_inv {A B} (m : M A) (k : A -> M B) w w' r :
  bind m k w = (w', r) ->
  (exists w1 a, m w = (w1, Returned a) /\ k a w1 = (w', r))
  \/ (exists e, m w = (w', Raised e) /\ r = Raised e).
Proof.
  unfold bind. destruct (m w) as [w1 [a|e]]; intros H.
  - left. eauto.
  - right. inversion H; subst. eauto.
Qed.

Lemma bind_inv_returned {A B} (m : M A) (k : A -> M B) w w' b :
  bind m k w = (w', Returned b) ->
  exists w1 a, m w = (w1, Returned a) /\ k a w1 = (w', Returned b).
Proof.
  intros H. apply bind_inv in H. destruct H as [H1|[e [_ H1]]]; [exact H1 | discriminate].
Qed.

(** ** The driver's writes *)

Lemma driver_write_returned host p c w w' a :
  driver_write host p c w = (w', Returned a) <-> Os.write_file p c w = (w', Returned a).
Proof.
  unfold driver_write. destruct (Os.write_file p c w) as [w1 [[]|e]]; split; intros H;
    try exact H; discriminate.
Qed.

Lemma for_each_driver_write host (f : string * string -> string) parts : forall w w',
  for_each parts (fun part => driver_write host (f part) (FS.Blob (snd part))) w
  = (w', Returned tt)
  <-> for_each parts (fun part => Os.write_file (f part) (FS.Blob (snd part))) w
      = (w', Returned tt).
Proof.
  induction parts as [|part parts IH]; intros w w'; simpl; [tauto|].
  split; intros H; apply bind_inv_returned in H; destruct H as (w1 & [] & H1 & H2).
  - apply driver_write_returned in H1. rewrite (bind_returned _ _ _ _ _ H1). apply IH, H2.
  - apply (driver_write_returned host) in H1. rewrite (bind_returned _ _ _ _ _ H1).
    apply IH, H2.
Qed.

(** a call of the driver that returns has written every part *)
Lemma to_file_returned host gdf p w w' :
  to_file host gdf p w = (w', Returned tt)
  <-> snd (shapefile_parts host gdf) = None
      /\ for_each (fst (shapefile_parts host gdf))
           (fun part => Os.write_file (substring 0 (String.length p - 4) p ++ fst part)%string
                          (FS.Blob (snd part))) w
         = (w', Returned tt).
Proof.
  unfold to_file. split.
  - intros H. apply bind_inv_returned in H. destruct H as (w1 & [] & H1 & H2).
    apply (for_each_driver_write host (fun part => (_ ++ fst part)%string)) in H1.
    destruct (snd (shapefile_parts host gdf)); [discriminate|].
    injection H2 as <-. auto.
  - intros [Hn H]. apply (for_each_driver_write host (fun part => (_ ++ fst part)%string)) in H.
    rewrite (bind_returned _ _ _ _ _ H), Hn. reflexivity.
Qed.

(** ** Computations that leave the trace, or the file system, alone *)

Lemma keeps_trace_ret {A} (a : A) : keeps_trace (ret a).
Proof. intros w. reflexivity. Qed.

Lemma keeps_trace_raise {A} e : keeps_trace (@raise A e).
Proof. intros w. reflexivity. Qed.

Lemma keeps_trace_of_outcome {A} (o : outcome A) : keeps_trace (of_outcome o).
Proof. intros w. reflexivity. Qed.

Lemma keeps_trace_bind {A B} (m : M A) (k : A -> M B) :
  keeps_trace m -> (forall a, keeps_trace (k a)) -> keeps_trace (bind m k).
Proof.
  intros Hm Hk w. unfold bind. specialize (Hm w).
  destruct (m w) as [w1 [a|e]]; simpl in *; [rewrite Hk|]; exact Hm.
Qed.

Lemma keeps_trace_for_each {A} (xs : list A) (body : A -> M unit) :
  (forall x, keeps_trace (body x)) -> keeps_trace (for_each xs body).
Proof.
  intros H. induction xs as [|x xs IH]; simpl.
  - apply keeps_trace_ret.
  - apply keeps_trace_bind; auto.
Qed.

Lemma keeps_trace_on_fs f : keeps_trace (on_fs f).
Proof. intros w. unfold on_fs. destruct (f (w_fs w)); reflexivity. Qed.

Lemma keeps_trace_at_path op p : keeps_trace (Os.at_path op p).
Proof.
  unfold Os.at_path. destruct (Os.resolve p).
  - apply keeps_trace_on_fs.
  - apply keeps_trace_raise.
Qed.

Lemma keeps_trace_path_exists p : keeps_trace (Os.path_exists p).
Proof. intros w. reflexivity. Qed.

(** What [makedirs] does, it does by [mkdir]: a relation between worlds
    that every [mkdir] respects holds between the worlds before and after
    [makedirs], however the call ends. *)
Lemma makedirs_from_steps (P : world -> world -> Prop) :
  (forall w, P w w) ->
  (forall w1 w2 w3, P w1 w2 -> P w2 w3 -> P w1 w3) ->
  (forall p w, P w (fst (Os.mkdir p w))) ->
  forall depth name w, P w (fst (Os.makedirs_from depth name w)).
Proof.
  intros Hr Ht Hm. induction depth as [|d IH]; intros name w; [apply Hr|].
  cbn [Os.makedirs_from].
  destruct (PosixPath.split name) as [h1 t1].
  destruct (if String.eqb t1 "" then PosixPath.split h1 else (h1, t1)) as [head tail].
  assert (Hlast : forall w1, P w w1 ->
            P w (fst (match Os.mkdir name w1 with
                      | (w', Raised e) =>
                          match Os.path_isdir name w' with
                          | (w'', Returned true) => (w'', Returned tt)
                          | (w'', _) => (w'', Raised e)
                          end
                      | r => r
                      end))).
  { intros w1 H1. specialize (Hm name w1).
    destruct (Os.mkdir name w1) as [w2 [[]|e]]; simpl in *; [eapply Ht; eauto|].
    unfold Os.path_isdir. destruct (Os.stat name (w_fs w2)) as [[c|k]|]; simpl;
      eapply Ht; eauto. }
  unfold bind at 1.
  destruct (negb (String.eqb head "") && negb (String.eqb tail "")); [|apply Hlast, Hr].
  unfold bind at 1, Os.path_exists at 1.
  destruct (Os.stat head (w_fs w)); cbn [negb]; [apply Hlast, Hr|].
  unfold bind at 1. specialize (IH head w).
  destruct (Os.makedirs_from d head w) as [w1 [[]|e]]; simpl in IH.
  - unfold ret at 1. destruct (String.eqb tail "."); [exact IH|apply Hlast, IH].
  - destruct e; try exact IH.
    unfold ret at 1. destruct (String.eqb tail "."); [exact IH|apply Hlast, IH].
Qed.

Lemma keeps_trace_makedirs p : keeps_trace (Os.makedirs p).
Proof.
  intros w. unfold Os.makedirs. symmetry.
  apply (makedirs_from_steps (fun w w' => w_trace w = w_trace w')).
  - reflexivity.
  - intros; congruence.
  - intros q w1. symmetry. apply keeps_trace_at_path.
Qed.

Lemma keeps_trace_walk order top td : keeps_trace (Os.walk order top td).
Proof. intros w. reflexivity. Qed.

Lemma keeps_trace_ensure_dir p : keeps_trace (ensure_dir p).
Proof.
  unfold ensure_dir. apply keeps_trace_bind.
  - apply keeps_trace_path_exists.
  - intros []; simpl; [apply keeps_trace_ret | apply keeps_trace_makedirs].
Qed.

Lemma keeps_trace_append_entry zf e : keeps_trace (Zip.append_entry zf e).
Proof.
  intros w. unfold Zip.append_entry.
  destruct (Os.lookup zf (w_fs w)) as [[[b|es]|k]|]; try reflexivity.
  apply keeps_trace_at_path.
Qed.

Lemma keeps_trace_zip_write zf f a : keeps_trace (Zip.write zf f a).
Proof.
  intros w. unfold Zip.write.
  destruct (Os.lookup f (w_fs w)) as [[c|k]|]; try reflexivity;
    apply keeps_trace_append_entry.
Qed.

Lemma keeps_trace_zip_open p : keeps_trace (Zip.open p).
Proof.
  unfold Zip.open. apply keeps_trace_bind.
  - apply keeps_trace_at_path.
  - intros _. apply keeps_trace_ret.
Qed.

Lemma keeps_trace_driver_write host p c : keeps_trace (driver_write host p c).
Proof.
  intros w. unfold driver_write.
  pose proof (keeps_trace_at_path (fun p cs => FS.write_file p cs c) p w) as H.
  unfold Os.write_file. destruct (Os.at_path _ p w) as [w' [[]|e]]; exact H.
Qed.

Lemma keeps_trace_to_file host gdf p : keeps_trace (to_file host gdf p).
Proof.
  unfold to_file. apply keeps_trace_bind.
  - apply keeps_trace_for_each. intros x. apply keeps_trace_driver_write.
  - intros _. destruct (snd (shapefile_parts host gdf));
      [apply keeps_trace_raise | apply keeps_trace_ret].
Qed.

Lemma keeps_trace_write_shapefile_zip host gdf p l :
  keeps_trace (write_shapefile_zip host gdf p l).
Proof.
  unfold write_shapefile_zip.
  repeat first
    [ apply keeps_trace_ensure_dir
    | apply keeps_trace_to_file
    | apply keeps_trace_zip_open
    | apply keeps_trace_walk
    | apply keeps_trace_at_path
    | apply keeps_trace_zip_write
    | apply keeps_trace_for_each; intros ?
    | match goal with |- keeps_trace (let '(_, _) := ?x in _) => destruct x end
    | apply keeps_trace_bind; [|intros ?] ].
Qed.

Lemma log_nil w : log w [] = w.
Proof. destruct w. unfold log. simpl. rewrite app_nil_r. reflexivity. Qed.

Lemma log_log w a b : log (log w a) b = log w (a ++ b).
Proof. unfold log. simpl. rewrite app_assoc. reflexivity. Qed.

Lemma emit_log e w : emit e w = (log w [e], Returned tt).
Proof. reflexivity. Qed.

Lemma print_log m w : print m w = (log w [EvPrint m], Returned tt).
Proof. reflexivity. Qed.

Lemma announced_app a b : announced (a ++ b) = announced a ++ announced b.
Proof.
  induction a as [|e a IH]; simpl; [reflexivity|].
  destruct e as [[]| | | | | |]; simpl; rewrite ?IH; reflexivity.
Qed.

Lemma requested_app a b : requested (a ++ b) = requested a ++ requested b.
Proof.
  induction a as [|e a IH]; simpl; [reflexivity|].
  destruct e; simpl; rewrite ?IH; reflexivity.
Qed.

(** ** Reading the row *)

Lemma process_gauge_row_known host args row cp gid lat lon w :
  gauge_of host args row = Some (gid, lat, lon) ->
  process_gauge_row host row args cp w = process_known host args cp gid lat lon w.
Proof.
  unfold gauge_of, process_gauge_row, process_known. intros H.
  unfold bind at 1, of_outcome at 1.
  destruct (row_get row (lat_col args)) as [c1|]; [|discriminate].
  unfold bind at 1, of_outcome at 1.
  destruct (py_float host c1) as [x|]; [|discriminate].
  unfold bind at 1, of_outcome at 1.
  destruct (row_get row (lon_col args)) as [c2|]; [|discriminate].
  unfold bind at 1, of_outcome at 1.
  destruct (py_float host c2) as [y|]; [|discriminate].
  unfold bind at 1, of_outcome at 1.
  destruct (row_get row (id_col args)) as [c3|]; [|discriminate].
  inversion H; subst. reflexivity.
Qed.

Lemma process_gauge_row_unknown host args row cp w :
  gauge_of host args row = None ->
  exists e, process_gauge_row host row args cp w = (w, Raised e).
Proof.
  unfold gauge_of, process_gauge_row. intros H.
  unfold bind at 1, of_outcome at 1.
  destruct (row_get row (lat_col args)) as [c1|e]; [|eauto].
  unfold bind at 1, of_outcome at 1.
  destruct (py_float host c1) as [x|e]; [|eauto].
  unfold bind at 1, of_outcome at 1.
  destruct (row_get row (lon_col args)) as [c2|e]; [|eauto].
  unfold bind at 1, of_outcome at 1.
  destruct (py_float host c2) as [y|e]; [|eauto].
  unfold bind at 1, of_outcome at 1.
  destruct (row_get row (id_col args)) as [c3|e]; [discriminate|eauto].
Qed.

(** ** The download *)

Lemma shapes_of_length host feats rows :
  shapes_of host feats = Returned rows -> List.length rows = List.length feats.
Proof.
  revert rows. induction feats as [|f feats IH]; simpl; intros rows H.
  - inversion H. reflexivity.
  - destruct (f_geometry f); [|discriminate].
    destruct (shp_shape host g); [|discriminate].
    destruct (shapes_of host feats) as [rs|]; [|discriminate].
    inversion H; subst. simpl. f_equal. apply IH. reflexivity.
Qed.

Lemma fc_to_geodataframe_eq host fc w :
  fc_to_geodataframe host fc w =
  (log w [EvGetInfo fc],
   match ee_getInfo host fc with
   | Returned info =>
       frame_of host (match info_features info with Some l => l | None => [] end)
   | Raised e => Raised e
   end).
Proof.
  unfold fc_to_geodataframe, bind, of_outcome. rewrite emit_log.
  destruct (ee_getInfo host fc) as [info|e]; [|reflexivity].
  unfold frame_of.
  destruct (match info_features info with Some l => l | None => [] end) as [|f fs];
    [reflexivity|].
  destruct (shapes_of host (f :: fs)); reflexivity.
Qed.

Lemma frame_of_empty host feats gdf :
  frame_of host feats = Returned gdf ->
  gdf_empty gdf = match feats with [] => true | _ :: _ => false end.
Proof.
  unfold frame_of. destruct feats as [|f fs]; intros H.
  - inversion H. reflexivity.
  - destruct (shapes_of host (f :: fs)) as [rows|] eqn:E; [|discriminate].
    inversion H; subst. apply shapes_of_length in E.
    destruct rows; [discriminate|reflexivity].
Qed.

Lemma process_known_client host args cp gid lat lon w :
  export_mode args = client ->
  process_known host args cp gid lat lon w =
  let fc := get_subbasins_fc lon lat (buffer_km args) in
  let w1 := log w [EvPrint (MsgProcessing gid lat lon); EvGetInfo fc] in
  match ee_getInfo host fc with
  | Raised e => (w1, Raised e)
  | Returned info =>
      match frame_of host (match info_features info with Some l => l | None => [] end) with
      | Raised e => (w1, Raised e)
      | Returned gdf =>
          if gdf_empty gdf
          then (log w1 [EvPrint (MsgNoSubbasins gid)], Returned cp)
          else match write_shapefile_zip host gdf (out_zip_of args gid) (layer_of gid) w1 with
               | (w2, Returned _) =>
                   (log w2 [EvPrint (MsgWrote (out_zip_of args gid))],
                    Returned (cp ++ [out_zip_of args gid]))
               | (w2, Raised e) => (w2, Raised e)
               end
      end
  end.
Proof.
  intros Hm. unfold process_known. rewrite Hm. cbv zeta.
  unfold bind at 1. rewrite print_log.
  unfold bind at 1. rewrite fc_to_geodataframe_eq, log_log. simpl app.
  destruct (ee_getInfo host _) as [info|e]; [|reflexivity].
  destruct (frame_of host _) as [gdf|e]; [|reflexivity].
  destruct (gdf_empty gdf).
  - unfold bind. rewrite print_log. reflexivity.
  - unfold bind at 1. fold (out_zip_of args gid). fold (layer_of gid).
    destruct (write_shapefile_zip host gdf _ _ _) as [w2 [[]|e]]; [|reflexivity].
    unfold bind. rewrite print_log. reflexivity.
Qed.

Lemma process_known_drive host args cp gid lat lon w :
  export_mode args = ee_drive ->
  process_known host args cp gid lat lon w =
  let task := task_of args gid lat lon in
  let w1 := log w [EvPrint (MsgProcessing gid lat lon); EvExportStart task] in
  match ee_start host task with
  | Returned task_id => (log w1 [EvPrint (MsgStarted (layer_of gid) task_id)], Returned cp)
  | Raised e => (w1, Raised e)
  end.
Proof.
  intros Hm. unfold process_known. rewrite Hm. cbv zeta.
  unfold bind at 1. rewrite print_log.
  unfold queue_ee_drive_export. fold (layer_of gid). fold (task_of args gid lat lon).
  unfold bind at 1. unfold bind at 1. unfold bind at 1. rewrite emit_log, log_log. simpl app.
  unfold of_outcome.
  destruct (ee_start host _) as [task_id|e]; [|reflexivity].
  rewrite print_log. reflexivity.
Qed.

Lemma requested_log w evs :
  requested (w_trace (log w evs)) = requested (w_trace w) ++ requested evs.
Proof. unfold log. simpl. apply requested_app. Qed.

Lemma announced_log w evs :
  announced (w_trace (log w evs)) = announced (w_trace w) ++ announced evs.
Proof. unfold log. simpl. apply announced_app. Qed.

Lemma process_known_requested host args cp gid lat lon w :
  requested (w_trace (fst (process_known host args cp gid lat lon w)))
  = requested (w_trace w) ++ [get_subbasins_fc lon lat (buffer_km args)].
Proof.
  destruct (export_mode args) eqn:Hm.
  - rewrite process_known_client by exact Hm. cbv zeta.
    destruct (ee_getInfo host _) as [info|e]; [|apply requested_log].
    destruct (frame_of host _) as [gdf|e]; [|apply requested_log].
    destruct (gdf_empty gdf).
    + simpl fst. rewrite !requested_log. simpl. rewrite app_nil_r. reflexivity.
    + pose proof (keeps_trace_write_shapefile_zip host gdf (out_zip_of args gid) (layer_of gid)
                    (log w [EvPrint (MsgProcessing gid lat lon);
                            EvGetInfo (get_subbasins_fc lon lat (buffer_km args))])) as K.
      destruct (write_shapefile_zip host gdf _ _ _) as [w2 [[]|e]]; simpl fst in *.
      * rewrite requested_log, K, requested_log. simpl. rewrite app_nil_r. reflexivity.
      * rewrite K, requested_log. reflexivity.
  - rewrite process_known_drive by exact Hm. cbv zeta.
    destruct (ee_start host _) as [tid|e]; simpl fst.
    + rewrite !requested_log. simpl. rewrite app_nil_r. reflexivity.
    + rewrite requested_log. reflexivity.
Qed.

(** C6: for every row whose latitude, longitude and id are read, the call
    sends exactly one collection to Earth Engine, filtered by a buffer whose
    distance is the product of 1000 and [buffer_km] (kilometres to metres). *)
Theorem C6_buffer_radius host args row cp w gid lat lon :
  gauge_of host args row = Some (gid, lat, lon) ->
  map buffer_distance (requested (w_trace (fst (process_gauge_row host row args cp w))))
  = map buffer_distance (requested (w_trace w)) ++ [Some (1000 * buffer_km args)%float].
Proof.
  intros Hg. rewrite (process_gauge_row_known _ _ _ _ _ _ _ _ Hg).
  rewrite process_known_requested, map_app. simpl.
  rewrite (float_mul_comm (buffer_km args) 1000). reflexivity.
Qed.

Lemma C6_buffer_radius_witness :
  map buffer_distance
      (requested (w_trace (fst (process_gauge_row Demo.host Demo.row1 Demo.args [] Demo.world0))))
  = [Some 25000%float].
Proof.
  exact (C6_buffer_radius Demo.host Demo.args Demo.row1 [] Demo.world0 "02HA003" 43.5%float (-79.5)%float eq_refl).
Defined.

Lemma main_loop_cons host args columns row rest cp count w :
  main_loop host args columns (row :: rest) cp count w =
  match process_gauge_row host (row_dict host columns row) args cp w with
  | (w1, Returned cp1) =>
      if limit_reached (limit args) (count + 1)
      then (log w1 [EvPrint (MsgReachedLimit (limit_value args))], Returned (cp1, (count + 1)%Z))
      else main_loop host args columns rest cp1 (count + 1) (after_sleep args w1)
  | (w1, Raised e) => (w1, Raised e)
  end.
Proof.
  simpl main_loop. unfold bind at 1.
  destruct (process_gauge_row host _ args cp w) as [w1 [cp1|e]]; [|reflexivity].
  destruct (limit_reached (limit args) (count + 1)).
  - unfold bind. rewrite print_log. reflexivity.
  - unfold bind at 1, after_sleep.
    destruct (0 <? sleep_sec args)%float; [rewrite emit_log|]; reflexivity.
Qed.

Lemma announced_after_sleep args w :
  announced (w_trace (after_sleep args w)) = announced (w_trace w).
Proof.
  unfold after_sleep. destruct (0 <? sleep_sec args)%float; [|reflexivity].
  rewrite announced_log. apply app_nil_r.
Qed.

Lemma process_known_announced host args cp gid lat lon w :
  announced (w_trace (fst (process_known host args cp gid lat lon w)))
  = announced (w_trace w) ++ [(gid, lat, lon)].
Proof.
  destruct (export_mode args) eqn:Hm.
  - rewrite process_known_client by exact Hm. cbv zeta.
    destruct (ee_getInfo host _) as [info|e]; [|apply announced_log].
    destruct (frame_of host _) as [gdf|e]; [|apply announced_log].
    destruct (gdf_empty gdf).
    + simpl fst. rewrite !announced_log. simpl. rewrite app_nil_r. reflexivity.
    + pose proof (keeps_trace_write_shapefile_zip host gdf (out_zip_of args gid) (layer_of gid)
                    (log w [EvPrint (MsgProcessing gid lat lon);
                            EvGetInfo (get_subbasins_fc lon lat (buffer_km args))])) as K.
      destruct (write_shapefile_zip host gdf _ _ _) as [w2 [[]|e]]; simpl fst in *.
      * rewrite announced_log, K, announced_log. simpl. rewrite app_nil_r. reflexivity.
      * rewrite K, announced_log. reflexivity.
  - rewrite process_known_drive by exact Hm. cbv zeta.
    destruct (ee_start host _) as [tid|e]; simpl fst.
    + rewrite !announced_log. simpl. rewrite app_nil_r. reflexivity.
    + rewrite announced_log. reflexivity.
Qed.

(** the archive paths a returning call adds in local mode *)
Lemma process_known_paths host args cp gid lat lon w w' cp' :
  export_mode args = client ->
  process_known host args cp gid lat lon w = (w', Returned cp') ->
  cp' = cp ++ (if has_features host args (gid, lat, lon) then [out_zip_of args gid] else []).
Proof.
  intros Hm. rewrite process_known_client by exact Hm. cbv zeta.
  unfold has_features, features_of.
  destruct (ee_getInfo host _) as [info|e]; [|discriminate].
  destruct (frame_of host _) as [gdf|e] eqn:Ef; [|discriminate].
  apply frame_of_empty in Ef. rewrite Ef.
  destruct (match info_features info with Some l => l | None => [] end) as [|f fs].
  - intros H. inversion H. rewrite app_nil_r. reflexivity.
  - destruct (write_shapefile_zip host gdf _ _ _) as [w2 [[]|e]]; [|discriminate].
    intros H. inversion H. reflexivity.
Qed.

Lemma process_known_paths_drive host args cp gid lat lon w w' cp' :
  export_mode args = ee_drive ->
  process_known host args cp gid lat lon w = (w', Returned cp') ->
  cp' = cp.
Proof.
  intros Hm. rewrite process_known_drive by exact Hm. cbv zeta.
  destruct (ee_start host _) as [tid|e]; [|discriminate].
  intros H. inversion H. reflexivity.
Qed.

Lemma archived_app host args a b :
  archived host args (a ++ b) = archived host args a ++ archived host args b.
Proof. unfold archived. rewrite filter_app, map_app. reflexivity. Qed.

(** What a returning loop has done: it announced the gauges of the rows
    reached, all of them readable, counted them, and in local mode collected
    the archive paths of those that had features. *)
Lemma main_loop_returned host args columns rows :
  forall cp count w w' cp' count',
  main_loop host args columns rows cp count w = (w', Returned (cp', count')) ->
  let gs := gauges_reached host args columns count rows in
  map Some gs = map (fun row => gauge_of host args (row_dict host columns row))
                    (rows_reached (limit args) count rows)
  /\ announced (w_trace w') = announced (w_trace w) ++ gs
  /\ count' = (count + Z.of_nat (List.length gs))%Z
  /\ cp' = cp ++ match export_mode args with
                 | client => archived host args gs
                 | ee_drive => []
                 end.
Proof.
  induction rows as [|row rest IH]; intros cp count w w' cp' count' H.
  - simpl in H. inversion H; subst. cbv zeta. unfold gauges_reached. simpl.
    rewrite !app_nil_r, Z.add_0_r. destruct (export_mode args); rewrite ?app_nil_r; auto.
  - rewrite main_loop_cons in H.
    destruct (gauge_of host args (row_dict host columns row)) as [[[gid lat] lon]|] eqn:Hg.
    2:{ destruct (process_gauge_row_unknown host args _ cp w Hg) as [e He].
        rewrite He in H. discriminate. }
    rewrite (process_gauge_row_known _ _ _ cp _ _ _ w Hg) in H.
    pose proof (process_known_announced host args cp gid lat lon w) as Ha.
    pose proof (process_known_paths host args cp gid lat lon w) as Hp.
    pose proof (process_known_paths_drive host args cp gid lat lon w) as Hd.
    destruct (process_known host args cp gid lat lon w) as [w1 [cp1|e]]; [|discriminate].
    simpl fst in Ha. specialize (Hp w1 cp1). specialize (Hd w1 cp1).
    cbv zeta. unfold gauges_reached. simpl rows_reached. simpl map. rewrite Hg. simpl somes.
    destruct (limit_reached (limit args) (count + 1)) eqn:Hl.
    + inversion H; subst.
      rewrite announced_log, Ha. simpl. rewrite app_nil_r.
      repeat split; try reflexivity.
      destruct (export_mode args).
      * rewrite (Hp eq_refl eq_refl). unfold archived. simpl.
        destruct (has_features host args (gid, lat, lon)); reflexivity.
      * rewrite (Hd eq_refl eq_refl), app_nil_r. reflexivity.
    + apply IH in H. cbv zeta in H. fold (gauges_reached host args columns (count + 1) rest).
      destruct H as (H1 & H2 & H3 & H4). simpl. rewrite H1.
      rewrite H2, announced_after_sleep, Ha, <- app_assoc. simpl.
      repeat split; try reflexivity.
      * rewrite H3. lia.
      * rewrite H4. destruct (export_mode args).
        -- rewrite (Hp eq_refl eq_refl), <- app_assoc. f_equal.
           change ((gid, lat, lon) :: gauges_reached host args columns (count + 1) rest)
             with ([(gid, lat, lon)] ++ gauges_reached host args columns (count + 1) rest).
           rewrite archived_app. f_equal. unfold archived. simpl.
           destruct (has_features host args (gid, lat, lon)); reflexivity.
        -- rewrite (Hd eq_refl eq_refl). reflexivity.
Qed.

Lemma rows_reached_firstn {A} (n : Z) (rows : list A) :
  forall count, (0 <= count < n)%Z ->
  rows_reached (Some n) count rows = firstn (Z.to_nat (n - count)) rows.
Proof.
  induction rows as [|row rest IH]; intros count Hc; simpl.
  - rewrite firstn_nil. reflexivity.
  - replace (Z.to_nat (n - count)) with (S (Z.to_nat (n - (count + 1)))) by lia.
    simpl. f_equal.
    destruct (Z.eqb_spec n 0); [lia|]. simpl.
    destruct (Z.leb_spec n (count + 1)).
    + replace (Z.to_nat (n - (count + 1))) with 0%nat by lia. reflexivity.
    + apply IH. lia.
Qed.

Lemma rows_reached_unlimited {A} (l : option Z) (rows : list A) :
  l = None \/ l = Some 0%Z -> forall count, rows_reached l count rows = rows.
Proof.
  intros Hl. induction rows as [|row rest IH]; intros count; simpl; [reflexivity|].
  f_equal. destruct Hl as [->| ->]; simpl; apply IH.
Qed.

(** C2: in local mode a gauge whose query answers no feature is skipped:
    the call returns without raising, the file system is as before, the
    notice is printed, the list of archive paths is as before, and the loop
    goes on with the next record (or stops at the limit). *)
Theorem C2_empty_result_skipped host args columns row rest cp count w gid lat lon info :
  export_mode args = client ->
  gauge_of host args (row_dict host columns row) = Some (gid, lat, lon) ->
  ee_getInfo host (get_subbasins_fc lon lat (buffer_km args)) = Returned info ->
  info_features info = None \/ info_features info = Some [] ->
  let w1 := log w [EvPrint (MsgProcessing gid lat lon);
                   EvGetInfo (get_subbasins_fc lon lat (buffer_km args));
                   EvPrint (MsgNoSubbasins gid)] in
  process_gauge_row host (row_dict host columns row) args cp w = (w1, Returned cp)
  /\ w_fs w1 = w_fs w
  /\ main_loop host args columns (row :: rest) cp count w
     = if limit_reached (limit args) (count + 1)
       then (log w1 [EvPrint (MsgReachedLimit (limit_value args))], Returned (cp, (count + 1)%Z))
       else main_loop host args columns rest cp (count + 1) (after_sleep args w1).
Proof.
  intros Hm Hg Hi Hf w1.
  assert (Hp : process_gauge_row host (row_dict host columns row) args cp w = (w1, Returned cp)).
  { rewrite (process_gauge_row_known _ _ _ cp _ _ _ w Hg).
    rewrite process_known_client by exact Hm. cbv zeta. rewrite Hi.
    assert (Hfe : match info_features info with Some l => l | None => [] end = [])
      by (destruct Hf as [-> | ->]; reflexivity).
    rewrite Hfe. simpl. unfold w1. rewrite log_log. reflexivity. }
  repeat split.
  - exact Hp.
  - rewrite main_loop_cons, Hp. reflexivity.
Qed.

Lemma C2_empty_result_skipped_witness :
  process_gauge_row Demo.host Demo.row2 Demo.args ["outputs/gauge_02HA003_subbasins.zip"%string]
    Demo.world0
  = (log Demo.world0 [EvPrint (MsgProcessing "02HB001" 10 10);
                      EvGetInfo (get_subbasins_fc 10 10 25);
                      EvPrint (MsgNoSubbasins "02HB001")],
     Returned ["outputs/gauge_02HA003_subbasins.zip"%string]).
Proof.
  exact (proj1 (C2_empty_result_skipped Demo.host Demo.args (df_columns Demo.table)
                  [CStr "02HB001"; CFloat 10; CFloat 10] []
                  ["outputs/gauge_02HA003_subbasins.zip"%string] 0%Z Demo.world0
                  "02HB001" 10%float 10%float {| info_features := Some [] |}
                  eq_refl eq_refl eq_refl (or_intror eq_refl))).
Defined.

(** C3, as amended: with a limit N > 0, a run of the loop that returns has
    processed the first N rows (all of them when there are fewer), in file
    order, and no other; [count] ends as their number. *)
Theorem C3_limit_first_rows host args columns rows cp w w' cp' count' n :
  limit args = Some n ->
  (0 < n)%Z ->
  main_loop host args columns rows cp 0 w = (w', Returned (cp', count')) ->
  exists gs,
    announced (w_trace w') = announced (w_trace w) ++ gs
    /\ map Some gs = gauges_of_rows host args columns (firstn (Z.to_nat n) rows)
    /\ count' = Z.of_nat (List.length (firstn (Z.to_nat n) rows)).
Proof.
  intros Hl Hn H. apply main_loop_returned in H. cbv zeta in H.
  destruct H as (H1 & H2 & H3 & _).
  exists (gauges_reached host args columns 0 rows).
  rewrite Hl, rows_reached_firstn, Z.sub_0_r in H1 by lia.
  repeat split; try assumption.
  rewrite H3. simpl. f_equal.
  rewrite <- (length_map Some), H1. unfold gauges_of_rows. apply length_map.
Qed.

Lemma C3_limit_first_rows_witness :
  exists gs,
    announced (w_trace (fst (main_loop Demo.host (Demo.with_limit 2 Demo.args)
                               (df_columns Demo.table) (df_rows Demo.table) [] 0 Demo.world0)))
    = announced (w_trace Demo.world0) ++ gs
    /\ map Some gs = gauges_of_rows Demo.host (Demo.with_limit 2 Demo.args)
                       (df_columns Demo.table) (firstn 2 (df_rows Demo.table))
    /\ 2%Z = Z.of_nat (List.length (firstn 2 (df_rows Demo.table))).
Proof.
  refine (C3_limit_first_rows Demo.host (Demo.with_limit 2 Demo.args)
           (df_columns Demo.table) (df_rows Demo.table) [] Demo.world0 _ _ _ 2 eq_refl eq_refl _).
  vm_compute. reflexivity.
Defined.

(** C3 as stated fails for the limit 0: the loop returns having processed
    every row, not the first 0 rows. *)
Lemma C3_limit_zero_counterexample :
  let run := main_loop Demo.host (Demo.with_limit 0 Demo.args)
               (df_columns Demo.table) (df_rows Demo.table) [] 0 Demo.world0 in
  snd run = Returned (["outputs/gauge_02HA003_subbasins.zip"%string;
                       "outputs/gauge_02HC002_subbasins.zip"%string], 3%Z)
  /\ announced (w_trace (fst run))
     = [("02HA003"%string, 43.5%float, (-79.5)%float);
        ("02HB001"%string, 10%float, 10%float);
        ("02HC002"%string, 44%float, (-80)%float)]
  /\ ~ (exists gs,
          announced (w_trace (fst run)) = announced (w_trace Demo.world0) ++ gs
          /\ map Some gs = gauges_of_rows Demo.host (Demo.with_limit 0 Demo.args)
                             (df_columns Demo.table)
                             (firstn (Z.to_nat 0) (df_rows Demo.table))).
Proof.
  cbv zeta. split; [vm_compute; reflexivity|]. split; [vm_compute; reflexivity|].
  intros (gs & H1 & H2). simpl in H2. destruct gs; [|discriminate].
  vm_compute in H1. discriminate.
Qed.

(* ------------------------------------------------------------------ *)
(** * The file system: listings *)

Lemma kids_get_set_same name n kids :
  FS.kids_get name (FS.kids_set name n kids) = Some n.
Proof.
  induction kids as [|[k m] kids IH]; simpl.
  - rewrite String.eqb_refl. reflexivity.
  - destruct (String.eqb k name) eqn:E; simpl; rewrite E; [reflexivity|exact IH].
Qed.

Lemma kids_get_set_other name name' n kids :
  name' <> name ->
  FS.kids_get name' (FS.kids_set name n kids) = FS.kids_get name' kids.
Proof.
  intros Hne. induction kids as [|[k m] kids IH]; simpl.
  - destruct (String.eqb_spec name name'); [congruence|reflexivity].
  - destruct (String.eqb_spec k name) as [->|Hk]; simpl.
    + destruct (String.eqb_spec name name'); [congruence|reflexivity].
    + destruct (String.eqb k name'); [reflexivity|exact IH].
Qed.

Lemma kids_get_del_same name kids :
  FS.kids_get name (FS.kids_del name kids) = None.
Proof.
  unfold FS.kids_del. induction kids as [|[k m] kids IH]; simpl; [reflexivity|].
  destruct (String.eqb_spec k name) as [->|Hk]; simpl; [exact IH|].
  destruct (String.eqb_spec k name); [congruence|exact IH].
Qed.

Lemma kids_get_del_other name name' kids :
  name' <> name ->
  FS.kids_get name' (FS.kids_del name kids) = FS.kids_get name' kids.
Proof.
  intros Hne. unfold FS.kids_del. induction kids as [|[k m] kids IH]; simpl; [reflexivity|].
  destruct (String.eqb_spec k name) as [->|Hk]; simpl.
  - destruct (String.eqb_spec name name'); [congruence|exact IH].
  - destruct (String.eqb k name'); [reflexivity|exact IH].
Qed.

Lemma get_cons c cs kids :
  FS.get (c :: cs) (FS.Dir kids)
  = match FS.kids_get c kids with Some k => FS.get cs k | None => None end.
Proof. reflexivity. Qed.

Lemma get_file_inv cs c0 n :
  FS.get cs (FS.File c0) = Some n -> cs = [] /\ n = FS.File c0.
Proof. destruct cs; simpl; intros H; inversion H; auto. Qed.

(** a change of one listing that keeps the regular files keeps them in the
    whole tree *)
Lemma alter_dir_files p f :
  (forall kids kids', f kids = Returned kids' ->
     forall q c, FS.get q (FS.Dir kids') = Some (FS.File c)
                 <-> FS.get q (FS.Dir kids) = Some (FS.File c)) ->
  forall cs root root', FS.alter_dir p cs f root = Returned root' ->
  forall q c, FS.get q root' = Some (FS.File c) <-> FS.get q root = Some (FS.File c).
Proof.
  intros Hf. induction cs as [|x cs IH]; intros root root' H q c.
  - destruct root as [c0|kids]; simpl in H; [discriminate|].
    destruct (f kids) as [kids'|] eqn:E; [|discriminate]. injection H as <-.
    eapply Hf; eauto.
  - destruct root as [c0|kids]; simpl in H; [discriminate|].
    destruct (FS.kids_get x kids) as [k|] eqn:Ek; [|discriminate].
    destruct (FS.alter_dir p cs f k) as [k'|] eqn:Ea; [|discriminate]. injection H as <-.
    destruct q as [|y q]; [simpl; split; discriminate|].
    rewrite !get_cons. destruct (String.eqb_spec y x) as [->|Hy].
    + rewrite kids_get_set_same, Ek. eapply IH; eauto.
    + rewrite kids_get_set_other by exact Hy. reflexivity.
Qed.

(** [mkdir] makes a directory: the files are the same before and after. *)
Lemma mkdir_files p cs root root' :
  FS.mkdir p cs root = Returned root' ->
  forall q c, FS.get q root' = Some (FS.File c) <-> FS.get q root = Some (FS.File c).
Proof.
  unfold FS.mkdir. destruct cs as [|x cs]; [discriminate|].
  apply alter_dir_files. intros kids kids' H q c.
  destruct (FS.kids_get (last (x :: cs) "") kids) eqn:Ek; [discriminate|].
  injection H as <-. destruct q as [|y q]; [simpl; split; discriminate|].
  rewrite !get_cons. destruct (String.eqb_spec y (last (x :: cs) "")) as [->|Hy].
  - rewrite kids_get_set_same, Ek. destruct q; simpl; split; discriminate.
  - rewrite kids_get_set_other by exact Hy. reflexivity.
Qed.

Lemma os_mkdir_files p w :
  forall q c, FS.get q (w_fs (fst (Os.mkdir p w))) = Some (FS.File c)
              <-> FS.get q (w_fs w) = Some (FS.File c).
Proof.
  intros q c. unfold Os.mkdir, Os.at_path. destruct (Os.resolve p) as [cs|]; [|reflexivity].
  unfold on_fs. destruct (Os.final_dot p).
  - destruct (FS.alter_dir p cs _ (w_fs w)) as [fs'|] eqn:E; simpl; [|reflexivity].
    revert q c. eapply alter_dir_files; [|exact E]. discriminate.
  - destruct (FS.mkdir p cs (w_fs w)) as [fs'|] eqn:E; simpl; [|reflexivity].
    apply (mkdir_files _ _ _ _ E).
Qed.

(** [makedirs] creates directories only, however it ends. *)
Lemma makedirs_files p w :
  forall q c, FS.get q (w_fs (fst (Os.makedirs p w))) = Some (FS.File c)
              <-> FS.get q (w_fs w) = Some (FS.File c).
Proof.
  unfold Os.makedirs.
  apply (makedirs_from_steps
           (fun w w' => forall q c, FS.get q (w_fs w') = Some (FS.File c)
                                    <-> FS.get q (w_fs w) = Some (FS.File c))).
  - reflexivity.
  - intros w1 w2 w3 H1 H2 q c. rewrite H2. apply H1.
  - intros q w1. apply os_mkdir_files.
Qed.

Lemma ensure_dir_files p w :
  forall q c, FS.get q (w_fs (fst (ensure_dir p w))) = Some (FS.File c)
              <-> FS.get q (w_fs w) = Some (FS.File c).
Proof.
  intros q c. unfold ensure_dir, bind, Os.path_exists.
  destruct (Os.stat p (w_fs w)); simpl; [reflexivity|].
  apply makedirs_files.
Qed.

Lemma bind_assoc {A B C} (m : M A) (k1 : A -> M B) (k2 : B -> M C) w :
  bind (bind m k1) k2 w = bind m (fun a => bind (k1 a) k2) w.
Proof. unfold bind. destruct (m w) as [w1 [a|e]]; reflexivity. Qed.

(** ** Computations that only add events of one kind *)

Lemma emits_keeps P {A} (m : M A) : keeps_trace m -> emits P m.
Proof. intros H w. exists []. rewrite app_nil_r. auto. Qed.

Lemma emits_ret P {A} (a : A) : emits P (ret a).
Proof. apply emits_keeps, keeps_trace_ret. Qed.

Lemma emits_raise P {A} e : emits P (@raise A e).
Proof. apply emits_keeps, keeps_trace_raise. Qed.

Lemma emits_of_outcome P {A} (o : outcome A) : emits P (of_outcome o).
Proof. apply emits_keeps, keeps_trace_of_outcome. Qed.

Lemma emits_emit (P : event -> Prop) e : P e -> emits P (emit e).
Proof. intros H w. exists [e]. split; [reflexivity|]. constructor; auto. Qed.

Lemma emits_bind P {A B} (m : M A) (k : A -> M B) :
  emits P m -> (forall a, emits P (k a)) -> emits P (bind m k).
Proof.
  intros Hm Hk w. unfold bind. destruct (Hm w) as (n1 & E1 & F1).
  destruct (m w) as [w1 [a|e]]; simpl in *.
  - destruct (Hk a w1) as (n2 & E2 & F2). exists (n1 ++ n2).
    rewrite E2, E1, app_assoc. split; [reflexivity|]. apply Forall_app; auto.
  - exists n1. auto.
Qed.

Lemma emits_log (P : event -> Prop) w evs :
  Forall P evs -> exists new, w_trace (log w evs) = w_trace w ++ new /\ Forall P new.
Proof. intros H. exists evs. auto. Qed.

Lemma emits_step (P : event -> Prop) w w1 w2 :
  (exists new, w_trace w1 = w_trace w ++ new /\ Forall P new) ->
  (exists new, w_trace w2 = w_trace w1 ++ new /\ Forall P new) ->
  exists new, w_trace w2 = w_trace w ++ new /\ Forall P new.
Proof.
  intros (n1 & E1 & F1) (n2 & E2 & F2). exists (n1 ++ n2).
  rewrite E2, E1, app_assoc. split; [reflexivity|]. apply Forall_app; auto.
Qed.

(** events of the start of a run: none reaches a gauge *)
Lemma emits_initialize host b p : emits (fun e => touches_gauges e = false) (initialize host b p).
Proof.
  unfold initialize. apply emits_bind; [apply emits_emit; reflexivity|].
  intros _. destruct (ee_initialize host b _); [apply emits_raise|apply emits_ret].
Qed.

Lemma emits_authenticate host : emits (fun e => touches_gauges e = false) (authenticate host).
Proof.
  unfold authenticate. apply emits_bind; [apply emits_emit; reflexivity|].
  intros _. destruct (ee_authenticate host); [apply emits_raise|apply emits_ret].
Qed.

Lemma emits_init_ee host p : emits (fun e => touches_gauges e = false) (init_ee host p).
Proof.
  intros w. unfold init_ee.
  pose proof (emits_initialize host false p w) as H1.
  destruct (initialize host false p w) as [w1 [[]|e]]; simpl fst in *; [exact H1|].
  destruct (is_Exception e); [|exact H1].
  eapply emits_step; [exact H1|].
  apply (emits_bind (fun e => touches_gauges e = false)).
  - apply emits_emit. reflexivity.
  - intros _. apply emits_bind; [apply emits_authenticate|]. intros _. apply emits_initialize.
Qed.

Lemma emits_load_csv host p : emits (fun e => touches_gauges e = false) (load_csv host p).
Proof.
  unfold load_csv. apply emits_bind; [apply emits_emit; reflexivity|].
  intros _ w. exists []. rewrite app_nil_r. auto.
Qed.

Lemma emits_main_load host args : emits (fun e => touches_gauges e = false) (main_load host args).
Proof.
  unfold main_load. apply emits_bind; [apply emits_keeps, keeps_trace_ensure_dir|].
  intros _. apply emits_bind; [apply emits_init_ee|]. intros _. apply emits_load_csv.
Qed.

Lemma check_columns_inv cols columns w :
  (exists col, In col cols /\ ~ In col columns
               /\ check_columns cols columns w
                  = (w, Raised (KeyError ("Column '" ++ col ++ "' not found in CSV.")%string)))
  \/ (Forall (fun col => In col columns) cols
      /\ check_columns cols columns w = (w, Returned tt)).
Proof.
  induction cols as [|col cols IH]; simpl.
  - right. auto.
  - destruct (existsb (String.eqb col) columns) eqn:E.
    + apply existsb_exists in E. destruct E as (x & Hx & Ex).
      apply String.eqb_eq in Ex. subst x.
      destruct IH as [(c & H1 & H2 & H3)|[H1 H2]].
      * left. exists c. auto.
      * right. auto.
    + left. exists col. repeat split; auto.
      intros Hin. assert (existsb (String.eqb col) columns = true).
      { apply existsb_exists. exists col. split; [exact Hin|apply String.eqb_refl]. }
      congruence.
Qed.

(** C4: when the table was loaded and one of the three named columns is not
    among its columns, [main] raises the [KeyError] of a missing column in
    the very world the load left: between the start of the run and the
    exception no gauge was announced and nothing was asked of Earth Engine. *)
Theorem C4_missing_column host args w w0 df :
  main_load host args w = (w0, Returned df) ->
  ~ In (lat_col args) (df_columns df) \/ ~ In (lon_col args) (df_columns df)
  \/ ~ In (id_col args) (df_columns df) ->
  exists col,
    In col [lat_col args; lon_col args; id_col args]
    /\ ~ In col (df_columns df)
    /\ main host args w
       = (w0, Raised (KeyError ("Column '" ++ col ++ "' not found in CSV.")%string))
    /\ exists new, w_trace w0 = w_trace w ++ new
                   /\ Forall (fun e => touches_gauges e = false) new.
Proof.
  intros Hload Hmiss.
  destruct (check_columns_inv [lat_col args; lon_col args; id_col args] (df_columns df) w0)
    as [(col & H1 & H2 & H3)|[Hall _]].
  - exists col. repeat split; auto.
    + unfold main. rewrite (bind_returned _ _ _ _ _ Hload).
      rewrite (bind_raised _ _ _ _ _ H3). reflexivity.
    + pose proof (emits_main_load host args w) as H. rewrite Hload in H. exact H.
  - exfalso. inversion Hall as [|? ? Ha Hall']; subst.
    inversion Hall' as [|? ? Hb Hall'']; subst.
    inversion Hall'' as [|? ? Hc _]; subst. tauto.
Qed.

Lemma C4_missing_column_witness :
  exists col,
    In col ["LAT"%string; "LONGITUDE"%string; "STATION_NUMBER"%string]
    /\ ~ In col (df_columns Demo.table)
    /\ main Demo.host (Demo.with_lat_col "LAT" Demo.args) Demo.world0
       = (fst (main_load Demo.host (Demo.with_lat_col "LAT" Demo.args) Demo.world0),
          Raised (KeyError ("Column '" ++ col ++ "' not found in CSV.")%string))
    /\ exists new,
         w_trace (fst (main_load Demo.host (Demo.with_lat_col "LAT" Demo.args) Demo.world0))
         = w_trace Demo.world0 ++ new
         /\ Forall (fun e => touches_gauges e = false) new.
Proof.
  refine (C4_missing_column Demo.host (Demo.with_lat_col "LAT" Demo.args) Demo.world0
            _ Demo.table _ _).
  - vm_compute. reflexivity.
  - left. simpl. intros [H|[H|[H|[]]]]; discriminate.
Defined.

Lemma keeps_fs_ret {A} (a : A) : keeps_fs (ret a).
Proof. intros w. reflexivity. Qed.

Lemma keeps_fs_raise {A} e : keeps_fs (@raise A e).
Proof. intros w. reflexivity. Qed.

Lemma keeps_fs_of_outcome {A} (o : outcome A) : keeps_fs (of_outcome o).
Proof. intros w. reflexivity. Qed.

Lemma keeps_fs_emit e : keeps_fs (emit e).
Proof. intros w. reflexivity. Qed.

Lemma keeps_fs_bind {A B} (m : M A) (k : A -> M B) :
  keeps_fs m -> (forall a, keeps_fs (k a)) -> keeps_fs (bind m k).
Proof.
  intros Hm Hk w. unfold bind. specialize (Hm w).
  destruct (m w) as [w1 [a|e]]; simpl in *; [rewrite Hk|]; exact Hm.
Qed.

(** what follows a call does not touch the files: they are as the call left them *)
Lemma keeps_fs_after {A B} (m : M A) (k : A -> M B) w :
  (forall a, keeps_fs (k a)) -> w_fs (fst (bind m k w)) = w_fs (fst (m w)).
Proof.
  intros Hk. unfold bind. destruct (m w) as [w1 [a|e]]; simpl; [apply Hk|reflexivity].
Qed.

Lemma keeps_fs_initialize host b p : keeps_fs (initialize host b p).
Proof.
  unfold initialize. apply keeps_fs_bind; [apply keeps_fs_emit|].
  intros _. destruct (ee_initialize host b _); [apply keeps_fs_raise|apply keeps_fs_ret].
Qed.

Lemma keeps_fs_authenticate host : keeps_fs (authenticate host).
Proof.
  unfold authenticate. apply keeps_fs_bind; [apply keeps_fs_emit|].
  intros _. destruct (ee_authenticate host); [apply keeps_fs_raise|apply keeps_fs_ret].
Qed.

Lemma keeps_fs_init_ee host p : keeps_fs (init_ee host p).
Proof.
  intros w. unfold init_ee.
  pose proof (keeps_fs_initialize host false p w) as H1.
  destruct (initialize host false p w) as [w1 [[]|e]]; simpl fst in *; [exact H1|].
  destruct (is_Exception e); [|exact H1].
  rewrite <- H1.
  apply (keeps_fs_bind (print MsgEeNotInitialized)); [apply keeps_fs_emit|].
  intros _. apply keeps_fs_bind; [apply keeps_fs_authenticate|].
  intros _. apply keeps_fs_initialize.
Qed.

Lemma keeps_fs_load_csv host p : keeps_fs (load_csv host p).
Proof.
  unfold load_csv. apply keeps_fs_bind; [apply keeps_fs_emit|]. intros _ w. reflexivity.
Qed.

Lemma keeps_fs_check_columns cols columns : keeps_fs (check_columns cols columns).
Proof.
  induction cols as [|c cols IH]; simpl; [apply keeps_fs_ret|].
  destruct (existsb _ columns); [exact IH|apply keeps_fs_raise].
Qed.

Lemma fs_after_sleep args w : w_fs (after_sleep args w) = w_fs w.
Proof. unfold after_sleep. destruct (0 <? sleep_sec args)%float; reflexivity. Qed.

Lemma keeps_fs_process_drive host args row cp :
  export_mode args = ee_drive -> keeps_fs (process_gauge_row host row args cp).
Proof.
  intros Hm w.
  destruct (gauge_of host args row) as [[[gid lat] lon]|] eqn:Hg.
  - rewrite (process_gauge_row_known _ _ _ cp _ _ _ w Hg).
    rewrite process_known_drive by exact Hm. cbv zeta.
    destruct (ee_start host _); reflexivity.
  - destruct (process_gauge_row_unknown host args row cp w Hg) as [e ->]. reflexivity.
Qed.

Lemma keeps_fs_main_loop_drive host args columns rows :
  export_mode args = ee_drive ->
  forall cp count, keeps_fs (main_loop host args columns rows cp count).
Proof.
  intros Hm. induction rows as [|row rest IH]; intros cp count w.
  - reflexivity.
  - rewrite main_loop_cons.
    pose proof (keeps_fs_process_drive host args (row_dict host columns row) cp Hm w) as Hp.
    destruct (process_gauge_row host _ args cp w) as [w1 [cp1|e]]; simpl fst in *; [|exact Hp].
    destruct (limit_reached _ _); [exact Hp|].
    rewrite IH, fs_after_sleep. exact Hp.
Qed.

Lemma emits_process_drive host args row cp :
  export_mode args = ee_drive ->
  emits (fun e => is_download e = false) (process_gauge_row host row args cp).
Proof.
  intros Hm w.
  destruct (gauge_of host args row) as [[[gid lat] lon]|] eqn:Hg.
  - rewrite (process_gauge_row_known _ _ _ cp _ _ _ w Hg).
    rewrite process_known_drive by exact Hm. cbv zeta.
    destruct (ee_start host _); simpl fst; rewrite ?log_log; apply emits_log;
      repeat constructor.
  - destruct (process_gauge_row_unknown host args row cp w Hg) as [e ->].
    exists []. rewrite app_nil_r. auto.
Qed.

Lemma emits_after_sleep args w :
  exists new, w_trace (after_sleep args w) = w_trace w ++ new
              /\ Forall (fun e => is_download e = false) new.
Proof.
  unfold after_sleep. destruct (0 <? sleep_sec args)%float.
  - apply emits_log. repeat constructor.
  - exists []. rewrite app_nil_r. auto.
Qed.

Lemma emits_main_loop_drive host args columns rows :
  export_mode args = ee_drive ->
  forall cp count,
    emits (fun e => is_download e = false) (main_loop host args columns rows cp count).
Proof.
  intros Hm. induction rows as [|row rest IH]; intros cp count w.
  - exists []. rewrite app_nil_r. auto.
  - rewrite main_loop_cons.
    pose proof (emits_process_drive host args (row_dict host columns row) cp Hm w) as Hp.
    destruct (process_gauge_row host _ args cp w) as [w1 [cp1|e]]; simpl fst in *; [|exact Hp].
    destruct (limit_reached _ _).
    + eapply emits_step; [exact Hp|]. apply emits_log. repeat constructor.
    + eapply emits_step; [exact Hp|]. eapply emits_step; [apply emits_after_sleep|]. apply IH.
Qed.

Lemma Forall_impl_touch new :
  Forall (fun e => touches_gauges e = false) new ->
  Forall (fun e => is_download e = false) new.
Proof.
  apply Forall_impl. intros e. destruct e as [[]| | | | | |]; simpl; congruence.
Qed.

(** C5: in remote mode the files after the run are the files before it --
    a file present at the end was present, with the same content, at the
    start, so no archive was written, whatever the queries answer and
    however the run ends.  The file system is as [ensure_dir] of the output
    directory left it, and nothing is downloaded from Earth Engine. *)
Theorem C5_remote_writes_no_archive host args w :
  export_mode args = ee_drive ->
  let w' := fst (main host args w) in
  w_fs w' = w_fs (fst (ensure_dir (out_dir args) w))
  /\ (forall cs c, FS.get cs (w_fs w') = Some (FS.File c)
                   <-> FS.get cs (w_fs w) = Some (FS.File c))
  /\ exists new, w_trace w' = w_trace w ++ new
                 /\ Forall (fun e => is_download e = false) new.
Proof.
  intros Hm w'.
  assert (Hfs : w_fs w' = w_fs (fst (ensure_dir (out_dir args) w))).
  { unfold w', main, main_load. rewrite bind_assoc. apply keeps_fs_after.
    intros _. apply keeps_fs_bind.
    - apply keeps_fs_bind; [apply keeps_fs_init_ee|]. intros _. apply keeps_fs_load_csv.
    - intros df. apply keeps_fs_bind; [apply keeps_fs_check_columns|].
      intros _. apply keeps_fs_bind; [apply keeps_fs_main_loop_drive, Hm|].
      intros r. rewrite Hm. apply keeps_fs_emit. }
  split; [exact Hfs|]. split.
  - intros cs c. rewrite Hfs. apply ensure_dir_files.
  - unfold w', main. apply (emits_bind (fun e => is_download e = false)).
    + intros w1. destruct (emits_main_load host args w1) as (new & E & F).
      exists new. split; [exact E|]. apply Forall_impl_touch, F.
    + intros df. apply emits_bind.
      * clear. induction [lat_col args; lon_col args; id_col args] as [|c cols IH]; simpl;
          [apply emits_ret|].
        destruct (existsb _ _); [exact IH|apply emits_raise].
      * intros _. apply emits_bind; [apply emits_main_loop_drive, Hm|].
        intros r. rewrite Hm. apply emits_emit. reflexivity.
Qed.

Lemma C5_remote_writes_no_archive_witness :
  let w' := fst (main Demo.host (Demo.with_mode ee_drive Demo.args) Demo.world0) in
  w_fs w' = w_fs (fst (ensure_dir "outputs" Demo.world0))
  /\ (forall cs c, FS.get cs (w_fs w') = Some (FS.File c)
                   <-> FS.get cs (w_fs Demo.world0) = Some (FS.File c))
  /\ exists new, w_trace w' = w_trace Demo.world0 ++ new
                 /\ Forall (fun e => is_download e = false) new.
Proof.
  exact (C5_remote_writes_no_archive Demo.host (Demo.with_mode ee_drive Demo.args)
           Demo.world0 eq_refl).
Defined.



(* ------------------------------------------------------------------ *)
(** * Strings *)

Lemma append_nil_r (s : string) : (s ++ "")%string = s.
Proof. induction s as [|a s IH]; simpl; [reflexivity|rewrite IH; reflexivity]. Qed.

Lemma append_assoc (a b c : string) : ((a ++ b) ++ c)%string = (a ++ (b ++ c))%string.
Proof. induction a as [|x a IH]; simpl; [reflexivity|rewrite IH; reflexivity]. Qed.

Lemma length_append (a b : string) :
  String.length (a ++ b) = (String.length a + String.length b)%nat.
Proof. induction a as [|x a IH]; simpl; [reflexivity|rewrite IH; reflexivity]. Qed.

Lemma append_inj_l (a b c : string) : (a ++ b)%string = (a ++ c)%string -> b = c.
Proof. induction a as [|x a IH]; simpl; intros H; [exact H|]. inversion H. auto. Qed.

Lemma append_inj_r (c : string) :
  forall a b : string, (a ++ c)%string = (b ++ c)%string -> a = b.
Proof.
  induction a as [|x a IH]; intros [|y b] H; simpl in *.
  - reflexivity.
  - exfalso. apply (f_equal String.length) in H. simpl in H. rewrite length_append in H. lia.
  - exfalso. apply (f_equal String.length) in H. simpl in H. rewrite length_append in H. lia.
  - inversion H. f_equal. apply IH. assumption.
Qed.

Lemma string_length_ind (P : string -> Prop) :
  (forall s, (forall t, (String.length t < String.length s)%nat -> P t) -> P s) ->
  forall s, P s.
Proof.
  intros H s. remember (String.length s) as n eqn:E. revert s E.
  induction n as [n IH] using lt_wf_ind. intros s ->. apply H.
  intros t Ht. apply (IH _ Ht). reflexivity.
Qed.

Lemma startswith_app_inv (p : string) :
  forall s, PyStr.startswith p s = true -> exists t, s = (p ++ t)%string.
Proof.
  induction p as [|a p IH]; intros s H; simpl in *.
  - exists s. reflexivity.
  - destruct s as [|b s]; [discriminate|].
    apply andb_true_iff in H. destruct H as [Hab Hs].
    apply Ascii.eqb_eq in Hab. subst b. destruct (IH _ Hs) as [t ->].
    exists t. reflexivity.
Qed.

Lemma startswith_app (p t : string) : PyStr.startswith p (p ++ t) = true.
Proof. induction p as [|a p IH]; simpl; [reflexivity|]. rewrite Ascii.eqb_refl. exact IH. Qed.

Lemma has_char_app ch (a b : string) :
  has_char ch (a ++ b) = has_char ch a || has_char ch b.
Proof.
  induction a as [|x a IH]; simpl; [reflexivity|]. rewrite IH, orb_assoc. reflexivity.
Qed.

(** ** [replace] *)

Lemma unzip_match (s : string) : unzip (".zip" ++ s) = unzip s.
Proof. reflexivity. Qed.

Lemma unzip_skip a (s : string) :
  PyStr.startswith ".zip" (String a s) = false ->
  unzip (String a s) = String a (unzip s).
Proof.
  intros H. unfold unzip, PyStr.replace.
  change (PyStr.replace_from ".zip" "" 0 (String a s))
    with (if PyStr.startswith ".zip" (String a s)
          then ("" ++ PyStr.replace_from ".zip" "" 3 s)%string
          else String a (PyStr.replace_from ".zip" "" 0 s)).
  rewrite H. reflexivity.
Qed.

Lemma startswith_zip_soft (x s : string) :
  soft_start s = true -> x <> EmptyString ->
  PyStr.startswith ".zip" (x ++ s) = PyStr.startswith ".zip" x.
Proof.
  intros Hs Hx.
  destruct x as [|a [|b [|c [|d x]]]]; [congruence| | | |reflexivity];
    (destruct s as [|e s]; [rewrite append_nil_r; reflexivity|]);
    simpl in Hs; apply negb_true_iff in Hs; apply orb_false_iff in Hs;
    destruct Hs as [Hs Hp]; apply orb_false_iff in Hs; destruct Hs as [Hz Hi];
    rewrite Ascii.eqb_sym in Hz, Hi, Hp;
    cbn -[Ascii.eqb]; rewrite ?Hz, ?Hi, ?Hp, ?andb_false_r; reflexivity.
Qed.

Lemma unzip_app (s : string) :
  soft_start s = true -> forall x, unzip (x ++ s) = (unzip x ++ unzip s)%string.
Proof.
  intros Hs x. induction x as [x IH] using string_length_ind.
  destruct x as [|a x']; [reflexivity|].
  destruct (PyStr.startswith ".zip" (String a x')) eqn:E.
  - destruct (startswith_app_inv _ _ E) as [t Ht]. rewrite Ht, append_assoc, !unzip_match.
    apply IH. rewrite Ht. simpl. lia.
  - rewrite unzip_skip by exact E.
    change (String a x' ++ s)%string with (String a (x' ++ s)).
    rewrite unzip_skip.
    + simpl. f_equal. apply IH. simpl. lia.
    + change (String a (x' ++ s)) with (String a x' ++ s)%string.
      rewrite startswith_zip_soft; [exact E|exact Hs|discriminate].
Qed.

Lemma has_char_unzip ch (s : string) :
  has_char ch s = false -> has_char ch (unzip s) = false.
Proof.
  induction s as [s IH] using string_length_ind. intros H.
  destruct s as [|a s']; [reflexivity|].
  destruct (PyStr.startswith ".zip" (String a s')) eqn:E.
  - destruct (startswith_app_inv _ _ E) as [t Ht]. rewrite Ht, unzip_match.
    apply IH; [rewrite Ht; simpl; lia|].
    rewrite Ht, has_char_app in H. apply orb_false_iff in H. apply H.
  - rewrite unzip_skip by exact E. simpl in *.
    apply orb_false_iff in H. destruct H as [H1 H2]. rewrite H1. simpl.
    apply IH; [lia|exact H2].
Qed.

(** ** [split] *)

Lemma split_not_nil sep s : PyStr.split sep s <> [].
Proof.
  destruct s as [|a s]; simpl; [discriminate|].
  destruct (Ascii.eqb a sep); [discriminate|]. destruct (PyStr.split sep s); discriminate.
Qed.

Lemma split_nosep sep s : has_char sep s = false -> PyStr.split sep s = [s].
Proof.
  induction s as [|a s IH]; simpl; intros H; [reflexivity|].
  apply orb_false_iff in H. destruct H as [H1 H2]. rewrite H1, (IH H2). reflexivity.
Qed.

Lemma split_app_sep sep (a b : string) :
  PyStr.split sep (a ++ String sep b) = PyStr.split sep a ++ PyStr.split sep b.
Proof.
  induction a as [|x a IH]; simpl.
  - rewrite Ascii.eqb_refl. reflexivity.
  - destruct (Ascii.eqb x sep); [rewrite IH; reflexivity|].
    rewrite IH. destruct (PyStr.split sep a) as [|h t] eqn:E; [|reflexivity].
    exfalso. exact (split_not_nil _ _ E).
Qed.

(** a string has no separator, or is a first component, a separator and a rest *)
Lemma split_cases sep s :
  (has_char sep s = false /\ PyStr.split sep s = [s])
  \/ exists h rest, s = (h ++ String sep rest)%string /\ has_char sep h = false
                    /\ PyStr.split sep s = h :: PyStr.split sep rest.
Proof.
  induction s as [|a s IH]; simpl.
  - left. auto.
  - destruct (Ascii.eqb_spec a sep) as [->|Hne].
    + right. exists EmptyString, s. auto.
    + destruct IH as [[H1 H2]|(h & rest & H1 & H2 & H3)].
      * left. rewrite H1, H2. auto.
      * right. exists (String a h), rest. rewrite H3. simpl.
        destruct (Ascii.eqb_spec a sep); [congruence|]. simpl. rewrite H1. auto.
Qed.

Lemma split_components sep s : Forall (fun c => has_char sep c = false) (PyStr.split sep s).
Proof.
  induction s as [|a s IH]; simpl; [repeat constructor|].
  destruct (Ascii.eqb a sep) eqn:E; [constructor; [reflexivity|exact IH]|].
  destruct (PyStr.split sep s) as [|h t]; [repeat constructor; simpl; rewrite E; reflexivity|].
  inversion IH; subst. constructor; [simpl; rewrite E; assumption|assumption].
Qed.

(** [replace] works component by component: a match holds no slash *)
Lemma split_unzip (s : string) :
  PyStr.split "/" (unzip s) = map unzip (PyStr.split "/" s).
Proof.
  induction s as [s IH] using string_length_ind.
  destruct (split_cases "/" s) as [[H1 H2]|(h & rest & H1 & H2 & H3)].
  - rewrite H2. simpl. apply split_nosep, has_char_unzip, H1.
  - rewrite H3, H1. rewrite (unzip_app (String "/" rest) eq_refl).
    rewrite unzip_skip by reflexivity. rewrite split_app_sep.
    rewrite (split_nosep "/" (unzip h)) by (apply has_char_unzip, H2).
    simpl. f_equal. apply IH. rewrite H1, length_append. simpl. lia.
Qed.

(** ** Suffixes *)

Lemma has_suffix_app suf (x : string) : has_suffix suf (x ++ suf) = true.
Proof.
  induction x as [|a x IH]; simpl.
  - destruct suf; simpl; rewrite ?String.eqb_refl, ?Ascii.eqb_refl; reflexivity.
  - rewrite IH. apply orb_true_r.
Qed.

Lemma has_suffix_inv suf (s : string) :
  has_suffix suf s = true -> exists x, s = (x ++ suf)%string.
Proof.
  induction s as [|a s IH]; simpl; intros H.
  - rewrite orb_false_r in H. destruct suf; [|discriminate]. exists EmptyString. reflexivity.
  - apply orb_true_iff in H. destruct H as [H|H].
    + exists EmptyString. simpl.
      change (String.eqb (String a s) suf = true) in H. apply String.eqb_eq in H. exact H.
    + destruct (IH H) as [x ->]. exists (String a x). reflexivity.
Qed.

Lemma last_char_app (x : string) a (s : string) :
  PyStr.last_char (x ++ String a s) = PyStr.last_char (String a s).
Proof.
  induction x as [|b x IH]; [reflexivity|].
  change (String b x ++ String a s)%string with (String b (x ++ String a s)).
  destruct (x ++ String a s)%string as [|c t] eqn:E; [destruct x; discriminate|].
  exact IH.
Qed.

Lemma last_char_none (s : string) : PyStr.last_char s = None -> s = EmptyString.
Proof.
  induction s as [|a s IH]; [reflexivity|]. simpl. destruct s; [discriminate|].
  intros H. specialize (IH H). discriminate.
Qed.

Lemma last_char_inv (s : string) c :
  PyStr.last_char s = Some c -> exists s', s = (s' ++ String c "")%string.
Proof.
  induction s as [|a s IH]; [discriminate|].
  destruct s as [|b s]; simpl.
  - intros H. inversion H. exists EmptyString. reflexivity.
  - intros H. destruct (IH H) as [s' Hs]. exists (String a s'). simpl. rewrite <- Hs. reflexivity.
Qed.

Lemma good_app (x : string) : good (x ++ "_subbasins") = true.
Proof. apply has_suffix_app. Qed.

Lemma good_zip (x : string) : good (x ++ "_subbasins.zip") = false.
Proof.
  destruct (good (x ++ "_subbasins.zip")) eqn:E; [|reflexivity].
  apply has_suffix_inv in E. destruct E as [y Hy].
  apply (f_equal PyStr.last_char) in Hy. rewrite !last_char_app in Hy. discriminate.
Qed.

Lemma good_empty : good "" = false.
Proof. reflexivity. Qed.

Lemma good_unzip c : good c = true -> good (unzip c) = true.
Proof.
  intros H. apply has_suffix_inv in H. destruct H as [x ->].
  rewrite (unzip_app "_subbasins" eq_refl). apply good_app.
Qed.

Lemma good_kept c : good c = true -> kept c = true.
Proof.
  intros H. apply has_suffix_inv in H. destruct H as [x ->].
  unfold kept. destruct x as [|a [|b x]]; [reflexivity| |];
    cbn -[Ascii.eqb]; destruct (Ascii.eqb a "."); reflexivity.
Qed.

(** ** Counting *)

Lemma count_good_app a b : count_good (a ++ b) = (count_good a + count_good b)%nat.
Proof. unfold count_good. rewrite filter_app, length_app. reflexivity. Qed.

Lemma count_good_kept l : count_good (filter kept l) = count_good l.
Proof.
  unfold count_good. induction l as [|c l IH]; simpl; [reflexivity|].
  destruct (kept c) eqn:K; simpl.
  - destruct (good c); simpl; rewrite IH; reflexivity.
  - destruct (good c) eqn:G; [|exact IH]. apply good_kept in G. congruence.
Qed.

Lemma count_good_unzip l : (count_good l <= count_good (map unzip l))%nat.
Proof.
  unfold count_good. induction l as [|c l IH]; simpl; [lia|].
  destruct (good c) eqn:G.
  - rewrite (good_unzip _ G). simpl. lia.
  - destruct (good (unzip c)); simpl; lia.
Qed.

Lemma count_good_prefix a b : is_prefix a b -> (count_good a <= count_good b)%nat.
Proof. intros [r ->]. rewrite count_good_app. lia. Qed.

(** ** [join] and the components *)

Lemma split_join out x :
  PyStr.startswith "/" x = false ->
  exists l, PyStr.split "/" (PosixPath.join out x) = l ++ PyStr.split "/" x
            /\ (PyStr.split "/" out = l \/ PyStr.split "/" out = l ++ [EmptyString]).
Proof.
  intros Hx. unfold PosixPath.join, PosixPath.sep. rewrite Hx.
  destruct (PyStr.last_char out) as [c|] eqn:E.
  - destruct (Ascii.eqb_spec c "/") as [->|Hc].
    + destruct (last_char_inv _ _ E) as [o' ->]. exists (PyStr.split "/" o').
      rewrite append_assoc. simpl. rewrite !split_app_sep. simpl. auto.
    + exists (PyStr.split "/" out). simpl. rewrite split_app_sep. auto.
  - apply last_char_none in E. subst out. exists []. simpl. auto.
Qed.

Lemma count_good_join out x :
  PyStr.startswith "/" x = false ->
  count_good (PyStr.split "/" (PosixPath.join out x))
  = (count_good (PyStr.split "/" out) + count_good (PyStr.split "/" x))%nat
  /\ count_good (map unzip (PyStr.split "/" (PosixPath.join out x)))
     = (count_good (map unzip (PyStr.split "/" out))
        + count_good (map unzip (PyStr.split "/" x)))%nat.
Proof.
  intros Hx. destruct (split_join out x Hx) as (l & -> & [-> | ->]);
    rewrite ?map_app, !count_good_app; simpl map;
    change (unzip EmptyString) with EmptyString;
    change (count_good [EmptyString]) with 0%nat; split; lia.
Qed.

Lemma split_app_nosep sep (s : string) :
  has_char sep s = false ->
  forall x, exists pre lst, PyStr.split sep x = pre ++ [lst]
                            /\ PyStr.split sep (x ++ s) = pre ++ [(lst ++ s)%string].
Proof.
  intros Hs x. induction x as [|a x IH]; simpl.
  - exists [], EmptyString. simpl. rewrite split_nosep by exact Hs. auto.
  - destruct IH as (pre & lst & E1 & E2). rewrite E1, E2.
    destruct (Ascii.eqb a sep).
    + exists (EmptyString :: pre), lst. auto.
    + destruct pre as [|h t]; simpl.
      * exists [], (String a lst). auto.
      * exists (String a h :: t), lst. auto.
Qed.

Lemma zip_name_start gid : PyStr.startswith "/" (zip_name gid) = false.
Proof. reflexivity. Qed.

(** the last component of an archive name gains the mark of a temporary
    directory when [".zip"] is cut out *)
Lemma count_good_zip_name gid :
  (count_good (PyStr.split "/" (zip_name gid)) + 1
   <= count_good (map unzip (PyStr.split "/" (zip_name gid))))%nat.
Proof.
  unfold zip_name.
  replace ("gauge_" ++ gid ++ "_subbasins.zip")%string
    with (("gauge_" ++ gid) ++ "_subbasins.zip")%string by (rewrite append_assoc; reflexivity).
  destruct (split_app_nosep "/" "_subbasins.zip" eq_refl ("gauge_" ++ gid)%string)
    as (pre & lst & _ & ->).
  rewrite map_app, !count_good_app. simpl map.
  pose proof (count_good_unzip pre).
  unfold count_good at 2 4. simpl filter.
  rewrite good_zip, (unzip_app "_subbasins.zip" eq_refl).
  change (unzip "_subbasins.zip") with "_subbasins"%string. rewrite good_app. simpl. lia.
Qed.

Lemma good_zip_name gid : good (zip_name gid) = false.
Proof.
  unfold zip_name.
  replace ("gauge_" ++ gid ++ "_subbasins.zip")%string
    with (("gauge_" ++ gid) ++ "_subbasins.zip")%string by (rewrite append_assoc; reflexivity).
  apply good_zip.
Qed.

Lemma count_good_zip_name_plain gid :
  has_char "/" gid = false -> count_good (PyStr.split "/" (zip_name gid)) = 0%nat.
Proof.
  intros H. rewrite split_nosep.
  - unfold count_good. cbn [filter]. rewrite good_zip_name. reflexivity.
  - unfold zip_name. rewrite !has_char_app, H. reflexivity.
Qed.

(** ** What [resolve] answers *)

Lemma resolve_inv p cs :
  Os.resolve p = Some cs ->
  cs = filter kept (PyStr.split "/" p) /\ existsb (String.eqb "..") cs = false.
Proof.
  unfold Os.resolve. destruct (String.eqb p ""); [discriminate|].
  fold kept. change PosixPath.sep with "/"%char.
  destruct (existsb _ _) eqn:E; [discriminate|].
  intros H. inversion H; subst. auto.
Qed.

(** [out_zip] is not inside the temporary directory named after it, nor is
    the archive of a gauge with a plain id inside that of any gauge. *)
Lemma zip_outside_tmp out gid_a gid_b pa tb :
  gid_a = gid_b \/ has_char "/" gid_a = false ->
  Os.resolve (PosixPath.join out (zip_name gid_a)) = Some pa ->
  Os.resolve (unzip (PosixPath.join out (zip_name gid_b))) = Some tb ->
  ~ is_prefix tb pa.
Proof.
  intros Hab Ha Hb Hpre.
  apply resolve_inv in Ha, Hb. destruct Ha as [-> _], Hb as [-> _].
  apply count_good_prefix in Hpre. rewrite split_unzip, !count_good_kept in Hpre.
  destruct (count_good_join out (zip_name gid_a) (zip_name_start _)) as [Ea _].
  destruct (count_good_join out (zip_name gid_b) (zip_name_start _)) as [_ Eb].
  rewrite Ea, Eb in Hpre.
  pose proof (count_good_unzip (PyStr.split "/" out)).
  pose proof (count_good_zip_name gid_b).
  destruct Hab as [->|Hplain]; [lia|].
  rewrite (count_good_zip_name_plain _ Hplain) in Hpre. lia.
Qed.

(* ------------------------------------------------------------------ *)
(** * The file system: trees *)

Lemma node_induction (P : FS.node -> Prop) :
  (forall c, P (FS.File c)) ->
  (forall kids, Forall (fun e => P (snd e)) kids -> P (FS.Dir kids)) ->
  forall n, P n.
Proof.
  intros Hf Hd. fix IH 1. intros [c|kids].
  - apply Hf.
  - apply Hd. induction kids as [|e kids IHk]; constructor; [apply IH|exact IHk].
Qed.

Lemma get_app a b n :
  FS.get (a ++ b) n = match FS.get a n with Some m => FS.get b m | None => None end.
Proof.
  revert n. induction a as [|c a IH]; intros n; simpl; [reflexivity|].
  destruct n as [|kids]; [reflexivity|]. destruct (FS.kids_get c kids); [apply IH|reflexivity].
Qed.

Lemma get_nil_kids q : q <> [] -> FS.get q (FS.Dir []) = None.
Proof. destruct q; [congruence|reflexivity]. Qed.

(** ** [alter_dir] *)

Lemma alter_dir_target p f : forall ds root root',
  FS.alter_dir p ds f root = Returned root' ->
  exists kids kids', FS.get ds root = Some (FS.Dir kids) /\ f kids = Returned kids'
                     /\ FS.get ds root' = Some (FS.Dir kids').
Proof.
  induction ds as [|d ds IH]; intros [c|kids] root' H; simpl in H; try discriminate.
  - destruct (f kids) as [kids'|] eqn:E; [|discriminate]. injection H as <-. exists kids, kids'. auto.
  - destruct (FS.kids_get d kids) as [k|] eqn:Ek; [|discriminate].
    destruct (FS.alter_dir p ds f k) as [k'|] eqn:Ea; [|discriminate]. injection H as <-.
    destruct (IH _ _ Ea) as (ks & ks' & H1 & H2 & H3). exists ks, ks'.
    rewrite !get_cons, Ek, kids_get_set_same. auto.
Qed.

(** A file keeps being a file, with a content [P] holds of, when the
    listing changed keeps it so. *)
Lemma alter_dir_file p f c (P : FS.content -> Prop) : forall ds root root' q,
  FS.alter_dir p ds f root = Returned root' ->
  FS.get q root = Some (FS.File c) ->
  P c ->
  (forall kids kids' q',
      FS.get ds root = Some (FS.Dir kids) -> f kids = Returned kids' -> q = ds ++ q' ->
      exists c', FS.get q' (FS.Dir kids') = Some (FS.File c') /\ P c') ->
  exists c', FS.get q root' = Some (FS.File c') /\ P c'.
Proof.
  induction ds as [|d ds IH]; intros [c0|kids] root' q H Hq Hc Hf; simpl in H; try discriminate.
  - destruct (f kids) as [kids'|] eqn:E; [|discriminate]. injection H as <-.
    apply (Hf kids kids' q); auto.
  - destruct (FS.kids_get d kids) as [k|] eqn:Ek; [|discriminate].
    destruct (FS.alter_dir p ds f k) as [k'|] eqn:Ea; [|discriminate]. injection H as <-.
    destruct q as [|x q]; [discriminate|]. cbn [FS.get] in *.
    destruct (String.eqb_spec x d) as [->|Hx].
    + rewrite kids_get_set_same. rewrite Ek in Hq.
      apply (IH _ _ _ Ea Hq Hc). intros ks ks' q' H1 H2 H3.
      apply (Hf ks ks' q'); [rewrite Ek; exact H1|exact H2|rewrite H3; reflexivity].
    + rewrite kids_get_set_other by exact Hx. exists c. auto.
Qed.

Lemma existsb_eqb_In x l : existsb (String.eqb x) l = true <-> In x l.
Proof.
  rewrite existsb_exists. split.
  - intros (y & Hy & E). apply String.eqb_eq in E. subst y. exact Hy.
  - intros H. exists x. split; [exact H|apply String.eqb_refl].
Qed.

Lemma existsb_eqb_notin x l : existsb (String.eqb x) l = false <-> ~ In x l.
Proof.
  rewrite <- existsb_eqb_In. destruct (existsb (String.eqb x) l); split; congruence.
Qed.


Lemma names_kids_set name n kids :
  map fst (FS.kids_set name n kids)
  = if existsb (String.eqb name) (map fst kids) then map fst kids
    else map fst kids ++ [name].
Proof.
  induction kids as [|[k m] kids IH]; simpl; [reflexivity|].
  rewrite (String.eqb_sym name k).
  destruct (String.eqb k name); simpl; [reflexivity|].
  rewrite IH. destruct (existsb _ _); reflexivity.
Qed.

Lemma distinct_snoc l x : distinct l = true -> ~ In x l -> distinct (l ++ [x]) = true.
Proof.
  induction l as [|y l IH]; simpl; intros H Hx; [reflexivity|].
  apply andb_true_iff in H. destruct H as [H1 H2]. apply negb_true_iff in H1.
  rewrite IH by tauto. rewrite andb_true_r. apply negb_true_iff.
  apply existsb_eqb_notin. rewrite in_app_iff. intros [Hin|[E|[]]].
  - apply existsb_eqb_notin in H1. tauto.
  - subst. tauto.
Qed.

Lemma distinct_filter (f : string * FS.node -> bool) kids :
  distinct (map fst kids) = true -> distinct (map fst (filter f kids)) = true.
Proof.
  induction kids as [|e kids IH]; simpl; intros H; [reflexivity|].
  apply andb_true_iff in H. destruct H as [H1 H2]. apply negb_true_iff in H1.
  destruct (f e); simpl; [|apply IH, H2].
  rewrite (IH H2), andb_true_r. apply negb_true_iff. apply existsb_eqb_notin.
  apply existsb_eqb_notin in H1. intros Hin. apply H1.
  apply in_map_iff in Hin. destruct Hin as (y & Hy & Hyl). apply filter_In in Hyl.
  apply in_map_iff. exists y. tauto.
Qed.

Lemma distinct_kids_set name n kids :
  distinct (map fst kids) = true -> distinct (map fst (FS.kids_set name n kids)) = true.
Proof.
  intros H. rewrite names_kids_set.
  destruct (existsb (String.eqb name) (map fst kids)) eqn:E; [exact H|].
  apply distinct_snoc; [exact H|]. apply existsb_eqb_notin, E.
Qed.

Lemma forallb_kids_set name n kids :
  valid_name name = true -> wf_node n = true -> wf_node (FS.Dir kids) = true ->
  wf_node (FS.Dir (FS.kids_set name n kids)) = true.
Proof.
  intros Hn Hw H. simpl in *. apply andb_true_iff in H. destruct H as [Hd H].
  rewrite (distinct_kids_set _ _ _ Hd). simpl. clear Hd.
  induction kids as [|[k m] kids IH]; simpl in *.
  - rewrite Hn, Hw. reflexivity.
  - apply andb_true_iff in H. destruct H as [H1 H2].
    destruct (String.eqb_spec k name) as [->|Hk]; simpl.
    + rewrite Hn, Hw, H2. reflexivity.
    + rewrite H1. simpl. apply IH, H2.
Qed.

Lemma forallb_kids_del name kids :
  wf_node (FS.Dir kids) = true -> wf_node (FS.Dir (FS.kids_del name kids)) = true.
Proof.
  simpl. unfold FS.kids_del. intros H. apply andb_true_iff in H. destruct H as [Hd H].
  rewrite (distinct_filter _ _ Hd). simpl. clear Hd.
  induction kids as [|e kids IH]; simpl in *; [reflexivity|].
  apply andb_true_iff in H. destruct H as [H1 H2].
  destruct (negb _); simpl; [rewrite H1; simpl|]; apply IH, H2.
Qed.

Lemma wf_kids_get name kids k :
  wf_node (FS.Dir kids) = true -> FS.kids_get name kids = Some k ->
  valid_name name = true /\ wf_node k = true.
Proof.
  simpl. intros H. apply andb_true_iff in H. destruct H as [_ H].
  induction kids as [|[x m] kids IH]; simpl in *; intros Hk; [discriminate|].
  apply andb_true_iff in H. destruct H as [H1 H2]. apply andb_true_iff in H1.
  destruct (String.eqb_spec x name) as [->|Hx].
  - inversion Hk; subst. exact H1.
  - apply IH; assumption.
Qed.


Lemma alter_dir_wf p f : forall ds root root',
  FS.alter_dir p ds f root = Returned root' ->
  wf_node root = true ->
  (forall kids kids', wf_node (FS.Dir kids) = true -> f kids = Returned kids' ->
                      wf_node (FS.Dir kids') = true) ->
  wf_node root' = true.
Proof.
  induction ds as [|d ds IH]; intros [c0|kids] root' H Hw Hf; simpl in H; try discriminate.
  - destruct (f kids) as [kids'|] eqn:E; [|discriminate]. injection H as <-. eapply Hf; eauto.
  - destruct (FS.kids_get d kids) as [k|] eqn:Ek; [|discriminate].
    destruct (FS.alter_dir p ds f k) as [k'|] eqn:Ea; [|discriminate]. injection H as <-.
    destruct (wf_kids_get _ _ _ Hw Ek) as [Hv Hk].
    apply forallb_kids_set; auto. eapply IH; eauto.
Qed.

Lemma path_split (cs : list string) :
  cs <> [] -> cs = removelast cs ++ [last cs EmptyString].
Proof. apply app_removelast_last. Qed.

Lemma forallb_last cs :
  cs <> [] -> forallb valid_name cs = true -> valid_name (last cs EmptyString) = true.
Proof.
  intros Hne H. rewrite (path_split cs Hne), forallb_app in H.
  apply andb_true_iff in H. destruct H as [_ H]. simpl in H.
  rewrite andb_true_r in H. exact H.
Qed.

(** ** Writing a file *)

Lemma write_file_target p cs c root root' :
  FS.write_file p cs c root = Returned root' -> FS.get cs root' = Some (FS.File c).
Proof.
  unfold FS.write_file. destruct cs as [|c0 cs0] eqn:Ecs; [discriminate|].
  rewrite <- Ecs. assert (Hne : cs <> []) by (rewrite Ecs; discriminate).
  intros H. apply alter_dir_target in H. destruct H as (kids & kids' & H1 & H2 & H3).
  rewrite (path_split cs Hne) at 1. rewrite get_app, H3. simpl.
  destruct (FS.kids_get (last cs "") kids) as [[c1|ks]|]; try discriminate;
    injection H2 as <-; rewrite kids_get_set_same; reflexivity.
Qed.

Lemma write_file_files p cs c root root' q c0 :
  FS.write_file p cs c root = Returned root' ->
  FS.get q root = Some (FS.File c0) ->
  exists c1, FS.get q root' = Some (FS.File c1) /\ (q <> cs -> c1 = c0).
Proof.
  unfold FS.write_file. destruct cs as [|x0 cs0] eqn:Ecs; [discriminate|].
  rewrite <- Ecs. assert (Hne : cs <> []) by (rewrite Ecs; discriminate). clear Ecs.
  intros H Hq.
  apply (alter_dir_file p _ c0 (fun c1 => q <> cs -> c1 = c0) _ _ _ q H Hq); [auto|].
  intros kids kids' q' Hd Hf Hq'.
  rewrite Hq', get_app, Hd in Hq.
  destruct q' as [|x q'']; [discriminate|]. cbn [FS.get] in *.
  destruct (String.eqb_spec x (last cs "")) as [->|Hx].
  - destruct (FS.kids_get (last cs "") kids) as [[c1|ks]|]; try discriminate.
    injection Hf as <-. rewrite kids_get_set_same.
    apply get_file_inv in Hq. destruct Hq as [-> _]. exists c. split; [reflexivity|].
    intros Hne'. exfalso. apply Hne'. rewrite Hq'. symmetry. apply path_split, Hne.
  - assert (Hk : FS.kids_get x kids' = FS.kids_get x kids).
    { destruct (FS.kids_get (last cs "") kids) as [[c1|ks]|]; try discriminate;
        injection Hf as <-; apply kids_get_set_other, Hx. }
    rewrite Hk. exists c0. auto.
Qed.

Lemma write_file_wf p cs c root root' :
  FS.write_file p cs c root = Returned root' ->
  forallb valid_name cs = true -> wf_node root = true -> wf_node root' = true.
Proof.
  unfold FS.write_file. destruct cs as [|x0 cs0] eqn:Ecs; [discriminate|].
  rewrite <- Ecs. assert (Hne : cs <> []) by (rewrite Ecs; discriminate). clear Ecs.
  intros H Hv Hw. apply (alter_dir_wf _ _ _ _ _ H Hw).
  intros kids kids' Hk Hf.
  assert (kids' = FS.kids_set (last cs "") (FS.File c) kids)
    by (destruct (FS.kids_get (last cs "") kids) as [[c1|ks]|]; try discriminate;
        injection Hf as <-; reflexivity).
  subst kids'. apply forallb_kids_set; auto. apply forallb_last; assumption.
Qed.

(** ** Removing a file, removing an empty directory *)

Lemma remove_files p cs root root' q c0 :
  FS.remove p cs root = Returned root' ->
  FS.get q root = Some (FS.File c0) -> q <> cs ->
  FS.get q root' = Some (FS.File c0).
Proof.
  unfold FS.remove. destruct cs as [|x0 cs0] eqn:Ecs; [discriminate|].
  rewrite <- Ecs. assert (Hne : cs <> []) by (rewrite Ecs; discriminate). clear Ecs.
  intros H Hq Hqcs.
  destruct (alter_dir_file p _ c0 (fun c1 => c1 = c0) _ _ _ q H Hq eq_refl) as (c1 & H1 & ->);
    [|exact H1].
  intros kids kids' q' Hd Hf Hq'.
  rewrite Hq', get_app, Hd in Hq.
  destruct q' as [|x q'']; [discriminate|]. cbn [FS.get] in *.
  destruct (FS.kids_get (last cs "") kids) as [[c1|ks]|] eqn:Ek; try discriminate.
  injection Hf as <-.
  destruct (String.eqb_spec x (last cs "")) as [->|Hx].
  - rewrite Ek in Hq. apply get_file_inv in Hq. destruct Hq as [-> _].
    exfalso. apply Hqcs. rewrite Hq'. symmetry. apply path_split, Hne.
  - rewrite kids_get_del_other by exact Hx. exists c0. auto.
Qed.

Lemma remove_wf p cs root root' :
  FS.remove p cs root = Returned root' -> wf_node root = true -> wf_node root' = true.
Proof.
  unfold FS.remove. destruct cs as [|x0 cs0] eqn:Ecs; [discriminate|].
  rewrite <- Ecs. clear Ecs. intros H Hw. apply (alter_dir_wf _ _ _ _ _ H Hw).
  intros kids kids' Hk Hf.
  destruct (FS.kids_get (last cs "") kids) as [[c1|ks]|]; try discriminate.
  injection Hf as <-. apply forallb_kids_del, Hk.
Qed.

Lemma rmdir_files p cs root root' q c0 :
  FS.rmdir p cs root = Returned root' ->
  FS.get q root = Some (FS.File c0) ->
  FS.get q root' = Some (FS.File c0).
Proof.
  unfold FS.rmdir. destruct cs as [|x0 cs0] eqn:Ecs; [discriminate|].
  rewrite <- Ecs. clear Ecs. intros H Hq.
  destruct (alter_dir_file p _ c0 (fun c1 => c1 = c0) _ _ _ q H Hq eq_refl) as (c1 & H1 & ->);
    [|exact H1].
  intros kids kids' q' Hd Hf Hq'.
  rewrite Hq', get_app, Hd in Hq.
  destruct q' as [|x q'']; [discriminate|]. cbn [FS.get] in *.
  destruct (FS.kids_get (last cs "") kids) as [[c1|[|e ks]]|] eqn:Ek; try discriminate.
  injection Hf as <-.
  destruct (String.eqb_spec x (last cs "")) as [->|Hx].
  - rewrite Ek in Hq. destruct q''; discriminate.
  - rewrite kids_get_del_other by exact Hx. exists c0. auto.
Qed.

Lemma rmdir_gone p cs root root' :
  FS.rmdir p cs root = Returned root' -> FS.get cs root' = None.
Proof.
  unfold FS.rmdir. destruct cs as [|x0 cs0] eqn:Ecs; [discriminate|].
  rewrite <- Ecs. assert (Hne : cs <> []) by (rewrite Ecs; discriminate). clear Ecs.
  intros H. apply alter_dir_target in H. destruct H as (kids & kids' & H1 & H2 & H3).
  rewrite (path_split cs Hne) at 1. rewrite get_app, H3. simpl.
  destruct (FS.kids_get (last cs "") kids) as [[c1|[|e ks]]|]; try discriminate.
  injection H2 as <-. rewrite kids_get_del_same. reflexivity.
Qed.

Lemma rmdir_wf p cs root root' :
  FS.rmdir p cs root = Returned root' -> wf_node root = true -> wf_node root' = true.
Proof.
  unfold FS.rmdir. destruct cs as [|x0 cs0] eqn:Ecs; [discriminate|].
  rewrite <- Ecs. clear Ecs. intros H Hw. apply (alter_dir_wf _ _ _ _ _ H Hw).
  intros kids kids' Hk Hf.
  destruct (FS.kids_get (last cs "") kids) as [[c1|[|e ks]]|]; try discriminate.
  injection Hf as <-. apply forallb_kids_del, Hk.
Qed.

(** ** Making directories *)

Lemma mkdir_wf p cs root root' :
  FS.mkdir p cs root = Returned root' ->
  forallb valid_name cs = true -> wf_node root = true -> wf_node root' = true.
Proof.
  unfold FS.mkdir. destruct cs as [|x0 cs0] eqn:Ecs; [discriminate|].
  rewrite <- Ecs. assert (Hne : cs <> []) by (rewrite Ecs; discriminate). clear Ecs.
  intros H Hv Hw. apply (alter_dir_wf _ _ _ _ _ H Hw).
  intros kids kids' Hk Hf.
  destruct (FS.kids_get (last cs "") kids); [discriminate|]. injection Hf as <-.
  apply forallb_kids_set; auto. apply forallb_last; assumption.
Qed.

(** ** Paths as the script spells them *)

Lemma split_kept_valid p cs :
  Os.resolve p = Some cs -> forallb valid_name cs = true.
Proof.
  intros H. apply resolve_inv in H. destruct H as [Hcs Hdd].
  apply forallb_forall. intros c Hc. unfold valid_name.
  assert (Hk : kept c = true /\ has_char "/" c = false).
  { rewrite Hcs in Hc. apply filter_In in Hc. destruct Hc as [Hc Hk]. split; [exact Hk|].
    pose proof (split_components "/" p) as F. rewrite Forall_forall in F. apply F, Hc. }
  destruct Hk as [-> ->]. simpl. rewrite andb_true_r. apply negb_true_iff.
  destruct (String.eqb_spec c "..") as [->|]; [|reflexivity].
  exfalso. assert (existsb (String.eqb "..") cs = true); [|congruence].
  apply existsb_exists. exists ".."%string. auto.
Qed.

Lemma at_path_returned op p w w' :
  Os.at_path op p w = (w', Returned tt) ->
  exists cs, Os.resolve p = Some cs /\ op p cs (w_fs w) = Returned (w_fs w')
             /\ w_trace w' = w_trace w.
Proof.
  unfold Os.at_path. destruct (Os.resolve p) as [cs|]; [|discriminate].
  unfold on_fs. destruct (op p cs (w_fs w)) as [fs'|] eqn:E; [|discriminate].
  intros H. injection H as <-. exists cs. auto.
Qed.

Lemma valid_name_inv x :
  valid_name x = true ->
  kept x = true /\ x <> ".."%string /\ has_char "/" x = false.
Proof.
  unfold valid_name. intros H. apply andb_true_iff in H. destruct H as [H H3].
  apply andb_true_iff in H. destruct H as [H1 H2].
  apply negb_true_iff in H2, H3. apply String.eqb_neq in H2. auto.
Qed.

Lemma startswith_slash x : has_char "/" x = false -> PyStr.startswith "/" x = false.
Proof.
  destruct x as [|a x]; [reflexivity|]. cbn -[Ascii.eqb]. intros H.
  apply orb_false_iff in H. destruct H as [H _]. rewrite Ascii.eqb_sym, H. reflexivity.
Qed.

Lemma filter_kept_tail l :
  filter kept (l ++ [EmptyString]) = filter kept l.
Proof. rewrite filter_app. simpl. apply app_nil_r. Qed.

(** a valid name joined to a path is one more component *)
Lemma resolve_join root cs x :
  Os.resolve root = Some cs -> valid_name x = true ->
  Os.resolve (PosixPath.join root x) = Some (cs ++ [x]).
Proof.
  intros Hr Hx. apply valid_name_inv in Hx. destruct Hx as (Hk & Hdd & Hs).
  apply resolve_inv in Hr. destruct Hr as [Hcs Hno].
  destruct (split_join root x (startswith_slash _ Hs)) as (l & Hl & Hroot).
  rewrite (split_nosep _ _ Hs) in Hl.
  assert (Hcs' : filter kept l = cs).
  { destruct Hroot as [E|E]; rewrite E in Hcs; rewrite Hcs, ?filter_kept_tail; reflexivity. }
  unfold Os.resolve. fold kept. change PosixPath.sep with "/"%char.
  destruct (String.eqb_spec (PosixPath.join root x) "") as [E|_].
  - exfalso. rewrite E in Hl. simpl in Hl. destruct l as [|? [|? ?]]; simpl in Hl; try discriminate.
    injection Hl as <-. discriminate.
  - rewrite Hl, filter_app. cbn [filter]. rewrite Hk, Hcs', existsb_app, Hno. cbn [existsb orb].
    destruct (String.eqb_spec ".." x); [congruence|reflexivity].
Qed.

Lemma wf_get : forall cs root n,
  wf_node root = true -> FS.get cs root = Some n -> wf_node n = true.
Proof.
  induction cs as [|c cs IH]; intros root n Hw H; simpl in H.
  - injection H as <-. exact Hw.
  - destruct root as [|kids]; [discriminate|].
    destruct (FS.kids_get c kids) as [k|] eqn:Ek; [|discriminate].
    apply (IH k n); [|exact H]. apply (wf_kids_get _ _ _ Hw Ek).
Qed.

(** ** [os.walk] *)

(** the entry a name of the listing stands for *)
Lemma kids_get_some name kids n :
  FS.kids_get name kids = Some n -> In (name, n) kids.
Proof.
  induction kids as [|[k m] kids IH]; simpl; intros H; [discriminate|].
  destruct (String.eqb_spec k name) as [->|Hk].
  - injection H as <-. left. reflexivity.
  - right. apply IH, H.
Qed.

Lemma names_valid order kids :
  wf_node (FS.Dir kids) = true ->
  forallb valid_name (FS.dirnames order kids) = true
  /\ forallb valid_name (FS.filenames order kids) = true.
Proof.
  intros Hw. unfold FS.dirnames, FS.filenames.
  split; apply forallb_forall; intros x Hx; apply filter_In in Hx; destruct Hx as [_ Hx].
  - unfold FS.names_dir in Hx. destruct (FS.kids_get x kids) as [k|] eqn:E; [|discriminate].
    apply (wf_kids_get _ _ _ Hw E).
  - unfold FS.names_file in Hx. destruct (FS.kids_get x kids) as [k|] eqn:E; [|discriminate].
    apply (wf_kids_get _ _ _ Hw E).
Qed.

(** the walk of a sub-directory is the walk of the entry called so *)
Lemma sub_walk_get {T} (f : string * FS.node -> list T) d kids :
  FS.sub_walk d (map (fun e => (fst e, f e)) kids)
  = match FS.kids_get d kids with
    | Some _ =>
        match find (fun e => String.eqb (fst e) d) kids with
        | Some e => f e
        | None => []
        end
    | None => []
    end.
Proof.
  unfold FS.sub_walk. induction kids as [|[k m] kids IH]; simpl; [reflexivity|].
  destruct (String.eqb k d); [reflexivity|exact IH].
Qed.

Lemma sub_walk_in {T} (f : string * FS.node -> list T) d kids t :
  In t (FS.sub_walk d (map (fun e => (fst e, f e)) kids)) ->
  exists n, In (d, n) kids /\ FS.kids_get d kids = Some n /\ In t (f (d, n)).
Proof.
  unfold FS.sub_walk. induction kids as [|[k m] kids IH]; simpl; [contradiction|].
  destruct (String.eqb_spec k d) as [->|Hk].
  - simpl. intros H. exists m. auto.
  - intros H. destruct (IH H) as (n & H1 & H2 & H3). exists n. auto.
Qed.

Lemma walk_below order td : forall n top tcs,
  wf_node n = true -> Os.resolve top = Some tcs ->
  Forall (below_top tcs) (FS.walk order td top n).
Proof.
  induction n as [c|kids IH] using node_induction; intros top tcs Hw Ht; [constructor|].
  assert (Hhere : below_top tcs (top, FS.dirnames order kids, FS.filenames order kids)).
  { exists []. rewrite app_nil_r. destruct (names_valid order kids Hw). auto. }
  assert (Hbelow : Forall (below_top tcs)
            (flat_map (fun d => FS.sub_walk d
                         (map (fun e => (fst e,
                                         FS.walk order td (PosixPath.join top (fst e)) (snd e)))
                              kids))
                      (FS.dirnames order kids))).
  { apply Forall_forall. intros t Hin. apply in_flat_map in Hin.
    destruct Hin as (d & _ & Hin).
    apply (sub_walk_in (fun e => FS.walk order td (PosixPath.join top (fst e)) (snd e)))
      in Hin.
    destruct Hin as (n & Hn & Hg & Hin). cbn [fst snd] in Hin.
    rewrite Forall_forall in IH. pose proof (IH _ Hn) as IHn. cbn [snd] in IHn.
    destruct (wf_kids_get _ _ _ Hw Hg) as [Hv Hwn].
    pose proof (IHn (PosixPath.join top d) (tcs ++ [d]) Hwn (resolve_join _ _ _ Ht Hv)) as F.
    rewrite Forall_forall in F. specialize (F t Hin).
    destruct t as [[root dirs] files]. destruct F as (rel & H1 & H2). exists (d :: rel).
    rewrite <- app_assoc in H1. auto. }
  cbn [FS.walk]. destruct td; [constructor; assumption|].
  apply Forall_app. split; [exact Hbelow|constructor; [exact Hhere|constructor]].
Qed.

Lemma os_walk_below order top td w triples tcs :
  wf_node (w_fs w) = true -> Os.resolve top = Some tcs ->
  Os.walk order top td w = (w, Returned triples) ->
  Forall (below_top tcs) triples.
Proof.
  intros Hw Ht H. unfold Os.walk in H. injection H as <-.
  unfold Os.lookup. rewrite Ht.
  destruct (FS.get tcs (w_fs w)) as [n|] eqn:E; [|constructor].
  apply walk_below; [|exact Ht]. apply (wf_get _ _ _ Hw E).
Qed.

(** ** Loops *)

Lemma for_each_returned {A} (I : world -> Prop) (P : A -> Prop) (body : A -> M unit) :
  (forall x w w', P x -> I w -> body x w = (w', Returned tt) -> I w') ->
  forall xs w w', Forall P xs -> I w -> for_each xs body w = (w', Returned tt) -> I w'.
Proof.
  intros Hb. induction xs as [|x xs IH]; intros w w' HP HI H; simpl in H.
  - injection H as <-. exact HI.
  - inversion HP as [|? ? Hx Hxs]; subst.
    apply bind_inv_returned in H. destruct H as (w1 & [] & H1 & H2).
    apply (IH w1 w'); auto. apply (Hb x w w1); auto.
Qed.

(** ** The cleanup keeps every file outside the temporary directory *)

Lemma os_remove_keeps tcs rel x q c root w w' :
  Os.resolve root = Some (tcs ++ rel) -> valid_name x = true -> ~ is_prefix tcs q ->
  file_at q c w -> Os.remove (PosixPath.join root x) w = (w', Returned tt) ->
  file_at q c w'.
Proof.
  intros Hr Hx Hq Hf H. apply at_path_returned in H. destruct H as (cs & Hcs & Hop & _).
  rewrite (resolve_join _ _ _ Hr Hx) in Hcs. injection Hcs as <-.
  unfold file_at. eapply remove_files; eauto.
  intros ->. apply Hq. exists (rel ++ [x]). rewrite app_assoc. reflexivity.
Qed.

Lemma os_rmdir_keeps p q c w w' :
  file_at q c w -> Os.rmdir p w = (w', Returned tt) -> file_at q c w'.
Proof.
  intros Hf H. apply at_path_returned in H. destruct H as (cs & Hcs & Hop & _).
  unfold file_at. eapply rmdir_files; eauto.
Qed.

Lemma cleanup_keeps tcs q c triples w w' :
  ~ is_prefix tcs q -> Forall (below_top tcs) triples ->
  file_at q c w ->
  for_each triples cleanup_body w = (w', Returned tt) ->
  file_at q c w'.
Proof.
  intros Hq HF Hf H.
  refine (for_each_returned (file_at q c) (below_top tcs) cleanup_body _ triples w w' HF Hf H).
  clear - Hq. intros [[root dirs] files] w w' (rel & Hr & Hd & Hfs) HI H.
  unfold cleanup_body in H. apply bind_inv_returned in H. destruct H as (w1 & [] & H1 & H2).
  assert (I1 : file_at q c w1).
  { refine (for_each_returned (file_at q c) (fun x => valid_name x = true)
              (fun fn => Os.remove (PosixPath.join root fn)) _ files w w1 _ HI H1).
    - intros x v v' Hx Hv Hrm. eapply os_remove_keeps; eauto.
    - apply Forall_forall. rewrite forallb_forall in Hfs. exact Hfs. }
  refine (for_each_returned (file_at q c) (fun _ => True)
            (fun d => Os.rmdir (PosixPath.join root d)) _ dirs w1 w' _ I1 H2).
  - intros x v v' _ Hv Hrm. eapply os_rmdir_keeps; eauto.
  - apply Forall_forall. auto.
Qed.

(** ** Valid names stay valid *)

Lemma keeps_wf_bind {A B} (m : M A) (k : A -> M B) :
  keeps_wf m -> (forall a, keeps_wf (k a)) -> keeps_wf (bind m k).
Proof.
  intros Hm Hk w w' b Hw H. apply bind_inv_returned in H.
  destruct H as (w1 & a & H1 & H2). eapply Hk; [|exact H2]. eapply Hm; eauto.
Qed.

Lemma keeps_wf_ret {A} (a : A) : keeps_wf (ret a).
Proof. intros w w' b Hw H. injection H as <- _. exact Hw. Qed.

Lemma keeps_wf_for_each {A} (xs : list A) (body : A -> M unit) :
  (forall x, keeps_wf (body x)) -> keeps_wf (for_each xs body).
Proof.
  intros Hb. induction xs as [|x xs IH]; simpl.
  - apply keeps_wf_ret.
  - apply keeps_wf_bind; auto.
Qed.

Lemma keeps_wf_same_fs {A} (m : M A) : keeps_fs m -> keeps_wf m.
Proof. intros Hm w w' a Hw H. specialize (Hm w). rewrite H in Hm. simpl in Hm. congruence. Qed.

Lemma keeps_wf_at_path op p :
  (forall cs root root', Os.resolve p = Some cs -> op p cs root = Returned root' ->
                         wf_node root = true -> wf_node root' = true) ->
  keeps_wf (Os.at_path op p).
Proof.
  intros Hop w w' [] Hw H. apply at_path_returned in H. destruct H as (cs & H1 & H2 & _).
  eapply Hop; eauto.
Qed.

Lemma keeps_wf_write_file p c : keeps_wf (Os.write_file p c).
Proof.
  apply keeps_wf_at_path. intros cs root root' Hr Hop Hw.
  eapply write_file_wf; eauto. eapply split_kept_valid; eauto.
Qed.

Lemma os_mkdir_wf p w :
  wf_node (w_fs w) = true -> wf_node (w_fs (fst (Os.mkdir p w))) = true.
Proof.
  intros Hw. unfold Os.mkdir, Os.at_path. destruct (Os.resolve p) as [cs|] eqn:Hr; [|exact Hw].
  unfold on_fs. destruct (Os.final_dot p).
  - destruct (FS.alter_dir p cs _ (w_fs w)) as [fs'|] eqn:E; simpl; [|exact Hw].
    apply (alter_dir_wf _ _ _ _ _ E Hw). discriminate.
  - destruct (FS.mkdir p cs (w_fs w)) as [fs'|] eqn:E; simpl; [|exact Hw].
    eapply mkdir_wf; eauto. eapply split_kept_valid; eauto.
Qed.

Lemma makedirs_wf p w :
  wf_node (w_fs w) = true -> wf_node (w_fs (fst (Os.makedirs p w))) = true.
Proof.
  unfold Os.makedirs.
  apply (makedirs_from_steps
           (fun w w' => wf_node (w_fs w) = true -> wf_node (w_fs w') = true)); auto.
  intros q w1. apply os_mkdir_wf.
Qed.

Lemma keeps_wf_makedirs p : keeps_wf (Os.makedirs p).
Proof.
  intros w w' a Hw H. pose proof (makedirs_wf p w Hw) as E. rewrite H in E. exact E.
Qed.

Lemma keeps_wf_remove p : keeps_wf (Os.remove p).
Proof. apply keeps_wf_at_path. intros cs root root' _ Hop Hw. eapply remove_wf; eauto. Qed.

Lemma keeps_wf_rmdir p : keeps_wf (Os.rmdir p).
Proof. apply keeps_wf_at_path. intros cs root root' _ Hop Hw. eapply rmdir_wf; eauto. Qed.

Lemma keeps_wf_ensure_dir p : keeps_wf (ensure_dir p).
Proof.
  unfold ensure_dir. apply keeps_wf_bind.
  - apply keeps_wf_same_fs. intros w. reflexivity.
  - intros []; simpl; [apply keeps_wf_ret|apply keeps_wf_makedirs].
Qed.

Lemma keeps_wf_to_file host gdf p : keeps_wf (to_file host gdf p).
Proof.
  intros w w' [] Hw H. apply to_file_returned in H. destruct H as [_ H].
  refine (keeps_wf_for_each _ _ _ w w' tt Hw H). intros x. apply keeps_wf_write_file.
Qed.

Lemma keeps_wf_append_entry zf e : keeps_wf (Zip.append_entry zf e).
Proof.
  intros w w' a Hw. unfold Zip.append_entry.
  destruct (Os.lookup zf (w_fs w)) as [[[b|es]|k]|]; try (intros H; injection H as <- _; exact Hw).
  apply keeps_wf_write_file, Hw.
Qed.

Lemma keeps_wf_zip_write zf f a : keeps_wf (Zip.write zf f a).
Proof.
  intros w w' x Hw. unfold Zip.write.
  destruct (Os.lookup f (w_fs w)) as [[c|k]|]; try discriminate;
    apply keeps_wf_append_entry, Hw.
Qed.

Lemma keeps_wf_zip_open p : keeps_wf (Zip.open p).
Proof.
  unfold Zip.open. apply keeps_wf_bind; [apply keeps_wf_write_file|].
  intros _. apply keeps_wf_ret.
Qed.

(** ** The archive under construction *)

Lemma os_write_file_lookup p c w w' :
  Os.write_file p c w = (w', Returned tt) ->
  Os.lookup p (w_fs w') = Some (FS.File c).
Proof.
  intros H. apply at_path_returned in H. destruct H as (cs & H1 & H2 & _).
  unfold Os.lookup. rewrite H1. eapply write_file_target; eauto.
Qed.

Lemma zip_open_archive p w w' zf :
  Zip.open p w = (w', Returned zf) ->
  zf = p /\ Os.lookup p (w_fs w') = Some (FS.File (FS.Archive [])).
Proof.
  unfold Zip.open. intros H. apply bind_inv_returned in H.
  destruct H as (w1 & [] & H1 & H2). injection H2 as <- <-.
  split; [reflexivity|]. eapply os_write_file_lookup; eauto.
Qed.

(** an entry written to an archive that is there lands at its end *)
Lemma append_entry_archive zf e es w w' :
  Os.lookup zf (w_fs w) = Some (FS.File (FS.Archive es)) ->
  Zip.append_entry zf e w = (w', Returned tt) ->
  Os.lookup zf (w_fs w') = Some (FS.File (FS.Archive (es ++ [e]))).
Proof.
  intros Hl. unfold Zip.append_entry. rewrite Hl. apply os_write_file_lookup.
Qed.

Lemma zip_write_archive zf f a w w' :
  archive_at zf w -> Zip.write zf f a w = (w', Returned tt) -> archive_at zf w'.
Proof.
  intros [es Hl]. unfold Zip.write.
  destruct (Os.lookup f (w_fs w)) as [[c|k]|]; try discriminate; intros H;
    eexists; eapply append_entry_archive; eauto.
Qed.

(** The steps of a call of [write_shapefile_zip] that returns. *)
Lemma write_shapefile_zip_steps host gdf out_zip layer w w' :
  write_shapefile_zip host gdf out_zip layer w = (w', Returned tt) ->
  let tmp_dir := unzip out_zip in
  exists w1 w2 w3 w4 w5,
    ensure_dir tmp_dir w = (w1, Returned tt)
    /\ to_file host gdf (PosixPath.join tmp_dir (layer ++ ".shp")) w1 = (w2, Returned tt)
    /\ Zip.open out_zip w2 = (w3, Returned out_zip)
    /\ for_each (match Os.lookup tmp_dir (w_fs w3) with
                 | Some n => FS.walk (listing host) true tmp_dir n
                 | None => []
                 end) (zip_body out_zip tmp_dir) w3 = (w4, Returned tt)
    /\ for_each (match Os.lookup tmp_dir (w_fs w4) with
                 | Some n => FS.walk (listing host) false tmp_dir n
                 | None => []
                 end) cleanup_body w4 = (w5, Returned tt)
    /\ Os.rmdir tmp_dir w5 = (w', Returned tt).
Proof.
  intros H. cbv zeta. unfold write_shapefile_zip in H. fold (unzip out_zip) in H.
  apply bind_inv_returned in H. destruct H as (w1 & [] & H1 & H).
  apply bind_inv_returned in H. destruct H as (w2 & [] & H2 & H).
  apply bind_inv_returned in H. destruct H as (w4 & [] & Hz & H).
  apply bind_inv_returned in H. destruct H as (w5 & [] & Hc & H).
  apply bind_inv_returned in Hz. destruct Hz as (w3 & zf & H3 & Hz).
  destruct (zip_open_archive _ _ _ _ H3) as [-> _].
  apply bind_inv_returned in Hz. destruct Hz as (w3' & tz & Hwz & Hz).
  unfold Os.walk in Hwz. injection Hwz as <- <-.
  apply bind_inv_returned in Hc. destruct Hc as (w4' & tc & Hwc & Hc).
  unfold Os.walk in Hwc. injection Hwc as <- <-.
  exists w1, w2, w3, w4, w5. repeat split; assumption.
Qed.

Lemma lookup_get p cs root : Os.resolve p = Some cs -> Os.lookup p root = FS.get cs root.
Proof. intros H. unfold Os.lookup. rewrite H. reflexivity. Qed.

Lemma zip_loop_archive zf tmp_dir triples w w' :
  wf_node (w_fs w) = true -> archive_at zf w ->
  for_each triples (zip_body zf tmp_dir) w = (w', Returned tt) ->
  wf_node (w_fs w') = true /\ archive_at zf w'.
Proof.
  intros Hw Ha H.
  refine (for_each_returned (fun v => wf_node (w_fs v) = true /\ archive_at zf v) (fun _ => True)
            (zip_body zf tmp_dir) _ triples w w' _ (conj Hw Ha) H); [|apply Forall_forall; auto].
  clear. intros [[root dirs] files] w w' _ HI H. unfold zip_body in H.
  refine (for_each_returned (fun v => wf_node (w_fs v) = true /\ archive_at zf v) (fun _ => True)
            _ _ files w w' _ HI H); [|apply Forall_forall; auto].
  clear. intros fn w w' _ [Hw Ha] H. split.
  - eapply keeps_wf_zip_write; eauto.
  - eapply zip_write_archive; eauto.
Qed.

(** Once a call of [write_shapefile_zip] on the archive path
    of a gauge has returned, nothing is left at the temporary directory or
    below it, and the archive is a file at its path. *)
Lemma write_shapefile_zip_core host args gdf gid layer w w' :
  wf_node (w_fs w) = true ->
  write_shapefile_zip host gdf (out_zip_of args gid) layer w = (w', Returned tt) ->
  wf_node (w_fs w') = true
  /\ (exists tcs, Os.resolve (unzip (out_zip_of args gid)) = Some tcs
                  /\ forall rel, FS.get (tcs ++ rel) (w_fs w') = None)
  /\ archive_at (out_zip_of args gid) w'.
Proof.
  intros Hw H. apply write_shapefile_zip_steps in H. cbv zeta in H.
  destruct H as (w1 & w2 & w3 & w4 & w5 & H1 & H2 & H3 & H4 & H5 & H6).
  assert (Hw1 : wf_node (w_fs w1) = true) by (eapply keeps_wf_ensure_dir; eauto).
  assert (Hw2 : wf_node (w_fs w2) = true) by (eapply keeps_wf_to_file; eauto).
  assert (Hw3 : wf_node (w_fs w3) = true) by (eapply keeps_wf_zip_open; eauto).
  destruct (zip_open_archive _ _ _ _ H3) as [_ Ha3].
  destruct (zip_loop_archive _ _ _ _ _ Hw3 (ex_intro _ [] Ha3) H4) as [Hw4 [es Ha4]].
  pose proof H6 as H6'. apply at_path_returned in H6'.
  destruct H6' as (tcs & Ht & Hrm & _).
  assert (Hp : exists pcs, Os.resolve (out_zip_of args gid) = Some pcs).
  { unfold Os.lookup in Ha4. destruct (Os.resolve (out_zip_of args gid)); [eauto|discriminate]. }
  destruct Hp as [pcs Hp]. rewrite (lookup_get _ _ _ Hp) in Ha4.
  assert (Hout : ~ is_prefix tcs pcs).
  { apply (zip_outside_tmp (out_dir args) gid gid); auto. }
  assert (Hw5 : wf_node (w_fs w5) = true).
  { refine (keeps_wf_for_each _ cleanup_body _ w4 w5 tt Hw4 H5).
    intros [[root dirs] files]. unfold cleanup_body.
    apply keeps_wf_bind; [|intros _]; apply keeps_wf_for_each; intros x;
      [apply keeps_wf_remove|apply keeps_wf_rmdir]. }
  assert (Ha5 : file_at pcs (FS.Archive es) w5).
  { refine (cleanup_keeps tcs pcs _ _ w4 w5 Hout _ Ha4 H5).
    unfold Os.lookup. rewrite Ht.
    destruct (FS.get tcs (w_fs w4)) as [n|] eqn:E; [|constructor].
    apply walk_below; [|exact Ht]. apply (wf_get _ _ _ Hw4 E). }
  split; [eapply keeps_wf_rmdir; eauto|]. split.
  - exists tcs. split; [exact Ht|]. intros rel. rewrite get_app.
    rewrite (rmdir_gone _ _ _ _ Hrm). reflexivity.
  - exists es. rewrite (lookup_get _ _ _ Hp). eapply rmdir_files; eauto.
Qed.

(** ** Files stay files *)

Lemma keeps_files_bind {A B} (m : M A) (k : A -> M B) :
  keeps_files m -> (forall a, keeps_files (k a)) -> keeps_files (bind m k).
Proof.
  intros Hm Hk w w' b q c H Hq. apply bind_inv_returned in H.
  destruct H as (w1 & a & H1 & H2). destruct (Hm _ _ _ _ _ H1 Hq) as [c1 Hc1].
  eapply Hk; eauto.
Qed.

Lemma keeps_files_same_fs {A} (m : M A) : keeps_fs m -> keeps_files m.
Proof.
  intros Hm w w' a q c H Hq. specialize (Hm w). rewrite H in Hm. simpl in Hm.
  rewrite Hm. eauto.
Qed.

Lemma keeps_files_for_each {A} (xs : list A) (body : A -> M unit) :
  (forall x, keeps_files (body x)) -> keeps_files (for_each xs body).
Proof.
  intros Hb. induction xs as [|x xs IH]; simpl.
  - apply keeps_files_same_fs, keeps_fs_ret.
  - apply keeps_files_bind; auto.
Qed.

Lemma keeps_files_write_file p c : keeps_files (Os.write_file p c).
Proof.
  intros w w' [] q c0 H Hq. apply at_path_returned in H. destruct H as (cs & _ & H & _).
  destruct (write_file_files _ _ _ _ _ _ _ H Hq) as (c1 & H1 & _). eauto.
Qed.

Lemma keeps_files_ensure_dir p : keeps_files (ensure_dir p).
Proof.
  intros w w' [] q c H Hq. exists c.
  pose proof (ensure_dir_files p w q c) as E. rewrite H in E. simpl in E. apply E, Hq.
Qed.

Lemma keeps_files_to_file host gdf p : keeps_files (to_file host gdf p).
Proof.
  intros w w' [] q c H Hq. apply to_file_returned in H. destruct H as [_ H].
  refine (keeps_files_for_each _ _ _ w w' tt q c H Hq).
  intros x. apply keeps_files_write_file.
Qed.

Lemma keeps_files_append_entry zf e : keeps_files (Zip.append_entry zf e).
Proof.
  intros w w' a q c. unfold Zip.append_entry.
  destruct (Os.lookup zf (w_fs w)) as [[[b|es]|k]|];
    try (intros H Hq; injection H as <- _; eauto).
  apply keeps_files_write_file.
Qed.

Lemma keeps_files_zip_write zf f a : keeps_files (Zip.write zf f a).
Proof.
  intros w w' x q c. unfold Zip.write.
  destruct (Os.lookup f (w_fs w)) as [[c0|k]|]; try discriminate;
    apply keeps_files_append_entry.
Qed.

Lemma keeps_files_zip_open p : keeps_files (Zip.open p).
Proof.
  unfold Zip.open. apply keeps_files_bind; [apply keeps_files_write_file|].
  intros _. apply keeps_files_same_fs, keeps_fs_ret.
Qed.

Lemma is_file_keeps {A} (m : M A) p w w' a :
  keeps_files m -> m w = (w', Returned a) -> is_file p w -> is_file p w'.
Proof.
  intros Hm H (cs & c & H1 & H2). destruct (Hm _ _ _ _ _ H H2) as [c' Hc'].
  exists cs, c'. auto.
Qed.

(** The archive of a gauge with a plain id survives the export of any
    other gauge. *)
Lemma write_shapefile_zip_keeps host args gdf gid_b layer gid_a w w' :
  wf_node (w_fs w) = true -> has_char "/" gid_a = false ->
  write_shapefile_zip host gdf (out_zip_of args gid_b) layer w = (w', Returned tt) ->
  is_file (out_zip_of args gid_a) w -> is_file (out_zip_of args gid_a) w'.
Proof.
  intros Hw Hplain H Hf. apply write_shapefile_zip_steps in H. cbv zeta in H.
  destruct H as (w1 & w2 & w3 & w4 & w5 & H1 & H2 & H3 & H4 & H5 & H6).
  assert (Hw1 : wf_node (w_fs w1) = true) by (eapply keeps_wf_ensure_dir; eauto).
  assert (Hw2 : wf_node (w_fs w2) = true) by (eapply keeps_wf_to_file; eauto).
  assert (Hw3 : wf_node (w_fs w3) = true) by (eapply keeps_wf_zip_open; eauto).
  destruct (zip_open_archive _ _ _ _ H3) as [_ Ha3].
  destruct (zip_loop_archive _ _ _ _ _ Hw3 (ex_intro _ [] Ha3) H4) as [Hw4 _].
  apply (is_file_keeps _ _ _ _ _ (keeps_files_ensure_dir _) H1) in Hf.
  apply (is_file_keeps _ _ _ _ _ (keeps_files_to_file _ _ _) H2) in Hf.
  apply (is_file_keeps _ _ _ _ _ (keeps_files_zip_open _) H3) in Hf.
  assert (Hf4 : is_file (out_zip_of args gid_a) w4).
  { refine (is_file_keeps _ _ _ _ _ _ H4 Hf). apply keeps_files_for_each.
    intros [[root dirs] files]. apply keeps_files_for_each. intros fn.
    apply keeps_files_zip_write. }
  destruct Hf4 as (pcs & c & Hp & Hc).
  pose proof H6 as H6'. apply at_path_returned in H6'. destruct H6' as (tcs & Ht & Hrm & _).
  assert (Hout : ~ is_prefix tcs pcs).
  { apply (zip_outside_tmp (out_dir args) gid_a gid_b); auto. }
  assert (Ha5 : file_at pcs c w5).
  { refine (cleanup_keeps tcs pcs _ _ w4 w5 Hout _ Hc H5).
    unfold Os.lookup. rewrite Ht.
    destruct (FS.get tcs (w_fs w4)) as [n|] eqn:E; [|constructor].
    apply walk_below; [|exact Ht]. apply (wf_get _ _ _ Hw4 E). }
  exists pcs, c. split; [exact Hp|]. eapply rmdir_files; eauto.
Qed.

(** ** The invariant of the loop in local mode *)

Lemma collected_log args cp w evs : collected args cp w -> collected args cp (log w evs).
Proof. intros H. exact H. Qed.

Lemma archive_is_file p w : archive_at p w -> is_file p w.
Proof.
  intros [es H]. unfold Os.lookup in H.
  destruct (Os.resolve p) as [cs|] eqn:E; [|discriminate]. exists cs, (FS.Archive es). auto.
Qed.

Lemma process_known_collected host args cp gid lat lon w w' cp' :
  export_mode args = client -> has_char "/" gid = false ->
  collected args cp w ->
  process_known host args cp gid lat lon w = (w', Returned cp') ->
  collected args cp' w'.
Proof.
  intros Hm Hplain [Hw Hcp]. rewrite process_known_client by exact Hm. cbv zeta.
  destruct (ee_getInfo host _) as [info|e]; [|discriminate].
  destruct (frame_of host _) as [gdf|e]; [|discriminate].
  destruct (gdf_empty gdf).
  - intros H. injection H as <- <-. split; assumption.
  - set (w1 := log w _).
    destruct (write_shapefile_zip host gdf _ _ w1) as [w2 [[]|e]] eqn:Hz; [|discriminate].
    intros H. injection H as <- <-.
    assert (Hw1 : wf_node (w_fs w1) = true) by exact Hw.
    destruct (write_shapefile_zip_core _ _ _ _ _ _ _ Hw1 Hz) as (Hw2 & _ & Ha).
    split; [exact Hw2|]. apply Forall_app. split.
    + eapply Forall_impl; [|exact Hcp]. intros p (g & -> & Hg & Hf).
      exists g. repeat split; auto.
      apply (write_shapefile_zip_keeps host args gdf gid _ g w1 w2 Hw1 Hg Hz). exact Hf.
    + constructor; [|constructor]. exists gid. repeat split; auto.
      apply archive_is_file, Ha.
Qed.

Lemma collected_after_sleep args cp w :
  collected args cp w -> collected args cp (after_sleep args w).
Proof. unfold after_sleep. destruct (0 <? sleep_sec args)%float; auto. Qed.

Lemma main_loop_collected host args columns rows :
  export_mode args = client -> plain_ids host args columns rows = true ->
  forall cp count w w' cp' count',
    collected args cp w ->
    main_loop host args columns rows cp count w = (w', Returned (cp', count')) ->
    collected args cp' w'.
Proof.
  intros Hm. induction rows as [|row rest IH]; intros Hplain cp count w w' cp' count' Hc H.
  - simpl in H. injection H as <- <- <-. exact Hc.
  - rewrite main_loop_cons in H. simpl in Hplain. apply andb_true_iff in Hplain.
    destruct Hplain as [Hrow Hrest].
    destruct (gauge_of host args (row_dict host columns row)) as [[[gid lat] lon]|] eqn:Hg.
    2:{ destruct (process_gauge_row_unknown host args _ cp w Hg) as [e He].
        rewrite He in H. discriminate. }
    rewrite (process_gauge_row_known _ _ _ cp _ _ _ w Hg) in H.
    destruct (process_known host args cp gid lat lon w) as [w1 [cp1|e]] eqn:Hp; [|discriminate].
    assert (Hc1 : collected args cp1 w1).
    { eapply process_known_collected; eauto. apply negb_true_iff, Hrow. }
    destruct (limit_reached _ _).
    + injection H as <- <- <-. exact Hc1.
    + eapply IH; [exact Hrest|apply collected_after_sleep, Hc1|exact H].
Qed.

(** ** The combined archive *)

Lemma is_file_lookup p w : is_file p w -> exists c, Os.lookup p (w_fs w) = Some (FS.File c).
Proof. intros (cs & c & H1 & H2). exists c. unfold Os.lookup. rewrite H1. exact H2. Qed.

Lemma combine_loop zf : forall ps es w w',
  Os.lookup zf (w_fs w) = Some (FS.File (FS.Archive es)) ->
  Forall (fun p => is_file p w) ps ->
  for_each ps (fun p => Zip.write zf p (PosixPath.basename p)) w = (w', Returned tt) ->
  exists es', Os.lookup zf (w_fs w') = Some (FS.File (FS.Archive (es ++ es')))
              /\ map fst es' = map PosixPath.basename ps.
Proof.
  induction ps as [|p ps IH]; intros es w w' Hz Hf H; simpl in H.
  - injection H as <-. exists []. rewrite app_nil_r. auto.
  - apply bind_inv_returned in H. destruct H as (w1 & [] & H1 & H2).
    inversion Hf as [|? ? Hp Hps]; subst.
    assert (Hps1 : Forall (fun q => is_file q w1) ps).
    { eapply Forall_impl; [|exact Hps]. intros q Hq.
      eapply is_file_keeps; [apply keeps_files_zip_write|exact H1|exact Hq]. }
    destruct (is_file_lookup _ _ Hp) as [c Hc].
    unfold Zip.write in H1. rewrite Hc in H1.
    pose proof (append_entry_archive _ _ _ _ _ Hz H1) as Hz1.
    destruct (IH _ _ _ Hz1 Hps1 H2) as (es' & E1 & E2).
    exists ((PosixPath.basename p, c) :: es'). rewrite E1, <- app_assoc. simpl.
    rewrite E2. auto.
Qed.

(** The Aggregator writes one entry per path, in the order of the list,
    named by the base name of the path. *)
Lemma build_combined_names zip_paths out w w' :
  zip_paths <> [] ->
  Forall (fun p => is_file p w) zip_paths ->
  build_combined_zip zip_paths out w = (w', Returned tt) ->
  exists es,
    Os.lookup (combined_path out) (w_fs w') = Some (FS.File (FS.Archive es))
    /\ map fst es = map PosixPath.basename zip_paths.
Proof.
  intros Hne Hf H. unfold build_combined_zip in H.
  destruct zip_paths as [|p0 ps]; [congruence|].
  fold (combined_path out) in H.
  apply bind_inv_returned in H. destruct H as (w2 & [] & H & Hprint).
  apply bind_inv_returned in H. destruct H as (w1 & zf & Ho & Hloop).
  destruct (zip_open_archive _ _ _ _ Ho) as [-> Ha].
  assert (Hf1 : Forall (fun q => is_file q w1) (p0 :: ps)).
  { eapply Forall_impl; [|exact Hf]. intros q Hq.
    eapply is_file_keeps; [apply keeps_files_zip_open|exact Ho|exact Hq]. }
  destruct (combine_loop _ _ _ _ _ Ha Hf1 Hloop) as (es & E1 & E2).
  exists es. rewrite print_log in Hprint. injection Hprint as <-. auto.
Qed.

(** ** Archive paths and ids *)

Lemma join_inj out x y :
  PyStr.startswith "/" x = false -> PyStr.startswith "/" y = false ->
  PosixPath.join out x = PosixPath.join out y -> x = y.
Proof.
  unfold PosixPath.join. intros -> ->.
  destruct (PyStr.last_char out) as [c|]; [|auto].
  destruct (Ascii.eqb c PosixPath.sep); intros H.
  - apply append_inj_l in H. exact H.
  - apply append_inj_l in H. apply (append_inj_l "/") in H. exact H.
Qed.

Lemma zip_name_inj g1 g2 : zip_name g1 = zip_name g2 -> g1 = g2.
Proof.
  unfold zip_name. intros H. apply append_inj_l in H. apply append_inj_r in H. exact H.
Qed.

Lemma out_zip_of_inj args g1 g2 : out_zip_of args g1 = out_zip_of args g2 -> g1 = g2.
Proof.
  unfold out_zip_of. fold (zip_name g1). fold (zip_name g2). intros H.
  apply join_inj in H; [|apply zip_name_start..]. apply zip_name_inj, H.
Qed.

Lemma basename_out_zip args gid :
  has_char "/" gid = false -> PosixPath.basename (out_zip_of args gid) = zip_name gid.
Proof.
  intros H. unfold PosixPath.basename, out_zip_of. fold (zip_name gid).
  destruct (split_join (out_dir args) (zip_name gid) (zip_name_start _)) as (l & E & _).
  change PosixPath.sep with "/"%char. rewrite E, split_nosep.
  - apply last_last.
  - unfold zip_name. rewrite !has_char_app, H. reflexivity.
Qed.

Lemma keeps_wf_main_load host args : keeps_wf (main_load host args).
Proof.
  unfold main_load. apply keeps_wf_bind; [apply keeps_wf_ensure_dir|].
  intros _. apply keeps_wf_bind; [apply keeps_wf_same_fs, keeps_fs_init_ee|].
  intros _. apply keeps_wf_same_fs, keeps_fs_load_csv.
Qed.

(** the steps of a run of [main] that returns *)
Lemma main_returned host args w w0 df w' :
  main_load host args w = (w0, Returned df) ->
  main host args w = (w', Returned tt) ->
  exists w2 cp count,
    main_loop host args (df_columns df) (df_rows df) [] 0 w0 = (w2, Returned (cp, count))
    /\ match export_mode args with
       | client => build_combined_zip cp (out_dir args) w2
       | ee_drive => print MsgAllStarted w2
       end = (w', Returned tt).
Proof.
  intros Hload H. unfold main in H. rewrite (bind_returned _ _ _ _ _ Hload) in H.
  apply bind_inv_returned in H. destruct H as (w1 & [] & Hc & H).
  destruct (check_columns_inv [lat_col args; lon_col args; id_col args] (df_columns df) w0)
    as [(col & _ & _ & E)|[_ E]]; rewrite E in Hc; [discriminate|].
  injection Hc as <-.
  apply bind_inv_returned in H. destruct H as (w2 & [cp count] & Hl & H).
  exists w2, cp, count. split; [exact Hl|]. destruct (export_mode args); exact H.
Qed.

(** C1: in local mode, when the run returns and at least one gauge had
    features, the combined archive is a file whose entries are, one for one
    and in order, the gauges reached whose query answered features; each
    entry bears the base name of the archive of its gauge.  A gauge without
    features contributes no entry.  (The ids are plain names, without a
    slash; the names in the file system are valid.) *)
Theorem C1_combined_archive_entries host args w w0 df w' :
  export_mode args = client ->
  wf_node (w_fs w) = true ->
  main_load host args w = (w0, Returned df) ->
  plain_ids host args (df_columns df) (df_rows df) = true ->
  main host args w = (w', Returned tt) ->
  gauges_with_features host args df <> [] ->
  exists es,
    Os.lookup (combined_path (out_dir args)) (w_fs w') = Some (FS.File (FS.Archive es))
    /\ map fst es
       = map (fun g => PosixPath.basename (out_zip_of args (fst (fst g))))
             (gauges_with_features host args df)
    /\ List.length es = List.length (gauges_with_features host args df).
Proof.
  intros Hm Hw Hload Hplain H Hne.
  destruct (main_returned _ _ _ _ _ _ Hload H) as (w2 & cp & count & Hloop & Hbuild).
  rewrite Hm in Hbuild.
  assert (Hw0 : wf_node (w_fs w0) = true) by (eapply keeps_wf_main_load; eauto).
  assert (Hc : collected args cp w2).
  { eapply main_loop_collected; eauto. split; [exact Hw0|constructor]. }
  apply main_loop_returned in Hloop. cbv zeta in Hloop.
  destruct Hloop as (_ & _ & _ & Hcp). rewrite Hm in Hcp. simpl in Hcp. subst cp.
  destruct Hc as [_ Hc].
  assert (Hf : Forall (fun p => is_file p w2)
                 (archived host args (gauges_reached host args (df_columns df) 0 (df_rows df)))).
  { eapply Forall_impl; [|exact Hc]. intros p (g & _ & _ & Hp). exact Hp. }
  destruct (build_combined_names _ _ _ _ (fun E => Hne (map_eq_nil _ _ E)) Hf Hbuild)
    as (es & E1 & E2).
  exists es. split; [exact E1|].
  assert (E3 : map fst es
               = map (fun g => PosixPath.basename (out_zip_of args (fst (fst g))))
                     (gauges_with_features host args df)).
  { rewrite E2. unfold archived, gauges_with_features. apply map_map. }
  split; [exact E3|]. rewrite <- (length_map fst), E3. apply length_map.
Qed.

Lemma C1_combined_archive_entries_witness :
  exists es,
    Os.lookup "outputs/all_gauge_subbasins.zip" (w_fs (fst (main Demo.host Demo.args Demo.world0)))
    = Some (FS.File (FS.Archive es))
    /\ map fst es = ["gauge_02HA003_subbasins.zip"%string; "gauge_02HC002_subbasins.zip"%string]
    /\ List.length es = 2%nat.
Proof.
  refine (C1_combined_archive_entries Demo.host Demo.args Demo.world0
            (fst (main_load Demo.host Demo.args Demo.world0)) Demo.table
            (fst (main Demo.host Demo.args Demo.world0)) eq_refl eq_refl _ _ _ _).
  - vm_compute. reflexivity.
  - vm_compute. reflexivity.
  - vm_compute. reflexivity.
  - vm_compute. discriminate.
Defined.



Lemma NoDup_map_injective {A B} (f : A -> B) (l : list A) :
  (forall x y, f x = f y -> x = y) -> NoDup l -> NoDup (map f l).
Proof.
  intros Hf. induction 1 as [|x l Hx Hl IH]; simpl; constructor; [|exact IH].
  intros Hin. apply in_map_iff in Hin. destruct Hin as (y & Hy & Hyl).
  apply Hf in Hy. subst y. exact (Hx Hyl).
Qed.

(** C7, as amended: the archive path of a gauge determines its id, so
    records with different ids never share an archive; after a loop that
    returns in local mode the list holds one path per gauge with features,
    without repetition when the ids of those gauges do not repeat; and the
    Aggregator is given that whole list. *)
Theorem C7_archive_per_id host args :
  (forall g1 g2, out_zip_of args g1 = out_zip_of args g2 -> g1 = g2)
  /\ (forall columns rows cp count w w' cp' count',
         export_mode args = client ->
         main_loop host args columns rows cp count w = (w', Returned (cp', count')) ->
         let gs := filter (has_features host args)
                          (gauges_reached host args columns count rows) in
         cp' = cp ++ map (fun g => out_zip_of args (fst (fst g))) gs
         /\ (NoDup (map (fun g => fst (fst g)) gs) ->
             NoDup (map (fun g => out_zip_of args (fst (fst g))) gs)))
  /\ (forall w w0 df w2 cp count,
         export_mode args = client ->
         main_load host args w = (w0, Returned df) ->
         Forall (fun col => In col (df_columns df)) [lat_col args; lon_col args; id_col args] ->
         main_loop host args (df_columns df) (df_rows df) [] 0 w0 = (w2, Returned (cp, count)) ->
         main host args w = build_combined_zip cp (out_dir args) w2).
Proof.
  split; [|split].
  - apply out_zip_of_inj.
  - intros columns rows cp count w w' cp' count' Hm H gs.
    apply main_loop_returned in H. cbv zeta in H. destruct H as (_ & _ & _ & H4).
    rewrite Hm in H4. split; [exact H4|].
    intros Hnd. rewrite <- (map_map (fun g => fst (fst g)) (out_zip_of args)).
    apply NoDup_map_injective; [apply out_zip_of_inj|exact Hnd].
  - intros w w0 df w2 cp count Hm Hload Hcols Hloop. unfold main.
    rewrite (bind_returned _ _ _ _ _ Hload).
    destruct (check_columns_inv [lat_col args; lon_col args; id_col args] (df_columns df) w0)
      as [(col & H1 & H2 & _)|[_ Hc]].
    + exfalso. apply H2. rewrite Forall_forall in Hcols. apply Hcols, H1.
    + rewrite (bind_returned _ _ _ _ _ Hc). rewrite (bind_returned _ _ _ _ _ Hloop).
      rewrite Hm. reflexivity.
Qed.

Lemma C7_archive_per_id_witness :
  let gs := filter (has_features Demo.host Demo.args)
                   (gauges_reached Demo.host Demo.args (df_columns Demo.table) 0
                      (df_rows Demo.table)) in
  ["outputs/gauge_02HA003_subbasins.zip"%string; "outputs/gauge_02HC002_subbasins.zip"%string]
  = [] ++ map (fun g => out_zip_of Demo.args (fst (fst g))) gs
  /\ (NoDup (map (fun g => fst (fst g)) gs) ->
      NoDup (map (fun g => out_zip_of Demo.args (fst (fst g))) gs)).
Proof.
  refine (proj1 (proj2 (C7_archive_per_id Demo.host Demo.args))
            (df_columns Demo.table) (df_rows Demo.table) [] 0%Z Demo.world0 _ _ _ eq_refl _).
  vm_compute. reflexivity.
Defined.

(** C7 as stated fails when two records carry the same id: both are
    exported to one and the same archive path. *)
Lemma C7_same_id_counterexample :
  nth 0 Demo.rows_same_id [] <> nth 1 Demo.rows_same_id []
  /\ snd (main_loop Demo.host Demo.args (df_columns Demo.table) Demo.rows_same_id [] 0
            Demo.world0)
     = Returned (["outputs/gauge_02HA003_subbasins.zip"%string;
                  "outputs/gauge_02HA003_subbasins.zip"%string], 2%Z).
Proof.
  split; [|vm_compute; reflexivity]. simpl. intros H. inversion H.
Qed.

(** ** What is not on the way of a write stays as it is *)

Lemma is_prefix_cons x a b : is_prefix a b -> is_prefix (x :: a) (x :: b).
Proof. intros [r ->]. exists r. reflexivity. Qed.

Lemma is_prefix_nil b : is_prefix [] b.
Proof. exists b. reflexivity. Qed.

Lemma is_prefix_app_r a b c : is_prefix a b -> is_prefix a (b ++ c).
Proof. intros [r ->]. exists (r ++ c). rewrite app_assoc. reflexivity. Qed.

Lemma alter_dir_frame p f n : forall ds root root' q,
  FS.alter_dir p ds f root = Returned root' ->
  FS.get q root = Some n ->
  ~ is_prefix q ds ->
  (forall kids kids' q',
      FS.get ds root = Some (FS.Dir kids) -> f kids = Returned kids' -> q = ds ++ q' ->
      FS.get q' (FS.Dir kids') = Some n) ->
  FS.get q root' = Some n.
Proof.
  induction ds as [|d ds IH]; intros [c0|kids] root' q H Hq Hpre Hf; simpl in H; try discriminate.
  - destruct (f kids) as [kids'|] eqn:E; [|discriminate]. injection H as <-.
    apply (Hf kids kids' q); auto.
  - destruct (FS.kids_get d kids) as [k|] eqn:Ek; [|discriminate].
    destruct (FS.alter_dir p ds f k) as [k'|] eqn:Ea; [|discriminate]. injection H as <-.
    destruct q as [|x q]; [exfalso; apply Hpre, is_prefix_nil|]. cbn [FS.get] in *.
    destruct (String.eqb_spec x d) as [->|Hx].
    + rewrite kids_get_set_same. rewrite Ek in Hq.
      apply (IH _ _ _ Ea Hq).
      * intros Hp. apply Hpre, is_prefix_cons, Hp.
      * intros ks ks' q' H1 H2 H3.
        apply (Hf ks ks' q'); [rewrite Ek; exact H1|exact H2|rewrite H3; reflexivity].
    + rewrite kids_get_set_other by exact Hx. exact Hq.
Qed.

Lemma write_file_frame p cs c root root' q n :
  FS.write_file p cs c root = Returned root' ->
  FS.get q root = Some n -> ~ is_prefix q cs ->
  FS.get q root' = Some n.
Proof.
  unfold FS.write_file. destruct cs as [|x0 cs0] eqn:Ecs; [discriminate|].
  rewrite <- Ecs. assert (Hne : cs <> []) by (rewrite Ecs; discriminate). clear Ecs.
  intros H Hq Hpre. pose proof (path_split cs Hne) as Hcs.
  apply (alter_dir_frame p _ n _ _ _ q H Hq).
  - intros Hp. apply Hpre. rewrite Hcs. apply is_prefix_app_r, Hp.
  - intros kids kids' q' Hd Hf Hq'. rewrite Hq', get_app, Hd in Hq.
    destruct q' as [|x q''].
    { exfalso. apply Hpre. subst q. rewrite app_nil_r. exists [last cs ""]. exact Hcs. }
    cbn [FS.get] in *.
    destruct (FS.kids_get (last cs "") kids) as [[c1|ks]|] eqn:Ek; try discriminate;
      injection Hf as <-;
      (destruct (String.eqb_spec x (last cs "")) as [->|Hx];
       [|rewrite kids_get_set_other by exact Hx; exact Hq]);
      rewrite Ek in Hq.
    + apply get_file_inv in Hq. destruct Hq as [-> _].
      exfalso. apply Hpre. subst q. exists []. rewrite app_nil_r. exact Hcs.
    + exfalso. destruct q'' as [|y q3]; [|discriminate].
      apply Hpre. subst q. exists []. rewrite app_nil_r. exact Hcs.
Qed.

(** ** [relpath] below the start *)





Lemma for_each_app {A} (a b : list A) (body : A -> M unit) w :
  for_each (a ++ b) body w = (for_each a body ;;; for_each b body) w.
Proof.
  revert w. induction a as [|x a IH]; intros w; simpl.
  - reflexivity.
  - unfold bind. destruct (body x w) as [w1 [[]|e]]; [|reflexivity].
    rewrite IH. reflexivity.
Qed.

(** ** The paths [to_file] writes *)

Lemma substring_prefix (x y : string) : substring 0 (String.length x) (x ++ y) = x.
Proof.
  induction x as [|a x IH]; simpl.
  - destruct y; reflexivity.
  - rewrite IH. reflexivity.
Qed.

Lemma stem_of (x : string) :
  substring 0 (String.length (x ++ ".shp") - 4) (x ++ ".shp") = x.
Proof.
  rewrite length_append. simpl String.length.
  replace (String.length x + 4 - 4)%nat with (String.length x) by lia.
  apply substring_prefix.
Qed.

Lemma join_app a c (x s : string) :
  PyStr.startswith "/" (String c x) = false ->
  PosixPath.join a (String c x ++ s) = (PosixPath.join a (String c x) ++ s)%string.
Proof.
  intros H. unfold PosixPath.join.
  change (PyStr.startswith "/" (String c x ++ s)) with (PyStr.startswith "/" (String c x)).
  rewrite H. destruct (PyStr.last_char a) as [d|]; [|reflexivity].
  destruct (Ascii.eqb d PosixPath.sep); rewrite ?append_assoc; reflexivity.
Qed.

Lemma layer_of_start gid : exists x, layer_of gid = String "g" x.
Proof. eexists. reflexivity. Qed.

(** the part of extension [ext] is written next to the [.shp] path *)
Lemma part_path tmp_dir gid ext :
  (substring 0 (String.length (PosixPath.join tmp_dir (layer_of gid ++ ".shp")) - 4)
             (PosixPath.join tmp_dir (layer_of gid ++ ".shp")) ++ ext)%string
  = PosixPath.join tmp_dir (layer_of gid ++ ext).
Proof.
  destruct (layer_of_start gid) as [x ->].
  rewrite !join_app by reflexivity. rewrite stem_of. reflexivity.
Qed.

Lemma resolve_under top tcs x cs :
  Os.resolve top = Some tcs -> PyStr.startswith "/" x = false ->
  Os.resolve (PosixPath.join top x) = Some cs -> is_prefix tcs cs.
Proof.
  intros Ht Hx Hc. apply resolve_inv in Ht, Hc. destruct Ht as [-> _], Hc as [-> _].
  destruct (split_join top x Hx) as (l & -> & [-> | ->]);
    rewrite ?filter_app; simpl; rewrite ?app_nil_r; eexists; reflexivity.
Qed.

Lemma valid_layer_part gid ext :
  has_char "/" gid = false -> has_char "/" ext = false ->
  valid_name (layer_of gid ++ ext) = true.
Proof.
  intros Hg He. unfold valid_name, layer_of. rewrite !has_char_app, Hg, He. reflexivity.
Qed.

Lemma part_names_differ gid ext1 ext2 :
  (layer_of gid ++ ext1)%string = (layer_of gid ++ ext2)%string -> ext1 = ext2.
Proof. apply append_inj_l. Qed.

(** ** Files outside the temporary directory *)

Lemma os_write_file_keeps p c q c0 w w' cs :
  Os.resolve p = Some cs -> q <> cs ->
  file_at q c0 w -> Os.write_file p c w = (w', Returned tt) -> file_at q c0 w'.
Proof.
  intros Hp Hq Hf H. apply at_path_returned in H. destruct H as (cs' & Hcs & Hop & _).
  rewrite Hp in Hcs. injection Hcs as <-.
  destruct (write_file_files _ _ _ _ _ _ _ Hop Hf) as (c1 & H1 & H2).
  unfold file_at. rewrite H1, (H2 Hq). reflexivity.
Qed.

Lemma zip_write_keeps zf pcs f a q c0 w w' :
  Os.resolve zf = Some pcs -> q <> pcs ->
  file_at q c0 w -> Zip.write zf f a w = (w', Returned tt) -> file_at q c0 w'.
Proof.
  intros Hp Hq Hf. unfold Zip.write, Zip.append_entry.
  destruct (Os.lookup f (w_fs w)) as [[c|k]|]; try discriminate;
    (destruct (Os.lookup zf (w_fs w)) as [[[b|es]|k']|];
     try (intros H; injection H as <-; exact Hf);
     apply (os_write_file_keeps _ _ _ _ _ _ _ Hp Hq Hf)).
Qed.

Lemma to_file_keeps host gdf tmp_dir tcs gid q c0 w w' :
  Os.resolve tmp_dir = Some tcs -> ~ is_prefix tcs q ->
  file_at q c0 w ->
  to_file host gdf (PosixPath.join tmp_dir (layer_of gid ++ ".shp")) w = (w', Returned tt) ->
  file_at q c0 w'.
Proof.
  intros Ht Hq Hf H. apply to_file_returned in H. destruct H as [_ H].
  refine (for_each_returned (file_at q c0) (fun _ => True) _ _ _ w w' _ Hf H);
    [|apply Forall_forall; auto].
  clear - Ht Hq. intros part v v' _ Hv Hw. rewrite part_path in Hw.
  pose proof Hw as Hw'. apply at_path_returned in Hw'. destruct Hw' as (cs & Hcs & _).
  refine (os_write_file_keeps _ _ q c0 v v' cs Hcs _ Hv Hw).
  intros ->. apply Hq. eapply resolve_under; eauto.
  destruct (layer_of_start gid) as [x ->]. reflexivity.
Qed.

(** ** The parts in the temporary directory *)

Lemma write_parts tmp_dir tcs gid : forall parts w w',
  Os.resolve tmp_dir = Some tcs -> has_char "/" gid = false ->
  distinct (map fst parts) = true -> forallb plain_ext parts = true ->
  for_each parts (fun part =>
    Os.write_file (PosixPath.join tmp_dir (layer_of gid ++ fst part)) (FS.Blob (snd part))) w
  = (w', Returned tt) ->
  Forall (fun part => file_at (tcs ++ [(layer_of gid ++ fst part)%string])
                              (FS.Blob (snd part)) w') parts.
Proof.
  intros parts w w' Ht Hg. revert w.
  induction parts as [|[ext data] parts IH]; intros w Hd Hp H; [constructor|].
  simpl in Hd, Hp, H. apply andb_true_iff in Hd, Hp. destruct Hd as [Hd1 Hd2], Hp as [Hp1 Hp2].
  apply negb_true_iff in Hd1, Hp1. simpl in Hp1.
  apply bind_inv_returned in H. destruct H as (w1 & [] & H1 & H2).
  pose proof (resolve_join _ _ _ Ht (valid_layer_part gid ext Hg Hp1)) as Hcs.
  constructor; [|apply (IH w1 Hd2 Hp2 H2)].
  simpl fst. simpl snd.
  assert (Hf1 : file_at (tcs ++ [(layer_of gid ++ ext)%string]) (FS.Blob data) w1).
  { pose proof (os_write_file_lookup _ _ _ _ H1) as L.
    rewrite (lookup_get _ _ _ Hcs) in L. exact L. }
  refine (for_each_returned (file_at _ (FS.Blob data))
            (fun part => In part parts) _ _ parts w1 w' _ Hf1 H2);
    [|apply Forall_forall; auto].
  intros [ext' data'] v v' Hin Hv Hw. simpl fst in Hw. simpl snd in Hw.
  assert (Hv' : valid_name (layer_of gid ++ ext') = true).
  { apply valid_layer_part; [exact Hg|].
    rewrite forallb_forall in Hp2. specialize (Hp2 _ Hin). apply negb_true_iff in Hp2. exact Hp2. }
  refine (os_write_file_keeps _ _ _ _ _ _ _ (resolve_join _ _ _ Ht Hv') _ Hv Hw).
  intros E. apply app_inj_tail in E. destruct E as [_ E]. apply part_names_differ in E.
  apply existsb_eqb_notin in Hd1. apply Hd1. subst ext'.
  apply in_map_iff. exists (ext, data'). auto.
Qed.

Lemma rmdir_was_dir p cs root root' :
  FS.rmdir p cs root = Returned root' -> FS.get cs root = Some (FS.Dir []).
Proof.
  unfold FS.rmdir. destruct cs as [|x0 cs0] eqn:Ecs; [discriminate|].
  rewrite <- Ecs. assert (Hne : cs <> []) by (rewrite Ecs; discriminate). clear Ecs.
  intros H. apply alter_dir_target in H. destruct H as (kids & kids' & H1 & H2 & _).
  rewrite (path_split cs Hne) at 1. rewrite get_app, H1. simpl.
  destruct (FS.kids_get (last cs "") kids) as [[c1|[|e ks]]|]; try discriminate. reflexivity.
Qed.

Lemma for_each_ext {A} (f g : A -> M unit) (xs : list A) w :
  (forall x v, f x v = g x v) -> for_each xs f w = for_each xs g w.
Proof.
  intros H. revert w. induction xs as [|x xs IH]; intros w; simpl; [reflexivity|].
  unfold bind. rewrite H. destruct (g x w) as [w1 [[]|e]]; [apply IH|reflexivity].
Qed.

(** ** The name of the temporary directory *)

Lemma unzip_zip_name gid : unzip (zip_name gid) = layer_of (unzip gid).
Proof.
  unfold zip_name, layer_of.
  change ("gauge_" ++ gid ++ "_subbasins.zip")%string
    with (String "g" (String "a" (String "u" (String "g" (String "e" (String "_"
            (gid ++ "_subbasins.zip"))))))).
  rewrite !unzip_skip by reflexivity.
  rewrite (unzip_app "_subbasins.zip" eq_refl). reflexivity.
Qed.

Lemma unzip_out_zip args gid :
  unzip (out_dir args) = out_dir args ->
  unzip (out_zip_of args gid) = PosixPath.join (out_dir args) (layer_of (unzip gid)).
Proof.
  intros Ho. unfold out_zip_of. fold (zip_name gid). unfold PosixPath.join.
  rewrite zip_name_start. change (PyStr.startswith "/" (layer_of (unzip gid))) with false.
  destruct (PyStr.last_char (out_dir args)) as [c|] eqn:E.
  - destruct (Ascii.eqb c PosixPath.sep) eqn:Ec.
    + apply Ascii.eqb_eq in Ec. subst c. destruct (last_char_inv _ _ E) as [o' Ho'].
      rewrite Ho' in *. rewrite (unzip_app "/" eq_refl) in Ho.
      rewrite append_assoc. change ("/" ++ zip_name gid)%string with (String "/" (zip_name gid)).
      rewrite (unzip_app (String "/" (zip_name gid)) eq_refl).
      rewrite unzip_skip by reflexivity. rewrite unzip_zip_name.
      change (unzip "/") with "/"%string in Ho. apply append_inj_r in Ho.
      rewrite Ho, append_assoc. reflexivity.
    + change ("/" ++ zip_name gid)%string with (String "/" (zip_name gid)).
      rewrite (unzip_app (String "/" (zip_name gid)) eq_refl).
      rewrite unzip_skip by reflexivity. rewrite unzip_zip_name, Ho. reflexivity.
  - apply unzip_zip_name.
Qed.

(* ------------------------------------------------------------------ *)
(** * Starting Earth Engine *)

Lemma initialize_eq host after project w :
  initialize host after project w
  = (log w [EvInitialize (project_arg project)],
     match ee_initialize host after (project_arg project) with
     | None => Returned tt
     | Some e => Raised e
     end).
Proof.
  unfold initialize, bind. rewrite emit_log. fold (project_arg project).
  destruct (ee_initialize host after (project_arg project)); reflexivity.
Qed.

Lemma authenticate_eq host w :
  authenticate host w
  = (log w [EvAuthenticate],
     match ee_authenticate host with None => Returned tt | Some e => Raised e end).
Proof.
  unfold authenticate, bind. rewrite emit_log. destruct (ee_authenticate host); reflexivity.
Qed.

(** what [init_ee] does, case by case *)
Lemma init_ee_eq host project w :
  let p := project_arg project in
  init_ee host project w
  = match ee_initialize host false p with
    | None => (log w [EvInitialize p], Returned tt)
    | Some e =>
        if is_Exception e then
          match ee_authenticate host with
          | Some e2 =>
              (log w [EvInitialize p; EvPrint MsgEeNotInitialized; EvAuthenticate], Raised e2)
          | None =>
              (log w [EvInitialize p; EvPrint MsgEeNotInitialized; EvAuthenticate;
                      EvInitialize p],
               match ee_initialize host true p with
               | None => Returned tt
               | Some e3 => Raised e3
               end)
          end
        else (log w [EvInitialize p], Raised e)
    end.
Proof.
  cbv zeta. unfold init_ee. rewrite initialize_eq.
  destruct (ee_initialize host false (project_arg project)) as [e|]; [|reflexivity].
  destruct (is_Exception e); [|reflexivity].
  unfold bind. rewrite print_log, authenticate_eq.
  destruct (ee_authenticate host) as [e2|]; rewrite !log_log; [reflexivity|].
  rewrite initialize_eq, log_log. reflexivity.
Qed.

(** X1: whatever Earth Engine answers, [init_ee] leaves the file system
    alone, calls [ee.Initialize] once or twice with the same project
    argument and [ee.Authenticate] at most once, and the authentication is
    always announced and never comes first. *)
Theorem X1_init_ee_steps host project w :
  let p := project_arg project in
  let w' := fst (init_ee host project w) in
  w_fs w' = w_fs w
  /\ (w_trace w' = w_trace w ++ [EvInitialize p]
      \/ w_trace w' = w_trace w ++ [EvInitialize p; EvPrint MsgEeNotInitialized; EvAuthenticate]
      \/ w_trace w' = w_trace w ++ [EvInitialize p; EvPrint MsgEeNotInitialized; EvAuthenticate;
                                    EvInitialize p]).
Proof.
  intros p w'. subst w'. rewrite init_ee_eq. cbv zeta. fold p.
  destruct (ee_initialize host false p) as [e|]; [|simpl; auto].
  destruct (is_Exception e); [|simpl; auto].
  destruct (ee_authenticate host); simpl; auto.
Qed.

(** X2: when the first [ee.Initialize] raises an [Exception], that exception
    is dropped: the notice is printed, [ee.Authenticate] runs, and the
    outcome of [init_ee] is the outcome of the second [ee.Initialize], made
    with the same project; an exception of [ee.Authenticate] ends the call
    before any second attempt. *)
Theorem X2_init_ee_retries host project w e :
  ee_initialize host false (project_arg project) = Some e ->
  is_Exception e = true ->
  let p := project_arg project in
  (forall e2, ee_authenticate host = Some e2 ->
     init_ee host project w
     = (log w [EvInitialize p; EvPrint MsgEeNotInitialized; EvAuthenticate], Raised e2))
  /\ (ee_authenticate host = None ->
      init_ee host project w
      = (log w [EvInitialize p; EvPrint MsgEeNotInitialized; EvAuthenticate; EvInitialize p],
         match ee_initialize host true p with
         | None => Returned tt
         | Some e3 => Raised e3
         end)).
Proof.
  intros H1 H2 p. split.
  - intros e2 Ha. rewrite init_ee_eq. cbv zeta. fold p. unfold p at 1. rewrite H1, H2, Ha.
    reflexivity.
  - intros Ha. rewrite init_ee_eq. cbv zeta. fold p. unfold p at 1. rewrite H1, H2, Ha.
    reflexivity.
Qed.

Lemma X2_init_ee_retries_witness :
  init_ee Demo.host_signed_out (Some "my-project") Demo.world0
  = (log Demo.world0 [EvInitialize (Some "my-project"); EvPrint MsgEeNotInitialized;
                      EvAuthenticate; EvInitialize (Some "my-project")],
     Returned tt).
Proof.
  exact (proj2 (X2_init_ee_retries Demo.host_signed_out (Some "my-project") Demo.world0
                  (HostException "EEException: Please authorize access.") eq_refl eq_refl)
               eq_refl).
Defined.

(** X3: [init_ee] returns without authenticating when the first
    [ee.Initialize] succeeds; and an exception that is no [Exception] (a
    [KeyboardInterrupt]) passes through [except Exception]: it is the outcome
    of the call, nothing is printed and no authentication starts.  An empty
    project name counts as none. *)
Theorem X3_init_ee_no_authentication host project w :
  (ee_initialize host false (project_arg project) = None ->
   init_ee host project w = (log w [EvInitialize (project_arg project)], Returned tt))
  /\ (forall e, ee_initialize host false (project_arg project) = Some e ->
                is_Exception e = false ->
                init_ee host project w = (log w [EvInitialize (project_arg project)], Raised e))
  /\ init_ee host (Some "") w = init_ee host None w.
Proof.
  split; [|split].
  - intros H. rewrite init_ee_eq. cbv zeta. rewrite H. reflexivity.
  - intros e H He. rewrite init_ee_eq. cbv zeta. rewrite H, He. reflexivity.
  - rewrite !init_ee_eq. reflexivity.
Qed.

Lemma X3_init_ee_no_authentication_witness :
  init_ee Demo.host_interrupted None Demo.world0
  = (log Demo.world0 [EvInitialize None], Raised (HostBaseException "KeyboardInterrupt")).
Proof.
  exact (proj1 (proj2 (X3_init_ee_no_authentication Demo.host_interrupted None Demo.world0))
               (HostBaseException "KeyboardInterrupt") eq_refl eq_refl).
Defined.

(* ------------------------------------------------------------------ *)
(** * Making a directory *)



(* ------------------------------------------------------------------ *)
(** * From features to a frame *)

Lemma shapes_of_rows host feats : forall rows,
  shapes_of host feats = Returned rows -> Forall2 (shape_of host) feats rows.
Proof.
  induction feats as [|f feats IH]; simpl; intros rows H.
  - injection H as <-. constructor.
  - destruct (f_geometry f) as [g|] eqn:Eg; [|discriminate].
    destruct (shp_shape host g) as [geom|] eqn:Es; [|discriminate].
    destruct (shapes_of host feats) as [rs|]; [|discriminate].
    injection H as <-. constructor; [|apply IH; reflexivity].
    exists g. auto.
Qed.

(** ** The columns of a frame *)

Lemma add_keys_in seen keys k :
  In k (add_keys seen keys) <-> In k seen \/ In k keys.
Proof.
  revert seen. induction keys as [|x keys IH]; intros seen; simpl; [tauto|].
  destruct (existsb (String.eqb x) seen) eqn:E.
  - rewrite IH. apply existsb_eqb_In in E. split; [tauto|].
    intros [H|[<-|H]]; auto.
  - rewrite IH, in_app_iff. simpl. tauto.
Qed.

Lemma add_keys_nodup seen keys : NoDup seen -> NoDup (add_keys seen keys).
Proof.
  revert seen. induction keys as [|x keys IH]; intros seen Hs; simpl; [exact Hs|].
  destruct (existsb (String.eqb x) seen) eqn:E; [apply IH, Hs|].
  apply IH. apply existsb_eqb_notin in E.
  apply NoDup_app; [exact Hs|constructor; [intros []|constructor]|].
  intros y Hy [<-|[]]. exact (E Hy).
Qed.

Lemma union_keys_from seen dicts k :
  In k (fold_left (fun seen d => add_keys seen (map fst d)) dicts seen)
  <-> In k seen \/ exists d : properties, In d dicts /\ In k (map fst d).
Proof.
  revert seen. induction dicts as [|d dicts IH]; intros seen; simpl.
  - split; [auto|]. intros [H|(d & [] & _)]. exact H.
  - rewrite IH, add_keys_in. split.
    + intros [[H|H]|(d' & H1 & H2)]; eauto.
    + intros [H|(d' & [<-|H1] & H2)]; eauto.
Qed.

Lemma union_keys_in dicts k :
  In k (union_keys dicts) <-> exists d : properties, In d dicts /\ In k (map fst d).
Proof.
  unfold union_keys. rewrite union_keys_from. simpl. tauto.
Qed.

Lemma union_keys_nodup dicts : NoDup (union_keys dicts).
Proof.
  unfold union_keys. generalize (NoDup_nil string). generalize (@nil string).
  induction dicts as [|d dicts IH]; intros seen Hs; simpl; [exact Hs|].
  apply IH, add_keys_nodup, Hs.
Qed.

Lemma dict_get_in k (d : properties) : dict_get k d <> None <-> In k (map fst d).
Proof.
  induction d as [|[x v] d IH]; simpl; [tauto|].
  destruct (String.eqb_spec x k) as [->|Hx].
  - split; [auto|discriminate].
  - rewrite IH. tauto.
Qed.

Lemma shapes_of_stops host good l e :
  Forall (converts host) good ->
  shapes_of host l = Raised e ->
  shapes_of host (good ++ l) = Raised e.
Proof.
  intros Hg Hl. induction Hg as [|f0 good (g0 & geom0 & E1 & E2) _ IH]; [exact Hl|].
  simpl. rewrite E1, E2, IH. reflexivity.
Qed.

(** X6: a call of [fc_to_geodataframe] that returns has asked Earth Engine
    once and done nothing else.  The frame is in EPSG:4326.  Its attribute
    columns are the keys of the properties of the features, each once, in
    the order in which they first appear (a key ["geometry"] would be
    taken by the geometry column).  It has one row per feature of the
    answer, in the order of the answer: the geometry of the row is the shape
    of the feature's geometry, and in every column the row holds the
    feature's property of that name, or [NaN] where the feature has none --
    in all columns for a feature without properties. *)
Theorem X6_frame_rows host fc w w' gdf :
  fc_to_geodataframe host fc w = (w', Returned gdf) ->
  w' = log w [EvGetInfo fc]
  /\ gdf_crs gdf = "EPSG:4326"
  /\ exists info,
       ee_getInfo host fc = Returned info
       /\ gdf_columns gdf
          = filter (fun k => negb (String.eqb k "geometry"))
                   (union_keys (map props_of (features info)))
       /\ NoDup (gdf_columns gdf)
       /\ (forall k, In k (gdf_columns gdf)
                     <-> k <> "geometry"
                         /\ exists f, In f (features info) /\ dict_get k (props_of f) <> None)
       /\ Forall2 (row_of host (gdf_columns gdf)) (features info) (gdf_rows gdf).
Proof.
  rewrite fc_to_geodataframe_eq. intros H. injection H as <- H. split; [reflexivity|].
  destruct (ee_getInfo host fc) as [info|]; [|discriminate].
  unfold frame_of in H. fold (features info) in H.
  assert (Hrows : exists rows, Forall2 (shape_of host) (features info) rows
                               /\ gdf = GeoDataFrame rows "EPSG:4326").
  { destruct (features info) as [|f fs] eqn:Ef.
    - injection H as <-. exists []. split; [constructor|reflexivity].
    - destruct (shapes_of host (f :: fs)) as [rows|] eqn:Es; [|discriminate].
      injection H as <-. exists rows. split; [apply shapes_of_rows, Es|reflexivity]. }
  clear H. destruct Hrows as (rows & Hrows & ->).
  assert (Hprops : map fst rows = map props_of (features info)).
  { clear - Hrows. induction Hrows as [|f row fs rows' (g & _ & _ & E) _ IH]; [reflexivity|].
    simpl. rewrite E, IH. reflexivity. }
  split; [reflexivity|]. exists info. split; [reflexivity|].
  cbn [GeoDataFrame gdf_columns gdf_rows]. rewrite Hprops.
  split; [reflexivity|]. split; [apply NoDup_filter, union_keys_nodup|]. split.
  - intros k. rewrite filter_In, union_keys_in, negb_true_iff. split.
    + intros [(d & Hd & Hk) Hg]. split; [intros ->; discriminate|].
      apply in_map_iff in Hd. destruct Hd as (f & <- & Hf).
      exists f. split; [exact Hf|]. apply dict_get_in, Hk.
    + intros [Hg (f & Hf & Hk)]. split.
      * exists (props_of f). split; [apply in_map, Hf|apply dict_get_in, Hk].
      * apply String.eqb_neq, Hg.
  - generalize (filter (fun k => negb (String.eqb k "geometry"))
                       (union_keys (map props_of (features info)))).
    intros columns. clear Hprops.
    induction Hrows as [|f row fs rows' (g & E1 & E2 & E3) _ IH]; [constructor|].
    simpl. constructor; [|exact IH]. exists g. simpl. rewrite E3. auto.
Qed.

Lemma X6_frame_rows_witness :
  exists gdf,
    snd (fc_to_geodataframe Demo.host_mixed (get_subbasins_fc (-79.5) 43.5 25) Demo.world0)
    = Returned gdf
    /\ gdf_columns gdf = ["HYBAS_ID"; "UP_AREA"]%string
    /\ gdf_rows gdf = [([Some "a"; None], "a"); ([None; None], "b");
                       ([Some "c"; Some "7"], "c")]%string
    /\ exists info,
         ee_getInfo Demo.host_mixed (get_subbasins_fc (-79.5) 43.5 25) = Returned info
         /\ Forall2 (row_of Demo.host_mixed (gdf_columns gdf)) (features info) (gdf_rows gdf).
Proof.
  eexists. split; [reflexivity|]. split; [reflexivity|]. split; [reflexivity|].
  destruct (X6_frame_rows Demo.host_mixed (get_subbasins_fc (-79.5) 43.5 25) Demo.world0
              _ _ eq_refl) as (_ & _ & info & Hi & _ & _ & _ & Hr).
  exists info. split; [exact Hi|exact Hr].
Defined.

(** X7: the first feature that cannot be converted decides the call: when
    the features before it convert, a feature without a geometry raises
    [KeyError("geometry")] and a geometry that [shape] rejects raises the
    exception of [shape], whatever features follow; no frame is built from
    the features that did convert. *)
Theorem X7_frame_first_failure host fc w info good f rest :
  ee_getInfo host fc = Returned info ->
  features info = good ++ f :: rest ->
  Forall (converts host) good ->
  (f_geometry f = None ->
   fc_to_geodataframe host fc w = (log w [EvGetInfo fc], Raised (KeyError "geometry")))
  /\ (forall g e, f_geometry f = Some g -> shp_shape host g = Raised e ->
                  fc_to_geodataframe host fc w = (log w [EvGetInfo fc], Raised e)).
Proof.
  intros Hi Hf Hg. rewrite fc_to_geodataframe_eq, Hi. fold (features info). rewrite Hf.
  assert (Hs : forall e, shapes_of host (f :: rest) = Raised e ->
                         frame_of host (good ++ f :: rest) = Raised e).
  { intros e He. apply (shapes_of_stops host good _ e Hg) in He.
    unfold frame_of. destruct (good ++ f :: rest) as [|f0 l] eqn:E.
    - destruct good; discriminate.
    - rewrite He. reflexivity. }
  split.
  - intros Hn. rewrite (Hs (KeyError "geometry")); [reflexivity|].
    simpl. rewrite Hn. reflexivity.
  - intros g e Hsome He. rewrite (Hs e); [reflexivity|].
    simpl. rewrite Hsome, He. reflexivity.
Qed.

Lemma X7_frame_first_failure_witness :
  fc_to_geodataframe Demo.host_no_geometry (get_subbasins_fc 10 10 25) Demo.world0
  = (log Demo.world0 [EvGetInfo (get_subbasins_fc 10 10 25)], Raised (KeyError "geometry")).
Proof.
  refine (proj1 (X7_frame_first_failure Demo.host_no_geometry (get_subbasins_fc 10 10 25)
                   Demo.world0 _ [Demo.feat "a"]
                   {| f_geometry := None; f_properties := None |}
                   [Demo.feat "c"] eq_refl eq_refl _) eq_refl).
  constructor; [|constructor]. exists "a", "a". split; reflexivity.
Defined.

(* ------------------------------------------------------------------ *)
(** * Reading a row *)

Lemma row_dict_eq host columns row :
  row_dict host columns row = rev (combine (fields_of host columns) row).
Proof.
  unfold row_dict, fields_of. destruct (itertuples_fields host columns); reflexivity.
Qed.

Lemma row_get_raised row k e :
  row_get row k = Raised e -> e = KeyError k /\ ~ In k (map fst row).
Proof.
  induction row as [|[k0 v] row IH]; simpl.
  - intros H. injection H as <-. auto.
  - destruct (String.eqb_spec k0 k) as [->|Hk]; [discriminate|].
    intros H. destruct (IH H) as [-> Hn]. split; [reflexivity|]. intros [?|?]; auto.
Qed.

Lemma row_get_missing row k : ~ In k (map fst row) -> row_get row k = Raised (KeyError k).
Proof.
  induction row as [|[k0 v] row IH]; simpl; intros H; [reflexivity|].
  destruct (String.eqb_spec k0 k) as [->|Hk]; [tauto|]. apply IH. tauto.
Qed.

Lemma row_get_app a b k :
  row_get (a ++ b) k
  = match row_get a k with
    | Returned v => Returned v
    | Raised _ => row_get b k
    end.
Proof.
  induction a as [|[k0 v] a IH]; simpl; [reflexivity|].
  destruct (String.eqb k0 k); [reflexivity|exact IH].
Qed.

(** in the reversed list the last pair of a key is the one found *)
Lemma row_get_rev_last l : forall i k c,
  nth_error l i = Some (k, c) ->
  (forall j c', nth_error l j = Some (k, c') -> (j <= i)%nat) ->
  row_get (rev l) k = Returned c.
Proof.
  induction l as [|[k0 v0] l IH]; intros i k c Hi Hlast; [destruct i; discriminate|].
  simpl rev. rewrite row_get_app. destruct i as [|i].
  - simpl in Hi. injection Hi as -> ->.
    rewrite row_get_missing.
    + simpl. rewrite String.eqb_refl. reflexivity.
    + rewrite map_rev, <- in_rev. intros Hin.
      apply in_map_iff in Hin. destruct Hin as ([k1 c1] & Hk & Hin). simpl in Hk. subst k1.
      apply In_nth_error in Hin. destruct Hin as [j Hj].
      specialize (Hlast (S j) c1 Hj). lia.
  - simpl in Hi. rewrite (IH i k c Hi); [reflexivity|].
    intros j c' Hj. specialize (Hlast (S j) c' Hj). lia.
Qed.

Lemma in_fst_combine {A B} (a : list A) (b : list B) x :
  In x (map fst (combine a b)) -> In x a.
Proof.
  intros H. apply in_map_iff in H. destruct H as ([x' y] & <- & H).
  apply in_combine_l in H. exact H.
Qed.

(** X8: [process_gauge_row] reads the latitude, then the longitude, then the
    id, and stops at the first it cannot read: a missing key raises
    [KeyError] of that column, a value [float] rejects raises the exception
    of [float].  In each case the world is as before the call: nothing was
    printed and Earth Engine was not asked anything. *)
Theorem X8_unreadable_row host args row cp w :
  (forall e, row_get row (lat_col args) = Raised e ->
     e = KeyError (lat_col args)
     /\ process_gauge_row host row args cp w = (w, Raised e))
  /\ (forall c e, row_get row (lat_col args) = Returned c ->
        py_float host c = Raised e ->
        process_gauge_row host row args cp w = (w, Raised e))
  /\ (forall c lat e, row_get row (lat_col args) = Returned c ->
        py_float host c = Returned lat ->
        row_get row (lon_col args) = Raised e ->
        e = KeyError (lon_col args)
        /\ process_gauge_row host row args cp w = (w, Raised e))
  /\ (forall c lat c' e, row_get row (lat_col args) = Returned c ->
        py_float host c = Returned lat ->
        row_get row (lon_col args) = Returned c' ->
        py_float host c' = Raised e ->
        process_gauge_row host row args cp w = (w, Raised e))
  /\ (forall c lat c' lon e, row_get row (lat_col args) = Returned c ->
        py_float host c = Returned lat ->
        row_get row (lon_col args) = Returned c' ->
        py_float host c' = Returned lon ->
        row_get row (id_col args) = Raised e ->
        e = KeyError (id_col args)
        /\ process_gauge_row host row args cp w = (w, Raised e)).
Proof.
  unfold process_gauge_row, bind, of_outcome. split; [|split; [|split; [|split]]].
  - intros e H. split; [apply (row_get_raised _ _ _ H)|]. rewrite H. reflexivity.
  - intros c e H H0. rewrite H, H0. reflexivity.
  - intros c lat e H H0 H1. split; [apply (row_get_raised _ _ _ H1)|].
    rewrite H, H0, H1. reflexivity.
  - intros c lat c' e H H0 H1 H2. rewrite H, H0, H1, H2. reflexivity.
  - intros c lat c' lon e H H0 H1 H2 H3. split; [apply (row_get_raised _ _ _ H3)|].
    rewrite H, H0, H1, H2, H3. reflexivity.
Qed.

Lemma X8_unreadable_row_witness :
  process_gauge_row Demo.host
    (row_dict Demo.host (df_columns Demo.table) [CStr "02HA003"; CStr "n/a"; CFloat (-79.5)])
    Demo.args [] Demo.world0
  = (Demo.world0, Raised (ValueError "could not convert string to float")).
Proof.
  exact (proj1 (proj2 (X8_unreadable_row Demo.host Demo.args
                         (row_dict Demo.host (df_columns Demo.table)
                                   [CStr "02HA003"; CStr "n/a"; CFloat (-79.5)])
                         [] Demo.world0))
               (CStr "n/a") _ eq_refl eq_refl).
Defined.

(** X9: the dictionary of a row gives, for a field name, the cell at the
    position of that name; when the name occurs at several positions it is
    the last one, as for a Python [dict].  A name that is not among the
    field names raises [KeyError]: so a row of a table whose latitude column
    [itertuples] has renamed stops [process_gauge_row] at once. *)
Theorem X9_row_dict_lookup host columns row :
  (forall i k c,
      nth_error (combine (fields_of host columns) row) i = Some (k, c) ->
      (forall j c', nth_error (combine (fields_of host columns) row) j = Some (k, c') ->
                    (j <= i)%nat) ->
      row_get (row_dict host columns row) k = Returned c)
  /\ (forall k, ~ In k (fields_of host columns) ->
                row_get (row_dict host columns row) k = Raised (KeyError k))
  /\ (forall args cp w,
         ~ In (lat_col args) (fields_of host columns) ->
         process_gauge_row host (row_dict host columns row) args cp w
         = (w, Raised (KeyError (lat_col args)))).
Proof.
  assert (Hmiss : forall k, ~ In k (fields_of host columns) ->
                            row_get (row_dict host columns row) k = Raised (KeyError k)).
  { intros k Hk. apply row_get_missing. rewrite row_dict_eq, map_rev, <- in_rev.
    intros Hin. apply Hk. eapply in_fst_combine, Hin. }
  split; [|split].
  - intros i k c Hi Hlast. rewrite row_dict_eq. eapply row_get_rev_last; eauto.
  - exact Hmiss.
  - intros args cp w Hk. unfold process_gauge_row, bind, of_outcome.
    rewrite (Hmiss _ Hk). reflexivity.
Qed.

Lemma X9_row_dict_lookup_witness :
  row_get Demo.row1 "LATITUDE" = Returned (CFloat 43.5).
Proof.
  refine (proj1 (X9_row_dict_lookup Demo.host (df_columns Demo.table)
                   [CStr "02HA003"; CFloat 43.5; CFloat (-79.5)])
                1%nat "LATITUDE" (CFloat 43.5) eq_refl _).
  intros [|[|[|j]]] c' H; try lia; try discriminate.
  destruct j; discriminate.
Defined.

(* ------------------------------------------------------------------ *)
(** * The transcript of a run *)

Lemma process_known_events host args cp gid lat lon w w' cp' :
  process_known host args cp gid lat lon w = (w', Returned cp') ->
  w_trace w' = w_trace w ++ row_events host args (gid, lat, lon).
Proof.
  unfold row_events. destruct (export_mode args) eqn:Hm.
  - rewrite process_known_client by exact Hm. cbv zeta.
    unfold has_features, features_of.
    destruct (ee_getInfo host _) as [info|e]; [|discriminate].
    destruct (frame_of host _) as [gdf|e] eqn:Ef; [|discriminate].
    apply frame_of_empty in Ef. rewrite Ef.
    destruct (match info_features info with Some l => l | None => [] end) as [|f fs].
    + intros H. injection H as <- _. simpl. rewrite <- app_assoc. reflexivity.
    + pose proof (keeps_trace_write_shapefile_zip host gdf (out_zip_of args gid) (layer_of gid)
                    (log w [EvPrint (MsgProcessing gid lat lon);
                            EvGetInfo (get_subbasins_fc lon lat (buffer_km args))])) as K.
      destruct (write_shapefile_zip host gdf _ _ _) as [w2 [[]|e]]; [|discriminate].
      simpl fst in K. intros H. injection H as <- _. simpl. rewrite K. simpl.
      rewrite <- app_assoc. reflexivity.
  - rewrite process_known_drive by exact Hm. cbv zeta.
    destruct (ee_start host _) as [tid|e]; [|discriminate].
    intros H. injection H as <- _. simpl. rewrite <- app_assoc. reflexivity.
Qed.

Lemma after_sleep_trace args w count :
  limit_reached (limit args) count = false ->
  w_trace (after_sleep args w) = w_trace w ++ step_events args count.
Proof.
  intros Hl. unfold after_sleep, step_events. rewrite Hl.
  destruct (0 <? sleep_sec args)%float; [reflexivity|]. rewrite app_nil_r. reflexivity.
Qed.

(** The transcript of a loop that returns: for each row reached, in order,
    the lines and requests of its gauge, then the pause or the notice of the
    limit. *)
Lemma main_loop_events host args columns rows :
  forall cp count w w' r,
  main_loop host args columns rows cp count w = (w', Returned r) ->
  w_trace w' = w_trace w
               ++ loop_events host args count (gauges_reached host args columns count rows).
Proof.
  induction rows as [|row rest IH]; intros cp count w w' r H.
  - simpl in H. injection H as <- _. unfold gauges_reached. simpl. rewrite app_nil_r.
    reflexivity.
  - rewrite main_loop_cons in H.
    destruct (gauge_of host args (row_dict host columns row)) as [[[gid lat] lon]|] eqn:Hg.
    2:{ destruct (process_gauge_row_unknown host args _ cp w Hg) as [e He].
        rewrite He in H. discriminate. }
    rewrite (process_gauge_row_known _ _ _ cp _ _ _ w Hg) in H.
    pose proof (process_known_events host args cp gid lat lon w) as He.
    destruct (process_known host args cp gid lat lon w) as [w1 [cp1|e]]; [|discriminate].
    specialize (He w1 cp1 eq_refl).
    unfold gauges_reached. simpl rows_reached. simpl map. rewrite Hg. simpl somes.
    destruct (limit_reached (limit args) (count + 1)) eqn:Hl.
    + injection H as <- _. simpl somes. simpl loop_events. unfold step_events. rewrite Hl.
      simpl w_trace. rewrite He, <- app_assoc. f_equal.
    + apply IH in H. fold (gauges_reached host args columns (count + 1) rest).
      rewrite H, (after_sleep_trace _ _ _ Hl), He. simpl loop_events.
      rewrite <- !app_assoc. reflexivity.
Qed.

(** the rows a returning loop reached were all readable *)
Lemma main_loop_gauges host args columns rows cp count w w' r :
  main_loop host args columns rows cp count w = (w', Returned r) ->
  List.length (gauges_reached host args columns count rows)
  = List.length (rows_reached (limit args) count rows).
Proof.
  destruct r as [cp' count']. intros H. apply main_loop_returned in H. cbv zeta in H.
  destruct H as (H & _). rewrite <- (length_map Some), H. apply length_map.
Qed.

Lemma pick_app {X} (f : event -> option X) a b : pick f (a ++ b) = pick f a ++ pick f b.
Proof. apply flat_map_app. Qed.

Lemma requested_row_events host args g :
  requested (row_events host args g) = [collection_of args g].
Proof.
  destruct g as [[gid lat] lon]. unfold row_events. simpl.
  destruct (export_mode args); [reflexivity|].
  simpl. destruct (ee_start host _); reflexivity.
Qed.

Lemma requested_step_events args count : requested (step_events args count) = [].
Proof.
  unfold step_events. destruct (limit_reached _ _); [reflexivity|].
  destruct (0 <? sleep_sec args)%float; reflexivity.
Qed.

Lemma requested_loop_events host args gs : forall count,
  requested (loop_events host args count gs) = map (collection_of args) gs.
Proof.
  induction gs as [|g gs IH]; intros count; [reflexivity|].
  simpl loop_events. rewrite !requested_app, requested_row_events, requested_step_events, IH.
  reflexivity.
Qed.

(** X10: a loop that returns has sent Earth Engine one collection for each
    row it reached, in the order of the rows, in either mode and whether or
    not the answer had features: the fixed level-12 dataset, filtered by the
    buffer of [buffer_km * 1000] around the point whose first coordinate is
    the longitude of the row and whose second is its latitude. *)
Theorem X10_one_request_per_row host args columns rows cp count w w' r :
  main_loop host args columns rows cp count w = (w', Returned r) ->
  requested (w_trace w')
  = requested (w_trace w)
    ++ map (collection_of args) (gauges_reached host args columns count rows).
Proof.
  intros H. rewrite (main_loop_events _ _ _ _ _ _ _ _ _ H), requested_app.
  rewrite requested_loop_events. reflexivity.
Qed.

Lemma X10_one_request_per_row_witness :
  requested (w_trace (fst (main_loop Demo.host Demo.args (df_columns Demo.table)
                             (df_rows Demo.table) [] 0 Demo.world1)))
  = [FilterBounds (FeatureCollection "WWF/HydroATLAS/v1/Basins/level12")
                  (Buffer (Point (-79.5) 43.5) 25000);
     FilterBounds (FeatureCollection "WWF/HydroATLAS/v1/Basins/level12")
                  (Buffer (Point 10 10) 25000);
     FilterBounds (FeatureCollection "WWF/HydroATLAS/v1/Basins/level12")
                  (Buffer (Point (-80) 44) 25000)].
Proof.
  refine (X10_one_request_per_row Demo.host Demo.args (df_columns Demo.table)
            (df_rows Demo.table) [] 0%Z Demo.world1 _ _ _).
  vm_compute. reflexivity.
Defined.

Lemma started_app a b : started (a ++ b) = started a ++ started b.
Proof. apply pick_app. Qed.

Lemma started_row_events host args g :
  started (row_events host args g)
  = match export_mode args with
    | client => []
    | ee_drive => [export_of args g]
    end.
Proof.
  destruct g as [[gid lat] lon]. unfold row_events, started.
  destruct (export_mode args); [reflexivity|].
  simpl. destruct (ee_start host _); reflexivity.
Qed.

Lemma started_step_events args count : started (step_events args count) = [].
Proof.
  unfold step_events. destruct (limit_reached _ _); [reflexivity|].
  destruct (0 <? sleep_sec args)%float; reflexivity.
Qed.

Lemma started_loop_events host args gs : forall count,
  started (loop_events host args count gs)
  = match export_mode args with
    | client => []
    | ee_drive => map (export_of args) gs
    end.
Proof.
  induction gs as [|g gs IH]; intros count; [destruct (export_mode args); reflexivity|].
  simpl loop_events. rewrite !started_app, started_row_events, started_step_events, IH.
  destruct (export_mode args); reflexivity.
Qed.

(** X11: in remote mode a loop that returns has started one export task for
    each row it reached, in the order of the rows: a table export of the
    collection of the gauge, in format SHP, described as
    [gauge_<id>_subbasins], into the Drive folder of the command line.  In
    local mode no export task is ever started. *)
Theorem X11_exports_started host args columns rows cp count w w' r :
  main_loop host args columns rows cp count w = (w', Returned r) ->
  started (w_trace w')
  = started (w_trace w)
    ++ match export_mode args with
       | client => []
       | ee_drive => map (export_of args) (gauges_reached host args columns count rows)
       end.
Proof.
  intros H. rewrite (main_loop_events _ _ _ _ _ _ _ _ _ H), started_app.
  rewrite started_loop_events. reflexivity.
Qed.

Lemma X11_exports_started_witness :
  map task_description
      (started (w_trace (fst (main_loop Demo.host (Demo.with_mode ee_drive Demo.args)
                                (df_columns Demo.table) (df_rows Demo.table) [] 0
                                Demo.world0))))
  = ["gauge_02HA003_subbasins"; "gauge_02HB001_subbasins"; "gauge_02HC002_subbasins"].
Proof.
  refine (f_equal (map task_description)
            (X11_exports_started Demo.host (Demo.with_mode ee_drive Demo.args)
               (df_columns Demo.table) (df_rows Demo.table) [] 0%Z Demo.world0 _ _ _)).
  vm_compute. reflexivity.
Defined.

(** ** Pauses and the notice of the limit *)

Lemma pauses_S args k :
  pauses args (S k) = (if (0 <? sleep_sec args)%float then [sleep_sec args] else []) ++ pauses args k.
Proof. unfold pauses. destruct (0 <? sleep_sec args)%float; reflexivity. Qed.

Lemma slept_app a b : slept (a ++ b) = slept a ++ slept b.
Proof. apply pick_app. Qed.

Lemma notices_app a b : notices (a ++ b) = notices a ++ notices b.
Proof. apply pick_app. Qed.

Lemma slept_row_events host args g : slept (row_events host args g) = [].
Proof.
  destruct g as [[gid lat] lon]. unfold row_events, slept.
  destruct (export_mode args).
  - destruct (has_features host args (gid, lat, lon)); reflexivity.
  - destruct (ee_start host (task_of args gid lat lon)); reflexivity.
Qed.

Lemma notices_row_events host args g : notices (row_events host args g) = [].
Proof.
  destruct g as [[gid lat] lon]. unfold row_events, notices.
  destruct (export_mode args).
  - destruct (has_features host args (gid, lat, lon)); reflexivity.
  - destruct (ee_start host (task_of args gid lat lon)); reflexivity.
Qed.

Lemma step_events_going args count :
  limit_reached (limit args) count = false ->
  slept (step_events args count) = pauses args 1
  /\ notices (step_events args count) = [].
Proof.
  intros H. unfold step_events, pauses. rewrite H.
  destruct (0 <? sleep_sec args)%float; split; reflexivity.
Qed.

Lemma step_events_stopping args count :
  limit_reached (limit args) count = true ->
  slept (step_events args count) = []
  /\ notices (step_events args count) = [limit_value args].
Proof. intros H. unfold step_events. rewrite H. split; reflexivity. Qed.

Lemma pauses_1_app args k : pauses args 1 ++ pauses args k = pauses args (S k).
Proof. unfold pauses. destruct (0 <? sleep_sec args)%float; reflexivity. Qed.

(** without a limit every record is followed by a pause *)
Lemma loop_events_unlimited host args gs :
  limit args = None \/ limit args = Some 0%Z ->
  forall count,
    slept (loop_events host args count gs) = pauses args (List.length gs)
    /\ notices (loop_events host args count gs) = [].
Proof.
  intros Hl. induction gs as [|g gs IH]; intros count.
  - unfold pauses. simpl. destruct (0 <? sleep_sec args)%float; auto.
  - assert (Hr : limit_reached (limit args) (count + 1) = false)
      by (destruct Hl as [-> | ->]; reflexivity).
    destruct (step_events_going args _ Hr) as [S1 N1].
    destruct (IH (count + 1)%Z) as [S2 N2].
    simpl loop_events. rewrite !slept_app, !notices_app.
    rewrite slept_row_events, notices_row_events, S1, N1, S2, N2.
    split; [apply pauses_1_app|reflexivity].
Qed.

(** with a limit [n] the record that brings the count to [n] is followed by
    the notice, every earlier one by a pause *)
Lemma loop_events_limited host args n gs :
  limit args = Some n -> (0 < n)%Z ->
  forall count, (0 <= count < n)%Z -> (Z.of_nat (List.length gs) <= n - count)%Z ->
    slept (loop_events host args count gs)
    = pauses args (if (Z.of_nat (List.length gs) =? n - count)%Z
                   then List.length gs - 1 else List.length gs)
    /\ notices (loop_events host args count gs)
       = if (Z.of_nat (List.length gs) =? n - count)%Z then [n] else [].
Proof.
  intros Hl Hn. induction gs as [|g gs IH]; intros count Hc Hlen.
  - simpl List.length. destruct (Z.eqb_spec (Z.of_nat 0) (n - count)); [lia|].
    unfold pauses. simpl. destruct (0 <? sleep_sec args)%float; auto.
  - simpl loop_events. rewrite !slept_app, !notices_app.
    rewrite slept_row_events, notices_row_events.
    simpl List.length in *.
    destruct (limit_reached (limit args) (count + 1)) eqn:Hr.
    + destruct (step_events_stopping args _ Hr) as [S1 N1]. rewrite S1, N1.
      rewrite Hl in Hr. simpl in Hr. apply andb_prop in Hr. destruct Hr as [_ Hr].
      apply Z.leb_le in Hr.
      destruct gs as [|g' gs]; [|simpl List.length in Hlen; lia].
      simpl List.length. destruct (Z.eqb_spec (Z.of_nat 1) (n - count)); [|lia].
      unfold limit_value. rewrite Hl. unfold pauses. simpl.
      destruct (0 <? sleep_sec args)%float; auto.
    + destruct (step_events_going args _ Hr) as [S1 N1]. rewrite S1, N1.
      rewrite Hl in Hr. simpl in Hr.
      assert (Hlt : (count + 1 < n)%Z).
      { destruct (Z.eqb_spec n 0); [lia|]. simpl in Hr. apply Z.leb_gt in Hr. exact Hr. }
      destruct (IH (count + 1)%Z) as [S2 N2]; [lia|lia|].
      rewrite S2, N2.
      destruct (Z.eqb_spec (Z.of_nat (List.length gs)) (n - (count + 1)));
        destruct (Z.eqb_spec (Z.of_nat (S (List.length gs))) (n - count)); try lia;
        (split; [|reflexivity]); rewrite pauses_1_app; simpl app; f_equal.
      destruct gs as [|g' gs]; simpl List.length in *; lia.
Qed.

(** X12: the loop pauses, for [sleep_sec] seconds, only when [sleep_sec] is
    positive.  Without a limit (none given, or 0) a loop that returns has
    paused once after every row, the last one included; with a positive
    limit it has not paused after the row that reached the limit. *)
Theorem X12_pauses_between_rows host args columns rows cp w w' r :
  main_loop host args columns rows cp 0 w = (w', Returned r) ->
  (limit args = None \/ limit args = Some 0%Z ->
   slept (w_trace w') = slept (w_trace w) ++ pauses args (List.length rows))
  /\ (forall n, limit args = Some n -> (0 < n)%Z ->
        slept (w_trace w')
        = slept (w_trace w)
          ++ pauses args (Nat.min (Z.to_nat n - 1) (List.length rows))).
Proof.
  intros H. pose proof (main_loop_gauges _ _ _ _ _ _ _ _ _ H) as Hlen.
  rewrite (main_loop_events _ _ _ _ _ _ _ _ _ H), slept_app. split.
  - intros Hl. rewrite (rows_reached_unlimited _ rows Hl) in Hlen.
    destruct (loop_events_unlimited host args
                (gauges_reached host args columns 0 rows) Hl 0%Z) as [S _].
    rewrite S, Hlen. reflexivity.
  - intros n Hl Hn. rewrite Hl, rows_reached_firstn, Z.sub_0_r, length_firstn in Hlen by lia.
    destruct (loop_events_limited host args n
                (gauges_reached host args columns 0 rows) Hl Hn 0%Z) as [S _]; [lia|lia|].
    rewrite S, Hlen, Z.sub_0_r. f_equal. f_equal.
    destruct (Z.eqb_spec (Z.of_nat (Nat.min (Z.to_nat n) (List.length rows))) n); lia.
Qed.

Lemma X12_pauses_between_rows_witness :
  slept (w_trace (fst (main_loop Demo.host (Demo.with_sleep_sec 2 (Demo.with_limit 2 Demo.args))
                         (df_columns Demo.table) (df_rows Demo.table) [] 0 Demo.world1)))
  = [2%float].
Proof.
  refine (proj2 (X12_pauses_between_rows Demo.host
                   (Demo.with_sleep_sec 2 (Demo.with_limit 2 Demo.args))
                   (df_columns Demo.table) (df_rows Demo.table) [] Demo.world1 _ _ _)
                2%Z eq_refl eq_refl).
  vm_compute. reflexivity.
Defined.

(** X13: a negative limit stops the loop after the first row: a loop that
    returns has processed that row and no other, printed the notice with
    the limit as given, and counted one record. *)
Theorem X13_negative_limit host args columns row rest cp w w' r n :
  limit args = Some n -> (n < 0)%Z ->
  main_loop host args columns (row :: rest) cp 0 w = (w', Returned r) ->
  exists g,
    gauge_of host args (row_dict host columns row) = Some g
    /\ w_trace w' = w_trace w ++ row_events host args g ++ [EvPrint (MsgReachedLimit n)]
    /\ snd r = 1%Z.
Proof.
  intros Hl Hn H.
  assert (Hr : limit_reached (limit args) 1 = true).
  { rewrite Hl. simpl. destruct (Z.eqb_spec n 0); [lia|]. simpl. apply Z.leb_le. lia. }
  pose proof (main_loop_events _ _ _ _ _ _ _ _ _ H) as He.
  destruct r as [cp' count']. apply main_loop_returned in H. cbv zeta in H.
  destruct H as (H1 & _ & H3 & _).
  unfold gauges_reached in *. simpl rows_reached in *.
  change (0 + 1)%Z with 1%Z in *. rewrite Hr in *. simpl map in *.
  destruct (gauge_of host args (row_dict host columns row)) as [g|]; [|discriminate].
  exists g. split; [reflexivity|]. simpl somes in *. split.
  - rewrite He. simpl loop_events. unfold step_events. rewrite Hr. unfold limit_value.
    rewrite Hl. simpl app. reflexivity.
  - simpl. rewrite H3. reflexivity.
Qed.

Lemma X13_negative_limit_witness :
  exists g,
    gauge_of Demo.host (Demo.with_limit (-1) Demo.args)
             (row_dict Demo.host (df_columns Demo.table)
                       [CStr "02HB001"; CFloat 10; CFloat 10]) = Some g
    /\ w_trace (fst (main_loop Demo.host (Demo.with_limit (-1) Demo.args)
                       (df_columns Demo.table)
                       ([CStr "02HB001"; CFloat 10; CFloat 10]
                        :: [[CStr "02HC002"; CFloat 44; CFloat (-80)]])
                       [] 0 Demo.world0))
       = w_trace Demo.world0 ++ row_events Demo.host (Demo.with_limit (-1) Demo.args) g
                             ++ [EvPrint (MsgReachedLimit (-1))]
    /\ snd ([] : list string, 1%Z) = 1%Z.
Proof.
  refine (X13_negative_limit Demo.host (Demo.with_limit (-1) Demo.args) (df_columns Demo.table)
            [CStr "02HB001"; CFloat 10; CFloat 10]
            [[CStr "02HC002"; CFloat 44; CFloat (-80)]]
            [] Demo.world0 _ ([], 1%Z) (-1)%Z eq_refl eq_refl _).
  vm_compute. reflexivity.
Defined.

(** X14: with a positive limit N, a loop that returns prints the notice of
    the limit exactly when the table has at least N rows -- also when it has
    exactly N, where nothing was left to skip -- and prints it once; without
    a limit it never prints it. *)
Theorem X14_limit_notice host args columns rows cp w w' r :
  main_loop host args columns rows cp 0 w = (w', Returned r) ->
  (limit args = None \/ limit args = Some 0%Z -> notices (w_trace w') = notices (w_trace w))
  /\ (forall n, limit args = Some n -> (0 < n)%Z ->
        notices (w_trace w')
        = notices (w_trace w)
          ++ (if (n <=? Z.of_nat (List.length rows))%Z then [n] else [])).
Proof.
  intros H. pose proof (main_loop_gauges _ _ _ _ _ _ _ _ _ H) as Hlen.
  rewrite (main_loop_events _ _ _ _ _ _ _ _ _ H), notices_app. split.
  - intros Hl.
    destruct (loop_events_unlimited host args
                (gauges_reached host args columns 0 rows) Hl 0%Z) as [_ N].
    rewrite N. apply app_nil_r.
  - intros n Hl Hn. rewrite Hl, rows_reached_firstn, Z.sub_0_r, length_firstn in Hlen by lia.
    destruct (loop_events_limited host args n
                (gauges_reached host args columns 0 rows) Hl Hn 0%Z) as [_ N]; [lia|lia|].
    rewrite N, Hlen, Z.sub_0_r. f_equal.
    destruct (Z.eqb_spec (Z.of_nat (Nat.min (Z.to_nat n) (List.length rows))) n);
      destruct (Z.leb_spec n (Z.of_nat (List.length rows))); try reflexivity; lia.
Qed.

Lemma X14_limit_notice_witness :
  notices (w_trace (fst (main_loop Demo.host (Demo.with_limit 3 Demo.args)
                           (df_columns Demo.table) (df_rows Demo.table) [] 0 Demo.world1)))
  = [3%Z].
Proof.
  refine (proj2 (X14_limit_notice Demo.host (Demo.with_limit 3 Demo.args)
                   (df_columns Demo.table) (df_rows Demo.table) [] Demo.world1 _ _ _)
                3%Z eq_refl eq_refl).
  vm_compute. reflexivity.
Defined.

(** ** The last line *)

Lemma keeps_trace_combine zf ps :
  keeps_trace (for_each ps (fun p => Zip.write zf p (PosixPath.basename p))).
Proof. apply keeps_trace_for_each. intros p. apply keeps_trace_zip_write. Qed.

Lemma build_combined_eq p ps out w :
  build_combined_zip (p :: ps) out w
  = match Zip.open (combined_path out) w with
    | (w1, Returned zf) =>
        match for_each (p :: ps) (fun q => Zip.write zf q (PosixPath.basename q)) w1 with
        | (w2, Returned _) => (log w2 [EvPrint (MsgCombined (combined_path out))], Returned tt)
        | (w2, Raised e) => (w2, Raised e)
        end
    | (w1, Raised e) => (w1, Raised e)
    end.
Proof.
  unfold build_combined_zip. fold (combined_path out). unfold bind.
  destruct (Zip.open (combined_path out) w) as [w1 [zf|e]]; [|reflexivity].
  destruct (for_each (p :: ps) _ w1) as [w2 [[]|e]]; reflexivity.
Qed.

(** [build_combined_zip] prints its line last, and only when it returns *)
Lemma build_combined_trace zip_paths out w w' :
  build_combined_zip zip_paths out w = (w', Returned tt) ->
  w_trace w' = w_trace w ++ [EvPrint (match zip_paths with
                                      | [] => MsgNoZips
                                      | _ :: _ => MsgCombined (combined_path out)
                                      end)].
Proof.
  destruct zip_paths as [|p ps].
  - unfold build_combined_zip. rewrite print_log. intros H. injection H as <-. reflexivity.
  - rewrite build_combined_eq.
    pose proof (keeps_trace_zip_open (combined_path out) w) as K1.
    destruct (Zip.open (combined_path out) w) as [w1 [zf|e]]; [|discriminate].
    pose proof (keeps_trace_combine zf (p :: ps) w1) as K2.
    destruct (for_each (p :: ps) _ w1) as [w2 [[]|e]]; [|discriminate].
    simpl fst in *. intros H. injection H as <-. simpl. rewrite K2, K1. reflexivity.
Qed.

(** X15: the transcript of a run that returns is fixed by the table and by
    what Earth Engine answers: after what the start-up logged come, for each
    row reached and in order, the lines and requests of its gauge with the
    pause or the notice of the limit, and then exactly one closing line --
    in remote mode that all tasks have been started, in local mode that the
    combined archive is written or, when no gauge had features, that there
    is nothing to combine. *)
Theorem X15_transcript host args w w0 df w' :
  main_load host args w = (w0, Returned df) ->
  main host args w = (w', Returned tt) ->
  w_trace w'
  = w_trace w0
    ++ loop_events host args 0 (gauges_reached host args (df_columns df) 0 (df_rows df))
    ++ [EvPrint (summary host args df)].
Proof.
  intros Hload H.
  destruct (main_returned _ _ _ _ _ _ Hload H) as (w2 & cp & count & Hloop & Hend).
  pose proof (main_loop_events _ _ _ _ _ _ _ _ _ Hloop) as Ht.
  apply main_loop_returned in Hloop. cbv zeta in Hloop. destruct Hloop as (_ & _ & _ & Hcp).
  rewrite app_assoc, <- Ht. unfold summary.
  destruct (export_mode args).
  - rewrite (build_combined_trace _ _ _ _ Hend). simpl in Hcp. subst cp.
    unfold gauges_with_features, archived.
    destruct (filter (has_features host args) _); reflexivity.
  - rewrite print_log in Hend. injection Hend as <-. reflexivity.
Qed.

Lemma X15_transcript_witness :
  w_trace (fst (main Demo.host Demo.args Demo.world0))
  = w_trace (fst (main_load Demo.host Demo.args Demo.world0))
    ++ loop_events Demo.host Demo.args 0
         (gauges_reached Demo.host Demo.args (df_columns Demo.table) 0 (df_rows Demo.table))
    ++ [EvPrint (MsgCombined "outputs/all_gauge_subbasins.zip")].
Proof.
  refine (X15_transcript Demo.host Demo.args Demo.world0 _ Demo.table _ _ _).
  - vm_compute. reflexivity.
  - vm_compute. reflexivity.
Defined.

(** ** A run in which no gauge has features *)

Lemma process_known_nothing host args cp gid lat lon w w' cp' :
  export_mode args = client ->
  has_features host args (gid, lat, lon) = false ->
  process_known host args cp gid lat lon w = (w', Returned cp') ->
  w_fs w' = w_fs w.
Proof.
  intros Hm Hf. rewrite process_known_client by exact Hm. cbv zeta.
  unfold has_features, features_of in Hf.
  destruct (ee_getInfo host _) as [info|e]; [|discriminate].
  destruct (frame_of host _) as [gdf|e] eqn:Ef; [|discriminate].
  apply frame_of_empty in Ef. rewrite Ef.
  destruct (match info_features info with Some l => l | None => [] end) as [|f fs];
    [|discriminate].
  intros H. injection H as <- _. reflexivity.
Qed.

Lemma main_loop_nothing host args columns rows :
  export_mode args = client ->
  forall cp count w w' r,
    filter (has_features host args) (gauges_reached host args columns count rows) = [] ->
    main_loop host args columns rows cp count w = (w', Returned r) ->
    w_fs w' = w_fs w.
Proof.
  intros Hm. induction rows as [|row rest IH]; intros cp count w w' r Hf H.
  - simpl in H. injection H as <- _. reflexivity.
  - rewrite main_loop_cons in H.
    destruct (gauge_of host args (row_dict host columns row)) as [[[gid lat] lon]|] eqn:Hg.
    2:{ destruct (process_gauge_row_unknown host args _ cp w Hg) as [e He].
        rewrite He in H. discriminate. }
    rewrite (process_gauge_row_known _ _ _ cp _ _ _ w Hg) in H.
    unfold gauges_reached in Hf. simpl rows_reached in Hf. simpl map in Hf.
    rewrite Hg in Hf. simpl somes in Hf. simpl filter in Hf.
    destruct (has_features host args (gid, lat, lon)) eqn:Hh; [discriminate|].
    pose proof (process_known_nothing host args cp gid lat lon w) as Hn.
    destruct (process_known host args cp gid lat lon w) as [w1 [cp1|e]]; [|discriminate].
    specialize (Hn w1 cp1 Hm Hh eq_refl).
    destruct (limit_reached (limit args) (count + 1)).
    + injection H as <- _. exact Hn.
    + apply IH in H; [|exact Hf]. rewrite H, fs_after_sleep. exact Hn.
Qed.

Lemma main_load_fs host args w :
  w_fs (fst (main_load host args w)) = w_fs (fst (ensure_dir (out_dir args) w)).
Proof.
  unfold main_load. apply keeps_fs_after. intros _.
  apply keeps_fs_bind; [apply keeps_fs_init_ee|]. intros _. apply keeps_fs_load_csv.
Qed.

(** X16: a run in local mode in which no gauge reached has features, and
    which returns, writes nothing: the file system is as [ensure_dir] of the
    output directory left it -- no archive, no combined archive, no
    temporary directory -- and the run ends with the line that there is
    nothing to combine. *)
Theorem X16_nothing_to_combine host args w w0 df w' :
  export_mode args = client ->
  main_load host args w = (w0, Returned df) ->
  gauges_with_features host args df = [] ->
  main host args w = (w', Returned tt) ->
  w_fs w' = w_fs (fst (ensure_dir (out_dir args) w))
  /\ (forall q c, FS.get q (w_fs w') = Some (FS.File c) <-> FS.get q (w_fs w) = Some (FS.File c))
  /\ exists t, w_trace w' = t ++ [EvPrint MsgNoZips].
Proof.
  intros Hm Hload Hg H.
  destruct (main_returned _ _ _ _ _ _ Hload H) as (w2 & cp & count & Hloop & Hend).
  pose proof (main_loop_nothing host args _ _ Hm _ _ _ _ _ Hg Hloop) as H2.
  apply main_loop_returned in Hloop. cbv zeta in Hloop. destruct Hloop as (_ & _ & _ & Hcp).
  rewrite Hm in Hend, Hcp. simpl in Hcp. unfold archived in Hcp.
  unfold gauges_with_features in Hg. rewrite Hg in Hcp. subst cp.
  simpl in Hend. rewrite print_log in Hend. injection Hend as <-.
  assert (Hfs : w_fs (log w2 [EvPrint MsgNoZips]) = w_fs (fst (ensure_dir (out_dir args) w))).
  { simpl. rewrite H2. pose proof (main_load_fs host args w) as Hl.
    rewrite Hload in Hl. exact Hl. }
  split; [exact Hfs|]. split.
  - intros q c. rewrite Hfs. apply ensure_dir_files.
  - exists (w_trace w2). reflexivity.
Qed.

Lemma X16_nothing_to_combine_witness :
  w_fs (fst (main Demo.host_barren Demo.args Demo.world0)) = w_fs Demo.world1
  /\ exists t, w_trace (fst (main Demo.host_barren Demo.args Demo.world0))
               = t ++ [EvPrint MsgNoZips].
Proof.
  destruct (X16_nothing_to_combine Demo.host_barren Demo.args Demo.world0
              (fst (main_load Demo.host_barren Demo.args Demo.world0)) Demo.table
              (fst (main Demo.host_barren Demo.args Demo.world0))
              eq_refl eq_refl eq_refl eq_refl) as (H1 & _ & H3).
  split; [exact H1|exact H3].
Defined.

(* ------------------------------------------------------------------ *)
(** * What the combined archive holds *)

Lemma combine_loop_stored zf ccs w0 :
  Os.resolve zf = Some ccs ->
  forall ps es w w',
    Os.lookup zf (w_fs w) = Some (FS.File (FS.Archive es)) ->
    (forall cs c, cs <> ccs -> file_at cs c w0 -> file_at cs c w) ->
    Forall (other_file ccs w0) ps ->
    for_each ps (fun p => Zip.write zf p (PosixPath.basename p)) w = (w', Returned tt) ->
    exists es', Os.lookup zf (w_fs w') = Some (FS.File (FS.Archive (es ++ es')))
                /\ Forall2 (stored w0) ps es'
                /\ (forall cs c, cs <> ccs -> file_at cs c w0 -> file_at cs c w').
Proof.
  intros Hz. induction ps as [|p ps IH]; intros es w w' Ha Hk Hf H; simpl in H.
  - injection H as <-. exists []. rewrite app_nil_r. split; [exact Ha|]. split; [constructor|].
    exact Hk.
  - apply bind_inv_returned in H. destruct H as (w1 & [] & H1 & H2).
    inversion Hf as [|? ? (cs & c & Hr & Hne & Hc) Hps]; subst.
    assert (Hk1 : forall cs c, cs <> ccs -> file_at cs c w0 -> file_at cs c w1).
    { intros cs1 c1 Hn1 F.
      exact (zip_write_keeps zf ccs p _ cs1 c1 w w1 Hz Hn1 (Hk cs1 c1 Hn1 F) H1). }
    assert (Hl : Os.lookup p (w_fs w) = Some (FS.File c)).
    { rewrite (lookup_get _ _ _ Hr). apply (Hk cs c Hne Hc). }
    unfold Zip.write in H1. rewrite Hl in H1.
    pose proof (append_entry_archive _ _ _ _ _ Ha H1) as Ha1.
    destruct (IH _ _ _ Ha1 Hk1 Hps H2) as (es' & E1 & E2 & E3).
    exists ((PosixPath.basename p, c) :: es'). rewrite E1, <- app_assoc.
    split; [reflexivity|]. split; [|exact E3].
    constructor; [|exact E2]. split; [reflexivity|].
    rewrite (lookup_get _ _ _ Hr). exact Hc.
Qed.

(** X17: when every path of the list names a regular file other than the
    combined archive itself, a call of [build_combined_zip] that returns
    leaves at [out_dir/all_gauge_subbasins.zip] an archive with one entry
    per path, in the order of the list: the entry bears the base name of the
    path and holds the file found there, whole.  What the archive held
    before is gone, and every other regular file is as it was. *)
Theorem X17_combined_holds_archives zip_paths out ccs w w' :
  zip_paths <> [] ->
  Os.resolve (PosixPath.join out "all_gauge_subbasins.zip") = Some ccs ->
  Forall (other_file ccs w) zip_paths ->
  build_combined_zip zip_paths out w = (w', Returned tt) ->
  exists es,
    FS.get ccs (w_fs w') = Some (FS.File (FS.Archive es))
    /\ Forall2 (stored w) zip_paths es
    /\ (forall cs c, cs <> ccs -> FS.get cs (w_fs w) = Some (FS.File c) ->
                     FS.get cs (w_fs w') = Some (FS.File c)).
Proof.
  intros Hne Hr Hf H. destruct zip_paths as [|p ps]; [congruence|].
  rewrite build_combined_eq in H. unfold combined_path in H.
  destruct (Zip.open _ w) as [w1 [zf|e]] eqn:Ho; [|discriminate].
  destruct (for_each (p :: ps) _ w1) as [w2 [[]|e]] eqn:Hloop; [|discriminate].
  injection H as <-.
  destruct (zip_open_archive _ _ _ _ Ho) as [-> Ha].
  assert (Hk : forall cs c, cs <> ccs -> file_at cs c w -> file_at cs c w1).
  { intros cs c Hn F. apply bind_inv_returned in Ho. destruct Ho as (w1' & [] & Hopen & Hret).
    injection Hret as <-. eapply os_write_file_keeps; eauto. }
  destruct (combine_loop_stored _ ccs w Hr _ _ _ _ Ha Hk Hf Hloop) as (es & E1 & E2 & E3).
  exists es. simpl. rewrite (lookup_get _ _ _ Hr) in E1. auto.
Qed.

Lemma X17_combined_holds_archives_witness :
  exists es,
    FS.get ["outputs"; "all_gauge_subbasins.zip"]
           (w_fs (fst (build_combined_zip ["outputs/a.zip"; "outputs/b.zip"] "outputs"
                         Demo.world2)))
    = Some (FS.File (FS.Archive es))
    /\ Forall2 (stored Demo.world2) ["outputs/a.zip"; "outputs/b.zip"] es.
Proof.
  destruct (X17_combined_holds_archives ["outputs/a.zip"; "outputs/b.zip"] "outputs"
              ["outputs"; "all_gauge_subbasins.zip"] Demo.world2
              (fst (build_combined_zip ["outputs/a.zip"; "outputs/b.zip"] "outputs"
                      Demo.world2)))
    as (es & H1 & H2 & _).
  - discriminate.
  - reflexivity.
  - repeat constructor.
    + exists ["outputs"; "a.zip"], (FS.Archive [("a.shp", FS.Blob "a")]).
      split; [reflexivity|]. split; [discriminate|reflexivity].
    + exists ["outputs"; "b.zip"], (FS.Archive []).
      split; [reflexivity|]. split; [discriminate|reflexivity].
  - vm_compute. reflexivity.
  - exists es. split; assumption.
Defined.

(* ------------------------------------------------------------------ *)
(** * What a run leaves alone *)

(** a regular file that is neither in the temporary directory nor the
    archive is not touched by [write_shapefile_zip] *)
Lemma write_shapefile_zip_frame host args gdf gid w w' :
  wf_node (w_fs w) = true ->
  write_shapefile_zip host gdf (out_zip_of args gid) (layer_of gid) w = (w', Returned tt) ->
  exists tcs pcs,
    Os.resolve (unzip (out_zip_of args gid)) = Some tcs
    /\ Os.resolve (out_zip_of args gid) = Some pcs
    /\ wf_node (w_fs w') = true
    /\ forall q c, ~ is_prefix tcs q -> q <> pcs -> file_at q c w -> file_at q c w'.
Proof.
  intros Hw H.
  destruct (write_shapefile_zip_core _ _ _ _ _ _ _ Hw H) as (Hw' & _ & _).
  apply write_shapefile_zip_steps in H. cbv zeta in H.
  set (out_zip := out_zip_of args gid) in *. set (tmp_dir := unzip out_zip) in *.
  destruct H as (w1 & w2 & w3 & w4 & w5 & H1 & H2 & H3 & H4 & H5 & H6).
  assert (Hw1 : wf_node (w_fs w1) = true) by exact (keeps_wf_ensure_dir _ _ _ _ Hw H1).
  assert (Hw2 : wf_node (w_fs w2) = true) by exact (keeps_wf_to_file _ _ _ _ _ _ Hw1 H2).
  assert (Hw3 : wf_node (w_fs w3) = true) by exact (keeps_wf_zip_open _ _ _ _ Hw2 H3).
  destruct (zip_open_archive _ _ _ _ H3) as [_ Ha3].
  destruct (zip_loop_archive _ _ _ _ _ Hw3 (ex_intro _ [] Ha3) H4) as [Hw4 _].
  pose proof H6 as H6'. apply at_path_returned in H6'. destruct H6' as (tcs & Ht & Hrm & _).
  assert (Hp : exists pcs, Os.resolve out_zip = Some pcs).
  { unfold Os.lookup in Ha3. destruct (Os.resolve out_zip); [eauto|discriminate]. }
  destruct Hp as [pcs Hp]. exists tcs, pcs.
  split; [exact Ht|]. split; [exact Hp|]. split; [exact Hw'|].
  intros q c Hq Hqp Hf.
  assert (Hbelow : Forall (below_top tcs)
            (match Os.lookup tmp_dir (w_fs w4) with
             | Some m => FS.walk (listing host) false tmp_dir m
             | None => []
             end)).
  { rewrite (lookup_get _ _ _ Ht). destruct (FS.get tcs (w_fs w4)) as [n|] eqn:E; [|constructor].
    apply walk_below; [|exact Ht]. apply (wf_get _ _ _ Hw4 E). }
  assert (F1 : file_at q c w1).
  { pose proof (ensure_dir_files tmp_dir w q c) as E. rewrite H1 in E. apply E, Hf. }
  assert (F2 : file_at q c w2)
    by exact (to_file_keeps host gdf tmp_dir tcs gid q c w1 w2 Ht Hq F1 H2).
  assert (F3 : file_at q c w3).
  { apply bind_inv_returned in H3. destruct H3 as (w3' & [] & Hopen & Hret).
    injection Hret as <-. eapply os_write_file_keeps; eauto. }
  assert (F4 : file_at q c w4).
  { refine (for_each_returned (file_at q c) (fun _ => True) _ _ _ w3 w4 _ F3 H4);
      [|apply Forall_forall; auto].
    intros [[root dirs] files] v v' _ Hv Hb. unfold zip_body in Hb.
    refine (for_each_returned (file_at q c) (fun _ => True) _ _ files v v' _ Hv Hb);
      [|apply Forall_forall; auto].
    intros fn u u' _ Hu Hzw. eapply zip_write_keeps; eauto. }
  eapply rmdir_files; [exact Hrm|].
  apply (cleanup_keeps tcs q _ _ w4 w5 Hq Hbelow F4 H5).
Qed.

(** a property of the list of paths and of the world that every record
    keeps is kept by the loop *)
Lemma main_loop_invariant host args columns (I : list string -> world -> Prop) :
  (forall cp w evs, I cp w -> I cp (log w evs)) ->
  (forall cp gid lat lon w w' cp',
      I cp w -> process_known host args cp gid lat lon w = (w', Returned cp') -> I cp' w') ->
  forall rows cp count w w' r,
    I cp w -> main_loop host args columns rows cp count w = (w', Returned r) -> I (fst r) w'.
Proof.
  intros Hlog Hstep. induction rows as [|row rest IH]; intros cp count w w' r Hi H.
  - simpl in H. injection H as <- <-. exact Hi.
  - rewrite main_loop_cons in H.
    destruct (gauge_of host args (row_dict host columns row)) as [[[gid lat] lon]|] eqn:Hg.
    2:{ destruct (process_gauge_row_unknown host args _ cp w Hg) as [e He].
        rewrite He in H. discriminate. }
    rewrite (process_gauge_row_known _ _ _ cp _ _ _ w Hg) in H.
    destruct (process_known host args cp gid lat lon w) as [w1 [cp1|e]] eqn:Hp; [|discriminate].
    pose proof (Hstep _ _ _ _ _ _ _ Hi Hp) as Hi1.
    destruct (limit_reached _ _).
    + injection H as <- <-. apply Hlog, Hi1.
    + eapply IH; [|exact H]. unfold after_sleep.
      destruct (0 <? sleep_sec args)%float; [apply Hlog|]; exact Hi1.
Qed.

(** X19: a run that returns changes no regular file outside the output
    directory, in either mode -- for gauge ids that hold no ["/"], and
    provided the name of the output directory holds no [".zip"], which
    [str.replace] would cut from the path of the temporary directories as
    well.  (An id with a slash leads out of the output directory.) *)
Theorem X19_files_outside_untouched host args ocs w w0 df w' :
  wf_node (w_fs w) = true ->
  Os.resolve (out_dir args) = Some ocs ->
  PyStr.replace ".zip" "" (out_dir args) = out_dir args ->
  main_load host args w = (w0, Returned df) ->
  plain_ids host args (df_columns df) (df_rows df) = true ->
  main host args w = (w', Returned tt) ->
  forall q c, ~ is_prefix ocs q ->
              FS.get q (w_fs w) = Some (FS.File c) -> FS.get q (w_fs w') = Some (FS.File c).
Proof.
  intros Hw Ho Hz Hload _ H q c Hq Hf.
  destruct (main_returned _ _ _ _ _ _ Hload H) as (w2 & cp & count & Hloop & Hend).
  assert (H0 : wf_node (w_fs w0) = true /\ file_at q c w0).
  { split; [eapply keeps_wf_main_load; eauto|].
    pose proof (main_load_fs host args w) as E. rewrite Hload in E. simpl in E.
    unfold file_at. rewrite E. apply ensure_dir_files, Hf. }
  assert (H2 : wf_node (w_fs w2) = true /\ file_at q c w2).
  { refine (main_loop_invariant host args (df_columns df)
              (fun _ v => wf_node (w_fs v) = true /\ file_at q c v) _ _
              (df_rows df) [] 0%Z w0 w2 (cp, count) H0 Hloop).
    - intros _ v evs Hv. exact Hv.
    - intros cp0 gid lat lon v v' cp' [Hv Fv].
      destruct (export_mode args) eqn:Hm.
      + rewrite process_known_client by exact Hm. cbv zeta.
        destruct (ee_getInfo host _) as [info|e]; [|discriminate].
        destruct (frame_of host _) as [gdf|e]; [|discriminate].
        destruct (gdf_empty gdf).
        * intros E. injection E as <- _. split; assumption.
        * set (v1 := log v _).
          destruct (write_shapefile_zip host gdf _ _ v1) as [v2 [[]|e]] eqn:Ez; [|discriminate].
          intros E. injection E as <- _.
          destruct (write_shapefile_zip_frame host args gdf gid v1 v2 Hv Ez)
            as (tcs & pcs & Ht & Hp & Hv2 & Hframe).
          split; [exact Hv2|]. apply Hframe; [| |exact Fv].
          -- intros Hpre. apply Hq. rewrite (unzip_out_zip args gid Hz) in Ht.
             destruct (layer_of_start (unzip gid)) as [x Hx].
             assert (Hu : is_prefix ocs tcs).
             { refine (resolve_under _ _ _ _ Ho _ Ht). rewrite Hx. reflexivity. }
             destruct Hu as [r1 ->]. destruct Hpre as [r2 ->].
             exists (r1 ++ r2). rewrite app_assoc. reflexivity.
          -- intros ->. apply Hq. refine (resolve_under _ _ _ _ Ho _ Hp). reflexivity.
      + rewrite process_known_drive by exact Hm. cbv zeta.
        destruct (ee_start host _); [|discriminate].
        intros E. injection E as <- _. split; assumption. }
  destruct H2 as [_ F2]. destruct (export_mode args).
  - destruct cp as [|p ps].
    + simpl in Hend. rewrite print_log in Hend. injection Hend as <-. exact F2.
    + rewrite build_combined_eq in Hend.
      destruct (Zip.open _ w2) as [w3 [zf|e]] eqn:Hopen; [|discriminate].
      destruct (for_each (p :: ps) _ w3) as [w4 [[]|e]] eqn:Hl; [|discriminate].
      injection Hend as <-.
      destruct (zip_open_archive _ _ _ _ Hopen) as [-> Ha].
      assert (Hc : exists ccs, Os.resolve (combined_path (out_dir args)) = Some ccs).
      { unfold Os.lookup in Ha.
        destruct (Os.resolve (combined_path (out_dir args))); [eauto|discriminate]. }
      destruct Hc as [ccs Hc].
      assert (Hne : q <> ccs).
      { intros ->. apply Hq. refine (resolve_under _ _ _ _ Ho _ Hc). reflexivity. }
      assert (F3 : file_at q c w3).
      { apply bind_inv_returned in Hopen. destruct Hopen as (w3' & [] & Hop & Hret).
        injection Hret as <-. eapply os_write_file_keeps; eauto. }
      refine (for_each_returned (file_at q c) (fun _ => True) _ _ _ w3 w4 _ F3 Hl);
        [|apply Forall_forall; auto].
      intros fn u u' _ Hu Hzw. eapply zip_write_keeps; eauto.
  - rewrite print_log in Hend. injection Hend as <-. exact F2.
Qed.

Lemma X19_files_outside_untouched_witness :
  FS.get ["gauges.csv"] (w_fs (fst (main Demo.host Demo.args Demo.world0)))
  = Some (FS.File (FS.Blob "csv")).
Proof.
  refine (X19_files_outside_untouched Demo.host Demo.args ["outputs"] Demo.world0
            (fst (main_load Demo.host Demo.args Demo.world0)) Demo.table _ _
            eq_refl eq_refl _ _ _ ["gauges.csv"] (FS.Blob "csv") _ eq_refl).
  - vm_compute. reflexivity.
  - vm_compute. reflexivity.
  - vm_compute. reflexivity.
  - vm_compute. reflexivity.
  - intros [r H]. discriminate.
Defined.

(* ------------------------------------------------------------------ *)
(** * Calls that succeed *)

(** ** Listings *)

Lemma kids_del_set_same t n L : FS.kids_del t (FS.kids_set t n L) = FS.kids_del t L.
Proof.
  unfold FS.kids_del. induction L as [|[k m] L IH]; simpl.
  - rewrite String.eqb_refl. reflexivity.
  - destruct (String.eqb_spec k t) as [->|Hk]; simpl.
    + rewrite String.eqb_refl. reflexivity.
    + destruct (String.eqb_spec k t); [congruence|]. simpl. rewrite IH. reflexivity.
Qed.


Lemma kids_del_absent t L : FS.kids_get t L = None -> FS.kids_del t L = L.
Proof.
  unfold FS.kids_del. induction L as [|[k m] L IH]; simpl; [reflexivity|].
  destruct (String.eqb_spec k t) as [->|Hk]; [discriminate|].
  intros H. simpl. rewrite IH by exact H. reflexivity.
Qed.

Lemma kids_set_set z n m L : FS.kids_set z n (FS.kids_set z m L) = FS.kids_set z n L.
Proof.
  induction L as [|[k x] L IH]; simpl.
  - rewrite String.eqb_refl. reflexivity.
  - destruct (String.eqb_spec k z) as [->|Hk]; simpl.
    + rewrite String.eqb_refl. reflexivity.
    + destruct (String.eqb_spec k z); [congruence|]. rewrite IH. reflexivity.
Qed.


(** ** [alter_dir] where the directory is *)

Lemma alter_dir_returns p f : forall ds root kids kids',
  FS.get ds root = Some (FS.Dir kids) -> f kids = Returned kids' ->
  exists root', FS.alter_dir p ds f root = Returned root'.
Proof.
  induction ds as [|d ds IH]; intros root kids kids' Hg Hf.
  - simpl in Hg. injection Hg as ->. simpl. rewrite Hf. eauto.
  - destruct root as [c|k0]; [discriminate|]. rewrite get_cons in Hg.
    simpl. destruct (FS.kids_get d k0) as [k|]; [|discriminate].
    destruct (IH _ _ _ Hg Hf) as [k' Hk']. rewrite Hk'. eauto.
Qed.

(** a change one level below [a] shows in the listing at [a] *)
Lemma alter_dir_child p f d : forall a root root' ka,
  FS.alter_dir p (a ++ [d]) f root = Returned root' ->
  FS.get a root = Some (FS.Dir ka) ->
  exists ks ks', FS.kids_get d ka = Some (FS.Dir ks) /\ f ks = Returned ks'
                 /\ FS.get a root' = Some (FS.Dir (FS.kids_set d (FS.Dir ks') ka)).
Proof.
  induction a as [|x a IH]; intros root root' ka H Hg.
  - simpl in Hg. injection Hg as ->. simpl in H.
    destruct (FS.kids_get d ka) as [[c|ks]|]; try discriminate.
    destruct (f ks) as [ks'|] eqn:Ef; [|discriminate]. injection H as <-.
    exists ks, ks'. auto.
  - destruct root as [c|k0]; [discriminate|]. rewrite get_cons in Hg.
    simpl in H. destruct (FS.kids_get x k0) as [k|]; [|discriminate].
    destruct (FS.alter_dir p (a ++ [d]) f k) as [k'|] eqn:Ea; [|discriminate].
    injection H as <-. destruct (IH _ _ _ Ea Hg) as (ks & ks' & H1 & H2 & H3).
    exists ks, ks'. rewrite get_cons, kids_get_set_same. auto.
Qed.

Lemma write_file_snoc p dcs x c root :
  FS.write_file p (dcs ++ [x]) c root
  = FS.alter_dir p dcs
      (fun kids => match FS.kids_get x kids with
                   | Some (FS.Dir _) => Raised (IsADirectoryError p)
                   | _ => Returned (FS.kids_set x (FS.File c) kids)
                   end) root.
Proof.
  unfold FS.write_file. destruct (dcs ++ [x]) as [|y l] eqn:E.
  - destruct dcs; discriminate.
  - rewrite <- E, removelast_last, last_last. reflexivity.
Qed.



(** ** A change confined to one directory *)

Lemma kids_set_same_value z n L : FS.kids_get z L = Some n -> FS.kids_set z n L = L.
Proof.
  induction L as [|[k m] L IH]; simpl; [discriminate|].
  destruct (String.eqb_spec k z) as [->|Hk].
  - intros H. injection H as ->. reflexivity.
  - intros H. rewrite (IH H). reflexivity.
Qed.

Lemma put_at_same : forall cs root n, FS.get cs root = Some n -> put_at cs n root = root.
Proof.
  induction cs as [|c cs IH]; intros root n H; simpl in *.
  - injection H as <-. reflexivity.
  - destruct root as [c0|kids]; [reflexivity|].
    destruct (FS.kids_get c kids) as [k|] eqn:E; [|reflexivity].
    rewrite (IH _ _ H), (kids_set_same_value _ _ _ E). reflexivity.
Qed.

Lemma get_put_at : forall cs n root m,
  FS.get cs root = Some m -> FS.get cs (put_at cs n root) = Some n.
Proof.
  induction cs as [|c cs IH]; intros n root m H; simpl in *; [reflexivity|].
  destruct root as [c0|kids]; [discriminate|].
  destruct (FS.kids_get c kids) as [k|] eqn:E; [|discriminate].
  simpl. rewrite kids_get_set_same. apply (IH _ _ _ H).
Qed.

Lemma put_at_twice : forall cs n1 n2 root,
  put_at cs n2 (put_at cs n1 root) = put_at cs n2 root.
Proof.
  induction cs as [|c cs IH]; intros n1 n2 root; simpl; [reflexivity|].
  destruct root as [c0|kids]; [reflexivity|].
  destruct (FS.kids_get c kids) as [k|] eqn:E; simpl; [|rewrite E; reflexivity].
  rewrite kids_get_set_same, IH, kids_set_set. reflexivity.
Qed.

Lemma put_at_app : forall a b n root sub,
  FS.get a root = Some sub -> put_at (a ++ b) n root = put_at a (put_at b n sub) root.
Proof.
  induction a as [|c a IH]; intros b n root sub H; simpl in *.
  - injection H as <-. reflexivity.
  - destruct root as [c0|kids]; [discriminate|].
    destruct (FS.kids_get c kids) as [k|] eqn:E; [|discriminate].
    rewrite (IH _ _ _ _ H). reflexivity.
Qed.

(** below a directory, a replacement leaves a directory *)
Lemma put_at_dir b n ka :
  (b = [] -> exists L, n = FS.Dir L) -> exists L, put_at b n (FS.Dir ka) = FS.Dir L.
Proof.
  destruct b as [|c b]; intros H; simpl.
  - apply H. reflexivity.
  - destruct (FS.kids_get c ka); eauto.
Qed.

Lemma alter_dir_put p f : forall ds root root',
  FS.alter_dir p ds f root = Returned root' ->
  exists kids kids', FS.get ds root = Some (FS.Dir kids) /\ f kids = Returned kids'
                     /\ root' = put_at ds (FS.Dir kids') root.
Proof.
  induction ds as [|d ds IH]; intros [c|kids] root' H; simpl in H; try discriminate.
  - destruct (f kids) as [kids'|] eqn:E; [|discriminate]. injection H as <-.
    exists kids, kids'. auto.
  - destruct (FS.kids_get d kids) as [k|] eqn:Ek; [|discriminate].
    destruct (FS.alter_dir p ds f k) as [k'|] eqn:Ea; [|discriminate]. injection H as <-.
    destruct (IH _ _ Ea) as (ks & ks' & H1 & H2 & H3).
    exists ks, ks'. rewrite get_cons, Ek. split; [exact H1|]. split; [exact H2|].
    simpl. rewrite Ek, H3. reflexivity.
Qed.

(** a change of a listing at or below [ocs] is a change of what [ocs] lists *)
Lemma alter_dir_below p f ocs r root root' ka :
  FS.alter_dir p (ocs ++ r) f root = Returned root' ->
  FS.get ocs root = Some (FS.Dir ka) ->
  exists L, root' = put_at ocs (FS.Dir L) root.
Proof.
  intros H Hg. destruct (alter_dir_put _ _ _ _ _ H) as (kids & kids' & _ & _ & ->).
  rewrite (put_at_app _ _ _ _ _ Hg).
  destruct (put_at_dir r (FS.Dir kids') ka) as [L HL]; [eauto|].
  exists L. rewrite HL. reflexivity.
Qed.

(* ------------------------------------------------------------------ *)
(** * Making directories *)

(** ** [os.path.split] and the components of a path *)

Lemma kept_parts l : filter kept l = filter not_dot (filter nonempty l).
Proof.
  induction l as [|c l IH]; simpl; [reflexivity|].
  unfold kept, nonempty, not_dot in *.
  destruct (String.eqb_spec c "") as [->|H1]; simpl; [exact IH|].
  destruct (String.eqb c "."); simpl; rewrite IH; reflexivity.
Qed.

Lemma cut_spec s : forall h t,
  PosixPath.cut s = (h, t) ->
  s = (h ++ t)%string /\ has_char "/" t = false
  /\ (h = EmptyString \/ exists h0, h = (h0 ++ "/")%string).
Proof.
  induction s as [|a s IH]; intros h t H; simpl in H.
  - injection H as <- <-. auto.
  - destruct (PosixPath.cut s) as [h' t'].
    destruct (IH _ _ eq_refl) as (E & Ht & Hh).
    destruct h' as [|b h'].
    + simpl in E. subst t'. unfold PosixPath.sep in H.
      destruct (Ascii.eqb_spec a "/") as [->|Ha]; injection H as <- <-.
      * split; [reflexivity|]. split; [exact Ht|]. right. exists EmptyString. reflexivity.
      * split; [reflexivity|]. split; [|auto]. simpl. rewrite Ht.
        destruct (Ascii.eqb_spec a "/"); [congruence|reflexivity].
    + injection H as <- <-. split; [simpl; rewrite E; reflexivity|]. split; [exact Ht|].
      right. destruct Hh as [Hh|[h0 Hh]]; [discriminate|].
      exists (String a h0). simpl. rewrite Hh. reflexivity.
Qed.

Lemma split_snoc_sep (h0 t : string) :
  has_char "/" t = false ->
  PyStr.split "/" (h0 ++ "/" ++ t) = PyStr.split "/" h0 ++ [t].
Proof.
  intros Ht. change (h0 ++ "/" ++ t)%string with (h0 ++ String "/" t)%string.
  rewrite split_app_sep, (split_nosep _ _ Ht). reflexivity.
Qed.

(** what follows the last slash is the last component *)
Lemma cut_last s h t : PosixPath.cut s = (h, t) -> last (PyStr.split "/" s) "" = t.
Proof.
  intros H. destruct (cut_spec _ _ _ H) as (-> & Ht & [->|[h0 ->]]).
  - simpl. rewrite (split_nosep _ _ Ht). reflexivity.
  - rewrite append_assoc, (split_snoc_sep _ _ Ht). apply last_last.
Qed.

Lemma cut_parts s h t :
  PosixPath.cut s = (h, t) -> parts_of s = parts_of h ++ filter nonempty [t].
Proof.
  intros H. destruct (cut_spec _ _ _ H) as (-> & Ht & [->|[h0 ->]]); unfold parts_of.
  - simpl. rewrite (split_nosep _ _ Ht). reflexivity.
  - rewrite append_assoc, (split_snoc_sep _ _ Ht), filter_app.
    change (h0 ++ "/")%string with (h0 ++ "/" ++ "")%string.
    rewrite (split_snoc_sep h0 "" eq_refl), filter_app. simpl. rewrite app_nil_r. reflexivity.
Qed.

(** ** [rstrip] *)

Lemma split_rstrip s :
  exists k, PyStr.split "/" s = PyStr.split "/" (PosixPath.rstrip_sep s) ++ repeat EmptyString k.
Proof.
  induction s as [|a s [k IH]]; simpl.
  - exists 0. reflexivity.
  - unfold PosixPath.sep. destruct (PosixPath.rstrip_sep s) as [|b r] eqn:E.
    + simpl in IH. destruct (Ascii.eqb_spec a "/") as [->|Ha].
      * exists (S k). rewrite IH. reflexivity.
      * exists k. rewrite IH. simpl.
        destruct (Ascii.eqb_spec a "/"); [congruence|reflexivity].
    + exists k. destruct (Ascii.eqb a "/") eqn:Ea.
      * change (PyStr.split "/" (String a (String b r)))
          with (if Ascii.eqb a "/" then EmptyString :: PyStr.split "/" (String b r)
                else match PyStr.split "/" (String b r) with
                     | h :: t => String a h :: t
                     | [] => [String a EmptyString]
                     end).
        rewrite Ea, IH. reflexivity.
      * change (PyStr.split "/" (String a (String b r)))
          with (if Ascii.eqb a "/" then EmptyString :: PyStr.split "/" (String b r)
                else match PyStr.split "/" (String b r) with
                     | h :: t => String a h :: t
                     | [] => [String a EmptyString]
                     end).
        rewrite Ea, IH.
        destruct (PyStr.split "/" (String b r)) as [|h t] eqn:Es; [|reflexivity].
        exfalso. exact (split_not_nil _ _ Es).
Qed.

Lemma filter_nonempty_repeat k : filter nonempty (repeat EmptyString k) = [].
Proof. induction k; simpl; auto. Qed.

Lemma parts_rstrip s : parts_of (PosixPath.rstrip_sep s) = parts_of s.
Proof.
  unfold parts_of. destruct (split_rstrip s) as [k ->].
  rewrite filter_app, filter_nonempty_repeat, app_nil_r. reflexivity.
Qed.

Lemma length_rstrip s : String.length (PosixPath.rstrip_sep s) <= String.length s.
Proof.
  induction s as [|a s IH]; simpl; [lia|].
  destruct (PosixPath.rstrip_sep s) as [|b r].
  - destruct (Ascii.eqb a PosixPath.sep); simpl; lia.
  - simpl in *. lia.
Qed.

Lemma rstrip_twice s : PosixPath.rstrip_sep (PosixPath.rstrip_sep s) = PosixPath.rstrip_sep s.
Proof.
  induction s as [|a s IH]; simpl; [reflexivity|].
  destruct (PosixPath.rstrip_sep s) as [|b r] eqn:E.
  - destruct (Ascii.eqb a PosixPath.sep) eqn:Ea; simpl; [reflexivity|]. rewrite Ea. reflexivity.
  - change (PosixPath.rstrip_sep (String a (String b r)))
      with (match PosixPath.rstrip_sep (String b r) with
            | EmptyString => if Ascii.eqb a PosixPath.sep then EmptyString else String a EmptyString
            | r' => String a r'
            end).
    rewrite IH. reflexivity.
Qed.

(** a stripped path does not end in a slash *)
Lemma rstrip_fixed_last s :
  PosixPath.rstrip_sep s = s -> s <> EmptyString -> last (PyStr.split "/" s) "" <> EmptyString.
Proof.
  induction s as [|a s IH]; intros H Hne; [congruence|]. simpl in H.
  destruct (PosixPath.rstrip_sep s) as [|b r] eqn:E.
  - unfold PosixPath.sep in H. destruct (Ascii.eqb_spec a "/") as [->|Ha]; [discriminate|].
    injection H as <-. simpl. destruct (Ascii.eqb_spec a "/"); [congruence|]. discriminate.
  - injection H as H.
    assert (Hl : last (PyStr.split "/" s) "" <> "")
      by (apply IH; [congruence|rewrite <- H; discriminate]).
    simpl. destruct (Ascii.eqb a "/").
    + destruct (PyStr.split "/" s) as [|h t] eqn:Es; [exfalso; exact (split_not_nil _ _ Es)|].
      exact Hl.
    + destruct (PyStr.split "/" s) as [|h [|h' t]] eqn:Es;
        [exfalso; exact (split_not_nil _ _ Es)|discriminate|exact Hl].
Qed.

Lemma split_spec name head tail :
  PosixPath.split name = (head, tail) ->
  has_char "/" tail = false
  /\ parts_of name = parts_of head ++ filter nonempty [tail]
  /\ last (PyStr.split "/" name) "" = tail
  /\ String.length head + String.length tail <= String.length name
  /\ (PosixPath.rstrip_sep head = head \/ parts_of head = []).
Proof.
  unfold PosixPath.split. destruct (PosixPath.cut name) as [h t] eqn:Ec.
  destruct (cut_spec _ _ _ Ec) as (En & Ht & _).
  pose proof (cut_parts _ _ _ Ec) as Hp. pose proof (cut_last _ _ _ Ec) as Hl.
  pose proof (length_rstrip h) as Hlen. pose proof (parts_rstrip h) as Hr.
  pose proof (rstrip_twice h) as H2.
  assert (Hn : String.length name = String.length h + String.length t)
    by (rewrite En; apply length_append).
  destruct (PosixPath.rstrip_sep h) as [|b r] eqn:E; intros H; injection H as <- <-.
  - split; [exact Ht|]. split; [exact Hp|]. split; [exact Hl|]. split; [simpl; lia|].
    right. rewrite <- Hr. reflexivity.
  - rewrite Hr. split; [exact Ht|]. split; [exact Hp|]. split; [exact Hl|].
    split; [lia|]. left. exact H2.
Qed.

Lemma heads_spec name head tail :
  heads name = (head, tail) ->
  has_char "/" tail = false
  /\ parts_of name = parts_of head ++ filter nonempty [tail]
  /\ (tail <> EmptyString -> String.length head < String.length name)
  /\ (PosixPath.rstrip_sep head = head \/ parts_of head = [])
  /\ (tail = EmptyString -> parts_of name = []).
Proof.
  unfold heads. destruct (PosixPath.split name) as [h1 t1] eqn:E1.
  destruct (split_spec _ _ _ E1) as (S1 & S2 & S3 & S4 & S5).
  destruct (String.eqb_spec t1 "") as [->|Hne].
  - intros E2. destruct (split_spec _ _ _ E2) as (T1 & T2 & T3 & T4 & T5).
    simpl in S2. rewrite app_nil_r in S2.
    split; [exact T1|]. split; [rewrite S2; exact T2|]. split.
    { intros Ht. destruct tail; [congruence|]. simpl in *. lia. }
    split; [exact T5|]. intros ->. rewrite S2. destruct S5 as [S5|S5]; [|exact S5].
    destruct (String.eqb_spec h1 "") as [->|Hh]; [reflexivity|].
    exfalso. exact (rstrip_fixed_last _ S5 Hh T3).
  - intros H. injection H as <- <-. split; [exact S1|]. split; [exact S2|]. split.
    { intros _. destruct t1; [congruence|]. simpl in *. lia. }
    split; [exact S5|]. congruence.
Qed.

Lemma makedirs_from_S depth name w :
  Os.makedirs_from (S depth) name w
  = let '(head, tail) := heads name in
    if negb (String.eqb head "") && negb (String.eqb tail "") then
      match Os.stat head (w_fs w) with
      | Some _ => mkdir_ok name w
      | None =>
          match Os.makedirs_from depth head w with
          | (w', Raised e) =>
              match e with
              | FileExistsError _ =>
                  if String.eqb tail "." then (w', Returned tt) else mkdir_ok name w'
              | _ => (w', Raised e)
              end
          | (w', Returned _) =>
              if String.eqb tail "." then (w', Returned tt) else mkdir_ok name w'
          end
      end
    else mkdir_ok name w.
Proof.
  cbn [Os.makedirs_from]. unfold heads. destruct (PosixPath.split name) as [h t].
  destruct (if String.eqb t "" then PosixPath.split h else (h, t)) as [head tail].
  destruct (negb (String.eqb head "") && negb (String.eqb tail "")); [|reflexivity].
  unfold bind, Os.path_exists, ret. destruct (Os.stat head (w_fs w)); [reflexivity|].
  cbn [negb]. destruct (Os.makedirs_from depth head w) as [w' [[]|e]].
  - destruct (String.eqb tail "."); reflexivity.
  - destruct e; try reflexivity. destruct (String.eqb tail "."); reflexivity.
Qed.

Lemma resolve_parts name cs :
  Os.resolve name = Some cs
  <-> name <> EmptyString /\ cs = filter not_dot (parts_of name)
      /\ existsb (String.eqb "..") cs = false.
Proof.
  unfold Os.resolve. fold kept. change PosixPath.sep with "/"%char.
  rewrite kept_parts. fold (parts_of name).
  destruct (String.eqb_spec name "") as [->|Hn].
  - split; [discriminate|]. intros [H _]. congruence.
  - destruct (existsb _ _) eqn:E; split.
    + discriminate.
    + intros (_ & -> & H). congruence.
    + intros H. injection H as <-. auto.
    + intros (_ & -> & _). reflexivity.
Qed.

Lemma final_dot_parts name : Os.final_dot name = String.eqb (last (parts_of name) "") ".".
Proof. reflexivity. Qed.

(** ** The tree with the directories of a path *)

Lemma with_dirs_under : forall a b root k,
  FS.get a root = Some (FS.Dir k) ->
  with_dirs (a ++ b) root = put_at a (with_dirs b (FS.Dir k)) root
  /\ clear_way (a ++ b) root = clear_way b (FS.Dir k).
Proof.
  induction a as [|c a IH]; intros b root k H.
  - simpl in H. injection H as ->. auto.
  - destruct root as [c0|kids]; [discriminate|]. rewrite get_cons in H.
    destruct (FS.kids_get c kids) as [n|] eqn:E; [|discriminate].
    destruct (IH b n k H) as [H1 H2]. cbn [app with_dirs clear_way put_at].
    rewrite E, H1, H2. auto.
Qed.

Lemma with_dirs_there cs root k :
  FS.get cs root = Some (FS.Dir k) -> with_dirs cs root = root /\ clear_way cs root = true.
Proof.
  intros H. destruct (with_dirs_under cs [] root k H) as [H1 H2].
  rewrite app_nil_r in H1, H2. rewrite H1, H2. split; [|reflexivity].
  apply put_at_same. exact H.
Qed.

Lemma clear_way_file : forall a b root c,
  FS.get a root = Some (FS.File c) -> clear_way (a ++ b) root = false.
Proof.
  induction a as [|x a IH]; intros b root c H.
  - simpl in H. injection H as ->. destruct b; reflexivity.
  - destruct root as [c0|kids]; [discriminate|]. rewrite get_cons in H.
    cbn [app clear_way]. destruct (FS.kids_get x kids) as [n|]; [|discriminate].
    apply (IH _ _ _ H).
Qed.

Lemma clear_way_prefix : forall a b root,
  clear_way a root = false -> clear_way (a ++ b) root = false.
Proof.
  induction a as [|x a IH]; intros b root H.
  - destruct root; [destruct b; reflexivity|discriminate].
  - destruct root as [c0|kids]; [reflexivity|]. cbn [app clear_way] in *.
    destruct (FS.kids_get x kids) as [n|]; [|discriminate]. apply IH, H.
Qed.

Lemma clear_way_empty a : clear_way a (FS.Dir []) = true.
Proof. destruct a; reflexivity. Qed.

(** once the directories of [a] are made, [a] leads to a directory, and
    the way further is as it was *)
Lemma with_dirs_made : forall a root,
  clear_way a root = true ->
  (exists k, FS.get a (with_dirs a root) = Some (FS.Dir k))
  /\ (exists kids, with_dirs a root = FS.Dir kids)
  /\ forall b, with_dirs (a ++ b) (with_dirs a root) = with_dirs (a ++ b) root
               /\ clear_way (a ++ b) (with_dirs a root) = clear_way (a ++ b) root.
Proof.
  induction a as [|x a IH]; intros root H.
  - destruct root as [c|kids]; [discriminate|]. simpl. repeat split; eauto.
  - destruct root as [c|kids]; [discriminate|]. cbn [clear_way] in H.
    cbn [with_dirs app]. split; [|split; [eauto|]].
    + rewrite get_cons, kids_get_set_same.
      destruct (FS.kids_get x kids) as [n|];
        [apply (IH n H)|apply (IH (FS.Dir []) (clear_way_empty a))].
    + intros b. cbn [clear_way]. rewrite !kids_get_set_same, kids_set_set.
      destruct (FS.kids_get x kids) as [n|] eqn:E.
      * destruct (IH n H) as (_ & _ & Hb). destruct (Hb b) as [H1 H2]. rewrite H1, H2. auto.
      * destruct (IH (FS.Dir []) (clear_way_empty a)) as (_ & _ & Hb).
        destruct (Hb b) as [H1 H2]. rewrite H1, H2. split; [reflexivity|].
        apply clear_way_empty.
Qed.

(** ** What [alter_dir] does where the way is known *)

Lemma alter_dir_at_dir p f : forall ds root kids,
  FS.get ds root = Some (FS.Dir kids) ->
  FS.alter_dir p ds f root
  = match f kids with
    | Returned kids' => Returned (put_at ds (FS.Dir kids') root)
    | Raised e => Raised e
    end.
Proof.
  induction ds as [|d ds IH]; intros root kids H.
  - simpl in H. injection H as ->. reflexivity.
  - destruct root as [c|k0]; [discriminate|]. rewrite get_cons in H. cbn [FS.alter_dir put_at].
    destruct (FS.kids_get d k0) as [n|]; [|discriminate].
    rewrite (IH _ _ H). destruct (f kids); reflexivity.
Qed.

Lemma alter_dir_at_file p f : forall ds root c,
  FS.get ds root = Some (FS.File c) -> FS.alter_dir p ds f root = Raised (NotADirectoryError p).
Proof.
  induction ds as [|d ds IH]; intros root c H.
  - simpl in H. injection H as ->. reflexivity.
  - destruct root as [c0|k0]; [discriminate|]. rewrite get_cons in H. cbn [FS.alter_dir].
    destruct (FS.kids_get d k0) as [n|]; [|discriminate].
    rewrite (IH _ _ H). reflexivity.
Qed.

Lemma mkdir_snoc p dcs x root :
  FS.mkdir p (dcs ++ [x]) root
  = FS.alter_dir p dcs
      (fun kids => match FS.kids_get x kids with
                   | Some _ => Raised (FileExistsError p)
                   | None => Returned (FS.kids_set x (FS.Dir []) kids)
                   end) root.
Proof.
  unfold FS.mkdir. destruct (dcs ++ [x]) as [|y l] eqn:E.
  - destruct dcs; discriminate.
  - rewrite <- E, removelast_last, last_last. reflexivity.
Qed.

Lemma clear_way_step : forall a b root,
  clear_way a root = true -> clear_way (a ++ b) root = false ->
  exists k, FS.get a root = Some (FS.Dir k).
Proof.
  induction a as [|x a IH]; intros b root H1 H2.
  - destruct root as [c|kids]; [discriminate|]. simpl. eauto.
  - destruct root as [c|kids]; [discriminate|]. cbn [app clear_way] in *. rewrite get_cons.
    destruct (FS.kids_get x kids) as [n|]; [|discriminate]. apply (IH b n H1 H2).
Qed.

Lemma stat_lookup p root n : Os.stat p root = Some n -> Os.lookup p root = Some n.
Proof.
  unfold Os.stat. destruct (Os.lookup p root) as [[c|k]|]; try (intros H; exact H).
  destruct (Os.wants_dir p); [discriminate|]. intros H; exact H.
Qed.

(** ** The last step of [makedirs] *)

(** [mkdir] on a path the head of which is there *)
Lemma mkdir_ok_last name ph rest w n :
  Os.resolve name = Some (ph ++ rest) ->
  (rest = [] /\ (Os.final_dot name = true \/ ph = []))
  \/ (exists t, rest = [t] /\ Os.final_dot name = false) ->
  FS.get ph (w_fs w) = Some n ->
  if clear_way (ph ++ rest) (w_fs w)
  then exists w', mkdir_ok name w = (w', Returned tt)
                  /\ w_fs w' = with_dirs (ph ++ rest) (w_fs w) /\ w_trace w' = w_trace w
  else exists e, mkdir_ok name w = (w, Raised e)
                 /\ ((e = NotADirectoryError name
                      /\ (Os.final_dot name = false -> FS.get (ph ++ rest) (w_fs w) = None))
                     \/ (e = FileExistsError name /\ Os.final_dot name = false
                         /\ exists c, FS.get (ph ++ rest) (w_fs w) = Some (FS.File c))).
Proof.
  intros Hr Hcase Hg.
  assert (Hisd : forall w', Os.path_isdir name w'
                            = (w', Returned (match FS.get (ph ++ rest) (w_fs w') with
                                             | Some (FS.Dir _) => true
                                             | _ => false
                                             end))).
  { intros w'. unfold Os.path_isdir, Os.stat. rewrite (lookup_get _ _ _ Hr).
    destruct (FS.get (ph ++ rest) (w_fs w')) as [[c|k]|]; [|reflexivity|reflexivity].
    destruct (Os.wants_dir name); reflexivity. }
  unfold mkdir_ok, Os.mkdir, Os.at_path. rewrite Hr. unfold on_fs.
  destruct Hcase as [[-> Hd]|(t & -> & Hd)].
  - rewrite app_nil_r in *. destruct n as [c|k].
    + assert (Hc : clear_way ph (w_fs w) = false)
        by (rewrite <- (app_nil_r ph); apply clear_way_file with c; exact Hg).
      rewrite Hc. destruct (Os.final_dot name) eqn:Ed.
      * rewrite (alter_dir_at_file _ _ _ _ _ Hg), Hisd, Hg.
        eexists. split; [reflexivity|left; split; [reflexivity|discriminate]].
      * destruct Hd as [Hd| ->]; [discriminate|]. cbn [FS.mkdir]. rewrite Hisd, Hg.
        eexists. split; [reflexivity|right; split; [reflexivity|split; [reflexivity|eauto]]].
    + destruct (with_dirs_there _ _ _ Hg) as [W1 W2]. rewrite W1, W2.
      destruct (Os.final_dot name) eqn:Ed.
      * rewrite (alter_dir_at_dir _ _ _ _ _ Hg), Hisd, Hg. exists w. auto.
      * destruct Hd as [Hd| ->]; [discriminate|]. cbn [FS.mkdir]. rewrite Hisd, Hg.
        exists w. auto.
  - rewrite Hd, mkdir_snoc. destruct n as [c|k].
    + rewrite (clear_way_file _ [t] _ _ Hg), (alter_dir_at_file _ _ _ _ _ Hg), Hisd.
      rewrite get_app, Hg. cbn. eexists. split; [reflexivity|left; auto].
    + rewrite (alter_dir_at_dir _ _ _ _ _ Hg).
      assert (Hgt : FS.get (ph ++ [t]) (w_fs w) = FS.kids_get t k).
      { rewrite get_app, Hg. simpl. destruct (FS.kids_get t k); reflexivity. }
      destruct (FS.kids_get t k) as [[c|k2]|] eqn:Et.
      * pose proof (clear_way_file _ [] _ _ Hgt) as Hc. rewrite app_nil_r in Hc. rewrite Hc.
        rewrite Hisd, Hgt. eexists.
        split; [reflexivity|right; split; [reflexivity|split; [reflexivity|eauto]]].
      * destruct (with_dirs_there _ _ _ Hgt) as [W1 W2]. rewrite W1, W2.
        rewrite Hisd, Hgt. exists w. auto.
      * destruct (with_dirs_under ph [t] _ _ Hg) as [W1 W2]. rewrite W1, W2.
        cbn [clear_way with_dirs]. rewrite Et. eexists. split; [reflexivity|]. auto.
Qed.

(** ** [makedirs] makes the directories of the path *)

(** The call makes the missing directories of the path and returns, unless
    a regular file stands in the way: then it raises and leaves the world
    as it is.  It never runs out of depth. *)
Lemma makedirs_from_spec : forall depth name cs w kids,
  String.length name < depth ->
  Os.resolve name = Some cs ->
  w_fs w = FS.Dir kids ->
  if clear_way cs (w_fs w)
  then exists w', Os.makedirs_from depth name w = (w', Returned tt)
                  /\ w_fs w' = with_dirs cs (w_fs w) /\ w_trace w' = w_trace w
  else exists e, Os.makedirs_from depth name w = (w, Raised e)
                 /\ ((exists q, e = NotADirectoryError q)
                     \/ (e = FileExistsError name /\ Os.final_dot name = false
                         /\ exists c, FS.get cs (w_fs w) = Some (FS.File c))).
Proof.
  induction depth as [|depth IH]; intros name cs w kids Hlen Hr Hw; [lia|].
  assert (Hlast : forall ph rest w1 n,
             cs = ph ++ rest ->
             (rest = [] /\ (Os.final_dot name = true \/ ph = []))
             \/ (exists t, rest = [t] /\ Os.final_dot name = false) ->
             FS.get ph (w_fs w1) = Some n ->
             if clear_way cs (w_fs w1)
             then exists w', mkdir_ok name w1 = (w', Returned tt)
                             /\ w_fs w' = with_dirs cs (w_fs w1) /\ w_trace w' = w_trace w1
             else exists e, mkdir_ok name w1 = (w1, Raised e)
                            /\ ((exists q, e = NotADirectoryError q)
                                \/ (e = FileExistsError name /\ Os.final_dot name = false
                                    /\ exists c, FS.get cs (w_fs w1) = Some (FS.File c)))).
  { intros ph rest w1 n -> Hcase Hg.
    pose proof (mkdir_ok_last name ph rest w1 n Hr Hcase Hg) as H.
    destruct (clear_way (ph ++ rest) (w_fs w1)); [exact H|].
    destruct H as (e & H1 & [[He _]|H2]); exists e; (split; [exact H1|]);
      [left; eauto|right; exact H2]. }
  rewrite makedirs_from_S. destruct (heads name) as [head tail] eqn:Eh.
  destruct (heads_spec _ _ _ Eh) as (H1 & H2 & H3 & H4 & H5).
  pose proof Hr as Hr'. apply resolve_parts in Hr' as (Hne & Hcs & Hdd).
  destruct (String.eqb_spec tail "") as [->|Ht].
  - rewrite andb_false_r. rewrite (H5 eq_refl) in Hcs. simpl in Hcs.
    apply (Hlast [] [] w (w_fs w)); [exact Hcs| |reflexivity]. left. auto.
  - assert (Hp : parts_of name = parts_of head ++ [tail]).
    { rewrite H2. simpl. unfold nonempty. destruct (String.eqb_spec tail ""); [congruence|].
      reflexivity. }
    assert (Hfd : Os.final_dot name = String.eqb tail ".")
      by (rewrite final_dot_parts, Hp, last_last; reflexivity).
    set (ph := filter not_dot (parts_of head)).
    set (rest := filter not_dot [tail]).
    assert (Hcs' : cs = ph ++ rest) by (rewrite Hcs, Hp, filter_app; reflexivity).
    assert (Hcase : (rest = [] /\ (Os.final_dot name = true \/ ph = []))
                    \/ (exists t, rest = [t] /\ Os.final_dot name = false)).
    { unfold rest. simpl. unfold not_dot. rewrite Hfd.
      destruct (String.eqb tail "."); simpl; [left; auto|right; eauto]. }
    destruct (String.eqb_spec head "") as [->|Hh].
    + simpl. apply (Hlast ph rest w (w_fs w) Hcs' Hcase). reflexivity.
    + simpl.
      assert (Hrh : Os.resolve head = Some ph).
      { apply resolve_parts. split; [exact Hh|]. split; [reflexivity|].
        rewrite Hcs', existsb_app in Hdd. apply orb_false_iff in Hdd. apply Hdd. }
      destruct (Os.stat head (w_fs w)) as [n|] eqn:Es.
      * apply stat_lookup in Es. rewrite (lookup_get _ _ _ Hrh) in Es.
        apply (Hlast ph rest w n Hcs' Hcase Es).
      * assert (Hl : String.length head < depth) by (specialize (H3 Ht); lia).
        pose proof (IH head ph w kids Hl Hrh Hw) as Hrec.
        destruct (clear_way ph (w_fs w)) eqn:Ec.
        -- destruct Hrec as (w1 & R1 & R2 & R3). rewrite R1.
           destruct (with_dirs_made ph (w_fs w) Ec) as ((k & Hk) & _ & Hb).
           destruct (Hb rest) as [B1 B2]. rewrite <- Hcs' in B1, B2.
           destruct (String.eqb tail ".") eqn:Ed.
           ++ assert (rest = []) by (unfold rest, not_dot; simpl; rewrite Ed; reflexivity).
              rewrite Hcs', H, app_nil_r, Ec. exists w1. rewrite R2. auto.
           ++ rewrite <- R2 in Hk, B1, B2.
              pose proof (Hlast ph rest w1 _ Hcs' Hcase Hk) as L. rewrite B2 in L.
              destruct (clear_way cs (w_fs w)) eqn:Ecs.
              ** destruct L as (w' & L1 & L2 & L3). exists w'. split; [exact L1|].
                 split; congruence.
              ** exfalso. rewrite Hcs' in Ecs.
                 destruct (clear_way_step _ _ _ Ec Ecs) as [k0 Hk0].
                 unfold Os.stat in Es. rewrite (lookup_get _ _ _ Hrh), Hk0 in Es. discriminate.
        -- destruct Hrec as (e & R1 & R2). rewrite R1.
           rewrite Hcs', (clear_way_prefix _ rest _ Ec).
           destruct R2 as [[q ->]|(-> & Rd & c & Rc)].
           ++ eexists. split; [reflexivity|]. left. eauto.
           ++ exfalso. unfold Os.stat in Es. rewrite (lookup_get _ _ _ Hrh), Rc in Es.
              destruct (Os.wants_dir head) eqn:Ewd; [|discriminate].
              unfold Os.wants_dir in Ewd. rewrite Rd, orb_false_r in Ewd.
              apply String.eqb_eq in Ewd. destruct H4 as [H4|H4].
              ** exact (rstrip_fixed_last _ H4 Hh Ewd).
              ** unfold ph in Rc. rewrite H4 in Rc. simpl in Rc. congruence.
Qed.

(** the depth is never used up: any depth above the length of the name
    gives the same call *)
Lemma makedirs_from_depth : forall d1 d2 name w,
  String.length name < d1 -> String.length name < d2 ->
  Os.makedirs_from d1 name w = Os.makedirs_from d2 name w.
Proof.
  induction d1 as [|d1 IH]; intros d2 name w L1 L2; [lia|].
  destruct d2 as [|d2]; [lia|]. rewrite !makedirs_from_S.
  destruct (heads name) as [head tail] eqn:Eh.
  destruct (heads_spec _ _ _ Eh) as (_ & _ & H3 & _ & _).
  destruct (String.eqb_spec tail "") as [->|Ht]; [rewrite andb_false_r; reflexivity|].
  specialize (H3 Ht). rewrite (IH d2 head w) by lia. reflexivity.
Qed.

Lemma makedirs_spec name cs w kids :
  Os.resolve name = Some cs ->
  w_fs w = FS.Dir kids ->
  if clear_way cs (w_fs w)
  then exists w', Os.makedirs name w = (w', Returned tt)
                  /\ w_fs w' = with_dirs cs (w_fs w) /\ w_trace w' = w_trace w
  else exists e, Os.makedirs name w = (w, Raised e)
                 /\ ((exists q, e = NotADirectoryError q)
                     \/ (e = FileExistsError name /\ Os.final_dot name = false
                         /\ exists c, FS.get cs (w_fs w) = Some (FS.File c))).
Proof. intros Hr Hw. apply (makedirs_from_spec _ _ _ _ kids); auto. Qed.

(** ** [ensure_dir] *)

Lemma get_root_dir cs root k :
  FS.get cs root = Some (FS.Dir k) -> exists kids, root = FS.Dir kids.
Proof. destruct cs, root; simpl; intros H; try discriminate; eauto. Qed.

Lemma with_dirs_dir cs kids : exists L, with_dirs cs (FS.Dir kids) = FS.Dir L.
Proof. destruct cs; simpl; eauto. Qed.

(** What [ensure_dir] does with a path: nothing when the path exists; else
    it makes the missing directories, unless a regular file stands in the
    way. *)
Lemma ensure_dir_spec p cs w kids :
  Os.resolve p = Some cs ->
  w_fs w = FS.Dir kids ->
  match Os.stat p (w_fs w) with
  | Some _ => ensure_dir p w = (w, Returned tt)
  | None =>
      if clear_way cs (w_fs w)
      then exists w', ensure_dir p w = (w', Returned tt)
                      /\ w_fs w' = with_dirs cs (w_fs w) /\ w_trace w' = w_trace w
      else exists e, ensure_dir p w = (w, Raised e)
                     /\ ((exists q, e = NotADirectoryError q)
                         \/ (e = FileExistsError p /\ Os.final_dot p = false
                             /\ exists c, FS.get cs (w_fs w) = Some (FS.File c)))
  end.
Proof.
  intros Hr Hw. pose proof (makedirs_spec p cs w kids Hr Hw) as H.
  unfold ensure_dir, bind, Os.path_exists.
  destruct (Os.stat p (w_fs w)); [reflexivity|]. exact H.
Qed.

Lemma ensure_dir_makes_one ocs t p ko w :
  Os.resolve p = Some (ocs ++ [t]) ->
  FS.get ocs (w_fs w) = Some (FS.Dir ko) ->
  FS.kids_get t ko = None ->
  exists w', ensure_dir p w = (w', Returned tt)
             /\ w_fs w' = put_at ocs (FS.Dir (FS.kids_set t (FS.Dir []) ko)) (w_fs w)
             /\ w_trace w' = w_trace w.
Proof.
  intros Hr Hg Ht. destruct (get_root_dir _ _ _ Hg) as [kids Hw].
  pose proof (ensure_dir_spec p _ w kids Hr Hw) as H.
  assert (Hn : Os.stat p (w_fs w) = None).
  { unfold Os.stat. rewrite (lookup_get _ _ _ Hr), get_app, Hg. simpl. rewrite Ht.
    reflexivity. }
  rewrite Hn in H. destruct (with_dirs_under ocs [t] _ _ Hg) as [W1 W2].
  rewrite W1, W2 in H. cbn [clear_way with_dirs] in H. rewrite Ht in H. exact H.
Qed.

(** ** Paths of plain names *)





















(** ** The directories [ensure_dir] makes *)






(** ** A regular file in the way *)






(** ** The output directory while a gauge is exported *)


Lemma tmp_holds_get ocs t ks A w :
  tmp_holds ocs t ks A w -> FS.get (ocs ++ [t]) (w_fs w) = Some (FS.Dir ks).
Proof. intros (L & H1 & H2 & _). rewrite get_app, H1. simpl. rewrite H2. reflexivity. Qed.


Lemma write_in_tmp ocs t p x c ks A w :
  Os.resolve p = Some ((ocs ++ [t]) ++ [x]) ->
  tmp_holds ocs t ks A w ->
  (forall k, FS.kids_get x ks <> Some (FS.Dir k)) ->
  exists w', Os.write_file p c w = (w', Returned tt)
             /\ tmp_holds ocs t (FS.kids_set x (FS.File c) ks) A w'
             /\ w_trace w' = w_trace w.
Proof.
  intros Hr Hh Hx. pose proof (tmp_holds_get _ _ _ _ _ Hh) as Hg.
  destruct Hh as (L & H1 & H2 & H3).
  unfold Os.write_file, Os.at_path. rewrite Hr. unfold on_fs. rewrite write_file_snoc.
  set (f := fun kids : list (string * FS.node) => _).
  assert (Hf : f ks = Returned (FS.kids_set x (FS.File c) ks)).
  { unfold f. destruct (FS.kids_get x ks) as [[c0|k]|] eqn:E; try reflexivity.
    exfalso. exact (Hx k eq_refl). }
  destruct (alter_dir_returns p f _ _ _ _ Hg Hf) as [root' Ha]. rewrite Ha.
  eexists. split; [reflexivity|]. split; [|reflexivity].
  destruct (alter_dir_child p f t ocs _ _ _ Ha H1) as (ks0 & ks0' & E1 & E2 & E3).
  rewrite H2 in E1. injection E1 as <-. rewrite Hf in E2. injection E2 as <-.
  exists (FS.kids_set t (FS.Dir (FS.kids_set x (FS.File c) ks)) L). simpl.
  split; [exact E3|]. rewrite kids_get_set_same, kids_del_set_same. auto.
Qed.




Lemma ensure_dir_new ocs t p ko w :
  Os.resolve p = Some (ocs ++ [t]) ->
  FS.get ocs (w_fs w) = Some (FS.Dir ko) ->
  FS.kids_get t ko = None ->
  exists w', ensure_dir p w = (w', Returned tt)
             /\ tmp_holds ocs t [] ko w'
             /\ w_trace w' = w_trace w.
Proof.
  intros Hr Hg Ht.
  destruct (ensure_dir_makes_one ocs t p ko w Hr Hg Ht) as (w' & H1 & H2 & H3).
  exists w'. split; [exact H1|]. split; [|exact H3].
  exists (FS.kids_set t (FS.Dir []) ko). rewrite H2, (get_put_at _ _ _ _ Hg).
  rewrite kids_get_set_same, kids_del_set_same, (kids_del_absent _ _ Ht). auto.
Qed.

(** a loop each step of which returns and keeps the invariant returns *)
Lemma for_each_returns {A} (I : world -> Prop) (body : A -> M unit) :
  forall xs w,
    (forall x v, In x xs -> I v -> exists v', body x v = (v', Returned tt) /\ I v') ->
    I w -> exists w', for_each xs body w = (w', Returned tt) /\ I w'.
Proof.
  induction xs as [|x xs IH]; intros w Hstep Hi.
  - exists w. split; [reflexivity|exact Hi].
  - destruct (Hstep x w (or_introl eq_refl) Hi) as (v & Hb & Hv).
    destruct (IH v (fun y u Hy => Hstep y u (or_intror Hy)) Hv) as (w' & Hl & Hw').
    exists w'. split; [|exact Hw']. simpl. rewrite (bind_returned _ _ _ _ _ Hb). exact Hl.
Qed.

(** ** Changes confined to the output directory *)

Lemma only_below_lists ocs w w' : lists ocs w -> only_below ocs w w' -> lists ocs w'.
Proof.
  intros [ka Hk] [L HL]. exists L. rewrite HL. apply (get_put_at _ _ _ _ Hk).
Qed.

Lemma only_below_refl ocs w : lists ocs w -> only_below ocs w w.
Proof. intros [ka Hk]. exists ka. symmetry. apply put_at_same, Hk. Qed.

Lemma only_below_trans ocs w w1 w2 :
  only_below ocs w w1 -> only_below ocs w1 w2 -> only_below ocs w w2.
Proof.
  intros [L1 H1] [L2 H2]. exists L2. rewrite H2, H1. apply put_at_twice.
Qed.


Lemma keeps_below_ret ocs {A} (a : A) : keeps_below ocs (ret a).
Proof. intros w w' b Hl H. injection H as <- _. apply only_below_refl, Hl. Qed.

Lemma keeps_below_bind ocs {A B} (m : M A) (k : A -> M B) :
  keeps_below ocs m -> (forall a, keeps_below ocs (k a)) -> keeps_below ocs (bind m k).
Proof.
  intros Hm Hk w w' b Hl H. apply bind_inv_returned in H.
  destruct H as (w1 & a & H1 & H2). pose proof (Hm _ _ _ Hl H1) as B1.
  apply (only_below_trans _ _ _ _ B1). apply (Hk a _ _ _ (only_below_lists _ _ _ Hl B1) H2).
Qed.

Lemma keeps_below_for_each ocs {A} (body : A -> M unit) : forall xs,
  (forall x, In x xs -> keeps_below ocs (body x)) -> keeps_below ocs (for_each xs body).
Proof.
  induction xs as [|x xs IH]; intros Hb; simpl.
  - apply keeps_below_ret.
  - apply keeps_below_bind; [apply Hb; left; reflexivity|].
    intros _. apply IH. intros y Hy. apply Hb. right. exact Hy.
Qed.

Lemma keeps_below_same_fs ocs {A} (m : M A) : keeps_fs m -> keeps_below ocs m.
Proof.
  intros Hm w w' a Hl H. specialize (Hm w). rewrite H in Hm. simpl in Hm.
  destruct Hl as [ka Hk]. exists ka. rewrite Hm. symmetry. apply put_at_same, Hk.
Qed.

Lemma removelast_below (ocs : list string) x r :
  removelast (ocs ++ x :: r) = ocs ++ removelast (x :: r).
Proof. apply removelast_app. discriminate. Qed.

Lemma keeps_below_write_file ocs p c x r :
  Os.resolve p = Some (ocs ++ x :: r) -> keeps_below ocs (Os.write_file p c).
Proof.
  intros Hr w w' [] [ka Hk] H. apply at_path_returned in H.
  destruct H as (cs & Hcs & Hop & _). rewrite Hr in Hcs. injection Hcs as <-.
  unfold FS.write_file in Hop. destruct (ocs ++ x :: r) as [|y l] eqn:E.
  { destruct ocs; discriminate. }
  rewrite <- E, removelast_below in Hop.
  destruct (alter_dir_below _ _ _ _ _ _ _ Hop Hk) as [L HL]. exists L. exact HL.
Qed.



Lemma keeps_below_ensure_dir ocs p r :
  Os.resolve p = Some (ocs ++ r) -> keeps_below ocs (ensure_dir p).
Proof.
  intros Hr w w' [] Hl H. pose proof Hl as [ka Hk].
  destruct (get_root_dir _ _ _ Hk) as [kids Hw].
  pose proof (ensure_dir_spec p _ w kids Hr Hw) as S.
  destruct (Os.stat p (w_fs w)).
  - rewrite S in H. injection H as <-. apply only_below_refl, Hl.
  - destruct (with_dirs_under ocs r _ _ Hk) as [W1 W2]. rewrite W1 in S.
    destruct (clear_way (ocs ++ r) (w_fs w)).
    + destruct S as (w1 & S1 & S2 & _). rewrite S1 in H. injection H as <-.
      destruct (with_dirs_dir r ka) as [L HL]. exists L. rewrite S2, HL. reflexivity.
    + destruct S as (e & S1 & _). rewrite S1 in H. discriminate.
Qed.



(** ** The steps of an export into a new temporary directory *)

Lemma put_parts_cons gid part parts ks :
  put_parts gid (part :: parts) ks
  = put_parts gid parts
      (FS.kids_set (layer_of gid ++ fst part)%string (FS.File (FS.Blob (snd part))) ks).
Proof. reflexivity. Qed.

Lemma all_files_set x c ks :
  all_files ks = true -> all_files (FS.kids_set x (FS.File c) ks) = true.
Proof.
  unfold all_files. induction ks as [|[k n] ks IH]; simpl; [reflexivity|].
  intros H. apply andb_true_iff in H. destruct H as [H1 H2].
  destruct (String.eqb k x); simpl; [exact H2|]. rewrite H1. exact (IH H2).
Qed.

Lemma all_files_get x ks k :
  all_files ks = true -> FS.kids_get x ks <> Some (FS.Dir k).
Proof.
  unfold all_files. induction ks as [|[k0 n] ks IH]; simpl; [discriminate|].
  intros H. apply andb_true_iff in H. destruct H as [H1 H2].
  destruct (String.eqb k0 x); [|exact (IH H2)].
  destruct n; [discriminate|discriminate].
Qed.





Section ExportSteps.

Variables (host : Host) (gdf : geodataframe) (gid tmp_dir out_zip : string).
Variables (ocs : list string) (t z : string).
Hypothesis Hgid : has_char "/" gid = false.
Hypothesis Htmp : Os.resolve tmp_dir = Some (ocs ++ [t]).
Hypothesis Hzip : Os.resolve out_zip = Some (ocs ++ [z]).
Hypothesis Htz : t <> z.

Lemma write_parts_fresh A parts : forall ks w,
  forallb plain_ext parts = true ->
  all_files ks = true ->
  tmp_holds ocs t ks A w ->
  exists w',
    for_each parts
      (fun part => Os.write_file (PosixPath.join tmp_dir (layer_of gid ++ fst part))
                     (FS.Blob (snd part))) w = (w', Returned tt)
    /\ tmp_holds ocs t (put_parts gid parts ks) A w'
    /\ w_trace w' = w_trace w.
Proof.
  induction parts as [|part parts IH]; intros ks w Hp Ha Hh.
  - exists w. simpl. auto.
  - simpl in Hp. apply andb_true_iff in Hp. destruct Hp as [Hp1 Hp2].
    assert (Hv : valid_name (layer_of gid ++ fst part) = true).
    { apply valid_layer_part; [exact Hgid|]. apply negb_true_iff, Hp1. }
    destruct (write_in_tmp ocs t _ _ (FS.Blob (snd part)) ks A w
                (resolve_join _ _ _ Htmp Hv) Hh (fun k => all_files_get _ _ k Ha))
      as (w1 & H1 & Hh1 & T1).
    destruct (IH _ w1 Hp2 (all_files_set _ _ _ Ha) Hh1) as (w' & H2 & Hh2 & T2).
    exists w'. rewrite put_parts_cons. split; [|split; [exact Hh2|congruence]].
    simpl. rewrite (bind_returned _ _ _ _ _ H1). exact H2.
Qed.


(** a driver that fails after some parts leaves these in the directory *)
Lemma to_file_stops A parts e ks w :
  shapefile_parts host gdf = (parts, Some e) ->
  forallb plain_ext parts = true ->
  all_files ks = true ->
  tmp_holds ocs t ks A w ->
  exists w',
    to_file host gdf (PosixPath.join tmp_dir (layer_of gid ++ ".shp")) w = (w', Raised e)
    /\ for_each parts
         (fun part => Os.write_file (PosixPath.join tmp_dir (layer_of gid ++ fst part))
                        (FS.Blob (snd part))) w = (w', Returned tt)
    /\ tmp_holds ocs t (put_parts gid parts ks) A w'
    /\ w_trace w' = w_trace w.
Proof.
  intros Hparts Hp Ha Hh.
  destruct (write_parts_fresh A parts ks w Hp Ha Hh) as (w' & H & Hh' & T).
  exists w'. split; [|auto]. unfold to_file. rewrite Hparts. cbn [fst snd].
  assert (H' : for_each parts
            (fun part => driver_write host
               (substring 0 (String.length (PosixPath.join tmp_dir (layer_of gid ++ ".shp")) - 4)
                          (PosixPath.join tmp_dir (layer_of gid ++ ".shp")) ++ fst part)%string
               (FS.Blob (snd part))) w = (w', Returned tt)).
  { apply (for_each_driver_write host (fun part => (_ ++ fst part)%string)).
    rewrite <- H. apply for_each_ext. intros x v. rewrite part_path. reflexivity. }
  rewrite (bind_returned _ _ _ _ _ H'). reflexivity.
Qed.

(** the writes of the driver stay below the output directory *)
Lemma write_parts_below parts :
  forallb plain_ext parts = true ->
  keeps_below ocs
    (for_each parts
       (fun part => Os.write_file (PosixPath.join tmp_dir (layer_of gid ++ fst part))
                      (FS.Blob (snd part)))).
Proof.
  intros Hp. apply keeps_below_for_each. intros part Hin.
  refine (keeps_below_write_file ocs _ _ t [(layer_of gid ++ fst part)%string] _).
  replace (ocs ++ [t; (layer_of gid ++ fst part)%string])
    with ((ocs ++ [t]) ++ [(layer_of gid ++ fst part)%string])
    by (rewrite <- app_assoc; reflexivity).
  apply (resolve_join _ _ _ Htmp). apply valid_layer_part; [exact Hgid|].
  rewrite forallb_forall in Hp. apply negb_true_iff, (Hp _ Hin).
Qed.









End ExportSteps.




(** ** An export that succeeds *)

Lemma valid_layer gid : has_char "/" gid = false -> valid_name (layer_of gid) = true.
Proof.
  intros H. rewrite <- (append_nil_r (layer_of gid)). apply valid_layer_part; [exact H|reflexivity].
Qed.

Lemma zip_name_layer gid : zip_name gid = (layer_of gid ++ ".zip")%string.
Proof.
  unfold zip_name, layer_of.
  change ("gauge_" ++ gid ++ "_subbasins.zip")%string
    with ("gauge_" ++ (gid ++ ("_subbasins" ++ ".zip")))%string.
  rewrite <- (append_assoc gid), <- (append_assoc "gauge_"). reflexivity.
Qed.

Lemma valid_zip_name gid : has_char "/" gid = false -> valid_name (zip_name gid) = true.
Proof. intros H. rewrite zip_name_layer. apply valid_layer_part; [exact H|reflexivity]. Qed.



Lemma get_in_dir ocs x L root :
  FS.get ocs root = Some (FS.Dir L) -> FS.get (ocs ++ [x]) root = FS.kids_get x L.
Proof.
  intros H. rewrite get_app, H. simpl. destruct (FS.kids_get x L); reflexivity.
Qed.

(** the paths of an export, in an output directory whose name holds no
    [".zip"], for an id without a slash *)
Lemma export_paths args gid ocs :
  Os.resolve (out_dir args) = Some ocs ->
  PyStr.replace ".zip" "" (out_dir args) = out_dir args ->
  has_char "/" gid = false ->
  Os.resolve (PyStr.replace ".zip" "" (out_zip_of args gid))
  = Some (ocs ++ [layer_of (unzip gid)])
  /\ Os.resolve (out_zip_of args gid) = Some (ocs ++ [zip_name gid]).
Proof.
  intros Ho Hu Hg. split.
  - fold (unzip (out_zip_of args gid)).
    rewrite (unzip_out_zip args gid Hu). apply (resolve_join _ _ _ Ho).
    apply valid_layer, has_char_unzip, Hg.
  - unfold out_zip_of. fold (zip_name gid).
    apply (resolve_join _ _ _ Ho), valid_zip_name, Hg.
Qed.



(** [write_shapefile_zip] when the driver fails after some parts *)
Lemma write_shapefile_zip_stops host args gdf gid ocs ko parts e w :
  Os.resolve (out_dir args) = Some ocs ->
  PyStr.replace ".zip" "" (out_dir args) = out_dir args ->
  has_char "/" gid = false ->
  FS.get ocs (w_fs w) = Some (FS.Dir ko) ->
  FS.kids_get (layer_of (PyStr.replace ".zip" "" gid)) ko = None ->
  shapefile_parts host gdf = (parts, Some e) ->
  forallb plain_ext parts = true ->
  exists w',
    write_shapefile_zip host gdf (out_zip_of args gid) (layer_of gid) w = (w', Raised e)
    /\ w_trace w' = w_trace w
    /\ tmp_holds ocs (layer_of (unzip gid)) (files_written gid parts) ko w'
    /\ only_below ocs w w'.
Proof.
  intros Ho Hu Hg Hko Ht Hparts Hp.
  set (t := layer_of (unzip gid)).
  set (tmp_dir := PyStr.replace ".zip" "" (out_zip_of args gid)).
  destruct (export_paths args gid ocs Ho Hu Hg) as [Htmp _]. fold tmp_dir t in Htmp.
  destruct (ensure_dir_new ocs t tmp_dir ko w Htmp Hko Ht) as (w1 & H1 & Hh1 & T1).
  destruct (to_file_stops host gdf gid tmp_dir ocs t Hg Htmp ko parts e [] w1 Hparts Hp
              eq_refl Hh1) as (w2 & H2 & Hw & Hh2 & T2).
  fold (files_written gid parts) in Hh2.
  assert (Hl : lists ocs w) by (exists ko; exact Hko).
  pose proof (keeps_below_ensure_dir ocs tmp_dir [t] Htmp w w1 tt Hl H1) as B1.
  pose proof (write_parts_below gid tmp_dir ocs t Hg Htmp parts Hp w1 w2 tt
                (only_below_lists _ _ _ Hl B1) Hw) as B2.
  exists w2. split; [|split; [congruence|split; [exact Hh2|]]].
  - unfold write_shapefile_zip. fold tmp_dir. rewrite (bind_returned _ _ _ _ _ H1).
    apply bind_raised. exact H2.
  - exact (only_below_trans _ _ _ _ B1 B2).
Qed.




(** X18: [write_shapefile_zip] has no clean-up on failure.  In an output
    directory that is ready for the export, when the driver fails after it
    has written some of its files, the call raises the exception of the
    driver.  The temporary directory is left behind with the files written
    so far; no archive has been created or truncated: every other entry of
    the output directory is as it was, and so is everything outside the
    output directory.  Nothing is printed. *)
Theorem X18_failed_write_leaves_directory host args gdf gid ocs ko parts e w :
  Os.resolve (out_dir args) = Some ocs ->
  PyStr.replace ".zip" "" (out_dir args) = out_dir args ->
  has_char "/" gid = false ->
  FS.get ocs (w_fs w) = Some (FS.Dir ko) ->
  FS.kids_get (layer_of (unzip gid)) ko = None ->
  shapefile_parts host gdf = (parts, Some e) ->
  forallb plain_ext parts = true ->
  exists w',
    write_shapefile_zip host gdf (out_zip_of args gid) (layer_of gid) w = (w', Raised e)
    /\ w_trace w' = w_trace w
    /\ FS.get (ocs ++ [layer_of (unzip gid)]) (w_fs w')
       = Some (FS.Dir (files_written gid parts))
    /\ (forall x, x <> layer_of (unzip gid) ->
                  FS.get (ocs ++ [x]) (w_fs w') = FS.get (ocs ++ [x]) (w_fs w))
    /\ only_below ocs w w'.
Proof.
  intros Ho Hu Hg Hko Ht Hparts Hp.
  destruct (write_shapefile_zip_stops host args gdf gid ocs ko parts e w
              Ho Hu Hg Hko Ht Hparts Hp) as (w' & H1 & H2 & H3 & H4).
  exists w'. split; [exact H1|]. split; [exact H2|]. split; [|split; [|exact H4]].
  - apply (tmp_holds_get _ _ _ _ _ H3).
  - intros x Hx. destruct H3 as (L & HL & _ & Hdel).
    rewrite (get_in_dir _ _ _ _ HL), (get_in_dir _ _ _ _ Hko), <- Hdel.
    symmetry. apply kids_get_del_other. congruence.
Qed.

Lemma X18_failed_write_leaves_directory_witness :
  exists w',
    write_shapefile_zip Demo.host_disk_full Demo.frame
      "outputs/gauge_02HA003_subbasins.zip" "gauge_02HA003_subbasins" Demo.world1
    = (w', Raised (OSError "No space left on device"))
    /\ FS.get ["outputs"; "gauge_02HA003_subbasins"] (w_fs w')
       = Some (FS.Dir [("gauge_02HA003_subbasins.shp", FS.File (FS.Blob "shp"))])
    /\ FS.get ["outputs"; "gauge_02HA003_subbasins.zip"] (w_fs w') = None.
Proof.
  destruct (X18_failed_write_leaves_directory Demo.host_disk_full Demo.args Demo.frame
              "02HA003" ["outputs"] [] [(".shp", "shp")]
              (OSError "No space left on device") Demo.world1
              eq_refl eq_refl eq_refl eq_refl eq_refl eq_refl eq_refl)
    as (w' & H1 & _ & H3 & H4 & _).
  exists w'. split; [exact H1|]. split; [exact H3|].
  exact (H4 "gauge_02HA003_subbasins.zip" ltac:(discriminate)).
Defined.

(* ------------------------------------------------------------------ *)
(** * A whole run in local mode *)










(** ** Writing into an existing directory *)

Lemma write_in_dir ocs x p c L w :
  Os.resolve p = Some (ocs ++ [x]) ->
  FS.get ocs (w_fs w) = Some (FS.Dir L) ->
  (forall k, FS.kids_get x L <> Some (FS.Dir k)) ->
  exists w', Os.write_file p c w = (w', Returned tt)
             /\ FS.get ocs (w_fs w') = Some (FS.Dir (FS.kids_set x (FS.File c) L))
             /\ w_trace w' = w_trace w.
Proof.
  intros Hr H1 Hx.
  unfold Os.write_file, Os.at_path. rewrite Hr. unfold on_fs. rewrite write_file_snoc.
  set (f := fun kids : list (string * FS.node) => _).
  assert (Hf : f L = Returned (FS.kids_set x (FS.File c) L)).
  { unfold f. destruct (FS.kids_get x L) as [[c0|k]|] eqn:E; try reflexivity.
    exfalso. exact (Hx k eq_refl). }
  destruct (alter_dir_returns p f _ _ _ _ H1 Hf) as [root' Ha]. rewrite Ha.
  eexists. split; [reflexivity|]. split; [|reflexivity].
  destruct (alter_dir_target p f _ _ _ Ha) as (L0 & L0' & E1 & E2 & E3).
  rewrite H1 in E1. injection E1 as <-. rewrite Hf in E2. injection E2 as <-.
  exact E3.
Qed.

Section LocalRun.

Variables (host : Host) (args : args_t) (ocs : list string) (ko : list (string * FS.node)).
Hypothesis Hmode : export_mode args = client.
Hypothesis Hout : Os.resolve (out_dir args) = Some ocs.
Hypothesis Hunzip : PyStr.replace ".zip" "" (out_dir args) = out_dir args.



Lemma combined_not_zip_name gid : "all_gauge_subbasins.zip" <> zip_name gid.
Proof. unfold zip_name. discriminate. Qed.

Lemma combine_loop_ready L zf : 
  Os.resolve zf = Some (ocs ++ ["all_gauge_subbasins.zip"]) ->
  forall gs es w,
    FS.get ocs (w_fs w)
    = Some (FS.Dir (FS.kids_set "all_gauge_subbasins.zip" (FS.File (FS.Archive es)) L)) ->
    Forall (fun g => has_char "/" (fst (fst g)) = false
                     /\ exists c, FS.kids_get (zip_name (fst (fst g))) L = Some (FS.File c)) gs ->
    exists w',
      for_each (map (fun g => out_zip_of args (fst (fst g))) gs)
        (fun p => Zip.write zf p (PosixPath.basename p)) w = (w', Returned tt)
      /\ FS.get ocs (w_fs w')
         = Some (FS.Dir (FS.kids_set "all_gauge_subbasins.zip"
                           (FS.File (FS.Archive (es ++ map (entry_in L) gs))) L))
      /\ w_trace w' = w_trace w.
Proof.
  intros Hz. induction gs as [|g gs IH]; intros es w HL Hf.
  - exists w. simpl. rewrite app_nil_r. auto.
  - inversion Hf as [|? ? (Hplain & c & Hc) Hrest]; subst.
    set (L1 := FS.kids_set "all_gauge_subbasins.zip" (FS.File (FS.Archive es)) L) in *.
    assert (Hp : Os.resolve (out_zip_of args (fst (fst g)))
                 = Some (ocs ++ [zip_name (fst (fst g))])).
    { unfold out_zip_of. fold (zip_name (fst (fst g))).
      apply (resolve_join _ _ _ Hout), valid_zip_name, Hplain. }
    assert (Hl : Os.lookup (out_zip_of args (fst (fst g))) (w_fs w) = Some (FS.File c)).
    { rewrite (lookup_get _ _ _ Hp), (get_in_dir _ _ _ _ HL). unfold L1.
      rewrite kids_get_set_other; [exact Hc|]. intros E. symmetry in E.
      exact (combined_not_zip_name _ E). }
    assert (Hzf : Os.lookup zf (w_fs w) = Some (FS.File (FS.Archive es))).
    { rewrite (lookup_get _ _ _ Hz), (get_in_dir _ _ _ _ HL). apply kids_get_set_same. }
    destruct (write_in_dir ocs "all_gauge_subbasins.zip" zf
                (FS.Archive (es ++ [(PosixPath.basename (out_zip_of args (fst (fst g))), c)]))
                L1 w Hz HL) as (w1 & H1 & G1 & T1).
    { intros k. unfold L1. rewrite kids_get_set_same. discriminate. }
    unfold L1 in G1. rewrite kids_set_set in G1.
    destruct (IH _ w1 G1 Hrest) as (w' & H2 & G2 & T2).
    exists w'. split; [|split; [|congruence]].
    + simpl. unfold bind at 1. unfold Zip.write at 1. rewrite Hl.
      unfold Zip.append_entry. rewrite Hzf, H1. exact H2.
    + rewrite G2. rewrite <- app_assoc. simpl. unfold entry_in at 2.
      rewrite (basename_out_zip _ _ Hplain). unfold content_at. rewrite Hc. reflexivity.
Qed.


End LocalRun.








(* ------------------------------------------------------------------ *)
(** * A whole run in remote mode *)




(* ------------------------------------------------------------------ *)
(** * An archive that is gone *)

(** X23: when an archive of the list is no longer in the output directory,
    [build_combined_zip] raises [FileNotFoundError] with its path.  The
    combined archive has been created by then and holds the entries of the
    paths before the missing one; the closing line is not printed. *)
Theorem X23_missing_archive args ocs L gs g rest w :
  Os.resolve (out_dir args) = Some ocs ->
  FS.get ocs (w_fs w) = Some (FS.Dir L) ->
  (forall k, FS.kids_get "all_gauge_subbasins.zip" L <> Some (FS.Dir k)) ->
  Forall (fun g => has_char "/" (fst (fst g)) = false
                   /\ exists c, FS.kids_get (zip_name (fst (fst g))) L = Some (FS.File c)) gs ->
  has_char "/" (fst (fst g)) = false ->
  FS.kids_get (zip_name (fst (fst g))) L = None ->
  exists w',
    build_combined_zip (map (fun g => out_zip_of args (fst (fst g))) (gs ++ g :: rest))
      (out_dir args) w
    = (w', Raised (FileNotFoundError (out_zip_of args (fst (fst g)))))
    /\ FS.get ocs (w_fs w')
       = Some (FS.Dir (FS.kids_set "all_gauge_subbasins.zip"
                         (FS.File (FS.Archive (map (entry_in L) gs))) L))
    /\ w_trace w' = w_trace w.
Proof.
  intros Ho HL Hc Hf Hplain Hmiss.
  assert (Hz : Os.resolve (combined_path (out_dir args))
               = Some (ocs ++ ["all_gauge_subbasins.zip"]))
    by (apply (resolve_join _ _ _ Ho); reflexivity).
  destruct (write_in_dir ocs _ _ (FS.Archive []) L w Hz HL Hc) as (w1 & H1 & G1 & T1).
  destruct (combine_loop_ready args ocs Ho L _ Hz gs [] w1 G1 Hf) as (w2 & H2 & G2 & T2).
  simpl app in G2.
  assert (Hp : Os.resolve (out_zip_of args (fst (fst g)))
               = Some (ocs ++ [zip_name (fst (fst g))])).
  { unfold out_zip_of. fold (zip_name (fst (fst g))).
    apply (resolve_join _ _ _ Ho), valid_zip_name, Hplain. }
  assert (Hl : Os.lookup (out_zip_of args (fst (fst g))) (w_fs w2) = None).
  { rewrite (lookup_get _ _ _ Hp), (get_in_dir _ _ _ _ G2).
    rewrite kids_get_set_other; [exact Hmiss|]. intros E. symmetry in E.
    exact (combined_not_zip_name _ E). }
  exists w2. split; [|split; [exact G2|congruence]].
  destruct (map (fun g => out_zip_of args (fst (fst g))) (gs ++ g :: rest)) as [|p ps] eqn:E.
  { destruct gs; discriminate. }
  rewrite build_combined_eq, <- E. unfold Zip.open. rewrite (bind_returned _ _ _ _ _ H1).
  unfold ret. rewrite map_app, for_each_app, (bind_returned _ _ _ _ _ H2).
  simpl. unfold bind at 1. unfold Zip.write at 1. rewrite Hl. reflexivity.
Qed.

Lemma X23_missing_archive_witness :
  exists w',
    build_combined_zip ["outputs/gauge_a_subbasins.zip"; "outputs/gauge_b_subbasins.zip"]
      "outputs" Demo.world3
    = (w', Raised (FileNotFoundError "outputs/gauge_b_subbasins.zip"))
    /\ FS.get ["outputs"] (w_fs w')
       = Some (FS.Dir [("gauge_a_subbasins.zip", FS.File (FS.Archive []));
                       ("all_gauge_subbasins.zip",
                        FS.File (FS.Archive [("gauge_a_subbasins.zip", FS.Archive [])]))]).
Proof.
  destruct (X23_missing_archive Demo.args ["outputs"]
              [("gauge_a_subbasins.zip", FS.File (FS.Archive []))]
              [("a", 0%float, 0%float)] ("b", 0%float, 0%float) [] Demo.world3
              eq_refl eq_refl (fun k H => ltac:(discriminate H)))
    as (w' & H1 & H2 & _).
  - repeat constructor. exists (FS.Archive []). reflexivity.
  - reflexivity.
  - reflexivity.
  - exists w'. split; [exact H1|]. rewrite H2. reflexivity.
Defined.

(* ------------------------------------------------------------------ *)
(** * Running again *)






